(** * StagPy radial profiles ([stagpy/rprof.py]): a shallow embedding

    The numerical helpers of [rprof.py] are embedded as functions over
    Python-style sequences and checked against the statements made about
    them.

    Number model.  Profile values are IEEE doubles in the program; here
    they are real numbers ([R]), the idealisation in which the formulas
    of the module are meant.  Row and timestep indices are Python
    integers ([Z]); the row numbers computed from the numpy table [nzi]
    are 64-bit integers, with their wrap-around ([wrap64]).  Division
    between two Python [float] objects raises [ZeroDivisionError] on a
    zero divisor and is modelled as such ([pydiv]); division between
    numpy values never raises: it is modelled by the total division of
    [R], about whose value at a zero divisor nothing is claimed, and,
    where the quotient is passed on to [math.log], with the infinity or
    NaN it yields at a zero divisor ([np_divide]).

    Library routines.  Indexing, slicing and broadcasting of numpy
    arrays, [np.interp], [np.mean], [scipy.integrate.trapz], [sorted]
    and [str] are embedded by what they compute, with the exceptions
    they raise ([result]).  The plotting calls are left out.  The command
    [rprof_cmd] is embedded with the flags it reads, the files it writes
    and the exceptions that end it; the outcome of the work inside each
    plot call is a parameter there. *)

From Stdlib Require Import String Ascii DecimalString.
From Stdlib Require Import Reals Lra Lia ZArith List Bool Sorted DecimalZ.
Import ListNotations.

(** ** Exceptions *)

Module Py.

Inductive exn : Set :=
| IndexError
| ValueError
| ZeroDivisionError
| TypeError
| NameError.

Inductive result (A : Type) : Type :=
| Ok (a : A)
| Raise (e : exn).

Arguments Ok {A} a.
Arguments Raise {A} e.

Definition bind {A B : Type} (c : result A) (k : A -> result B) : result B :=
  match c with
  | Ok a => k a
  | Raise e => Raise e
  end.

Definition returns {A : Type} (c : result A) : Prop :=
  exists a, c = Ok a.

End Py.

Import Py.

Declare Scope py_scope.
Delimit Scope py_scope with py.
Notation "x <- c ;; k" := (bind c (fun x => k))
  (at level 61, c at next level, right associativity) : py_scope.
Open Scope py_scope.

(** Inversion of [bind c k = Ok b]: [c] returned. *)
Ltac bind_inv H :=
  let a := fresh "v" in
  let Ha := fresh "E" in
  match type of H with
  | bind ?c _ = Ok _ =>
      destruct c as [a|] eqn:Ha; [cbn [bind] in H | discriminate H]
  end.

Ltac decide_order :=
  repeat match goal with
         | |- context [Rlt_dec ?a ?b] => destruct (Rlt_dec a b); try lra
         | |- context [Rle_dec ?a ?b] => destruct (Rle_dec a b); try lra
         | |- context [Req_dec_T ?a ?b] => destruct (Req_dec_T a b); try lra
         end.

(** ** Python sequences *)

Section Sequences.

Context {A : Type}.

(** Start or stop of a slice [l[a:b]] on a sequence of length [n]:
    a negative bound counts from the end, and both are clamped. *)
Definition slice_bound (n : nat) (a : Z) : nat :=
  if (a <? 0)%Z then Z.to_nat (Z.max 0 (a + Z.of_nat n))
  else Nat.min (Z.to_nat a) n.

(** [l[a:b]] *)
Definition slice (a b : Z) (l : list A) : list A :=
  let lo := slice_bound (length l) a in
  let hi := slice_bound (length l) b in
  firstn (hi - lo) (skipn lo l).

(** Position designated by an integer index on a sequence of length
    [n]; a negative index counts from the end. *)
Definition index_pos (n : nat) (i : Z) : result nat :=
  if (i <? 0)%Z then
    if (0 <=? i + Z.of_nat n)%Z then Ok (Z.to_nat (i + Z.of_nat n))
    else Raise IndexError
  else if (i <? Z.of_nat n)%Z then Ok (Z.to_nat i)
  else Raise IndexError.

(** [l[i]] *)
Definition getitem (l : list A) (i : Z) : result A :=
  p <- index_pos (length l) i ;;
  match nth_error l p with
  | Some x => Ok x
  | None => Raise IndexError
  end.

Fixpoint zip_with {B C : Type} (f : A -> B -> C) (l : list A) (m : list B)
  : list C :=
  match l, m with
  | x :: l', y :: m' => f x y :: zip_with f l' m'
  | _, _ => []
  end.

End Sequences.

(** ** numpy arrays of numbers *)

Open Scope R_scope.

(** Element-wise binary operation on two 1-D arrays, with numpy's
    broadcasting: equal lengths, or one of the two of length 1. *)
Definition broadcast2 (f : R -> R -> R) (a b : list R) : result (list R) :=
  if Nat.eqb (length a) (length b) then Ok (zip_with f a b)
  else match a, b with
       | [x], _ => Ok (map (f x) b)
       | _, [y] => Ok (map (fun x => f x y) a)
       | _, _ => Raise ValueError
       end.

(** [np.append(arr, v)] and [np.insert(arr, 0, v)] on a 1-D array. *)
Definition np_append (arr : list R) (v : R) : list R := arr ++ [v].
Definition np_insert0 (arr : list R) (v : R) : list R := v :: arr.

(** [x / y] between two Python floats. *)
Definition pydiv (x y : R) : result R :=
  if Req_dec_T y 0 then Raise ZeroDivisionError else Ok (x / y).

(** The profile table: a 2-D array, one row per depth sample, the rows of
    all timesteps concatenated.  A numpy array is rectangular: [wf_table]
    says that every row has [ncols] entries. *)
Record ndarray2 : Type := mk_ndarray2 {
  ncols : nat;
  rows : list (list R)
}.

Definition nrows (data : ndarray2) : nat := length (rows data).

Definition wf_table (data : ndarray2) : Prop :=
  Forall (fun r => length r = ncols data) (rows data).

(** [data[a:b, c]]: the column index is checked against the shape. *)
Definition getcol (data : ndarray2) (a b : Z) (c : Z) : result (list R) :=
  j <- index_pos (ncols data) c ;;
  Ok (map (fun r => nth j r 0) (slice a b (rows data))).

(** [data[i, c]] *)
Definition getcell (data : ndarray2) (i : Z) (c : Z) : result R :=
  r <- getitem (rows data) i ;;
  j <- index_pos (ncols data) c ;;
  Ok (nth j r 0).

(** ** Energy balance: [_calc_energy] *)

Definition _calc_energy (data : ndarray2) (ir0 ir1 : Z)
  : result (list R * list R * list R * list R) :=
  zgrid <- getcol data ir0 ir1 63 ;;
  let zgrid := np_append zgrid 1 in
  zhi <- getcol data (ir0 + 1) ir1 0 ;;
  zlo <- getcol data ir0 (ir1 - 1) 0 ;;
  dzg <- broadcast2 Rminus zhi zlo ;;
  qadv <- getcol data ir0 (ir1 - 1) 60 ;;
  let qadv := np_insert0 qadv 0 in
  let qadv := np_append qadv 0 in
  tlo <- getcol data ir0 (ir1 - 1) 1 ;;
  thi <- getcol data (ir0 + 1) ir1 1 ;;
  dtemp <- broadcast2 Rminus tlo thi ;;
  qcond <- broadcast2 Rdiv dtemp dzg ;;
  t0 <- getcell data ir0 1 ;;
  z0 <- getcell data ir0 0 ;;
  qcond0 <- pydiv (1 - t0) z0 ;;
  t1 <- getcell data ir1 1 ;;
  z1 <- getcell data ir1 0 ;;
  qtop <- pydiv t1 (1 - z1) ;;
  let qcond := np_insert0 qcond qcond0 in
  let qcond := np_append qcond qtop in
  qtot <- broadcast2 Rplus qadv qcond ;;
  Ok (qtot, qadv, qcond, zgrid).

(** Entry of the table at row [i], column [j] (positions from 0). *)
Definition cell (data : ndarray2) (i j : nat) : R :=
  nth j (nth i (rows data) []) 0.

(** A slice on which the energy balance is defined: a rectangular table
    with the columns 0, 1, 60 and 63, at least the two rows [ir0] and
    [ir1] present, and non-zero divisors in the two boundary terms. *)
Definition valid_slice (data : ndarray2) (ir0 ir1 : Z) : Prop :=
  wf_table data /\ (64 <= ncols data)%nat /\
  (0 <= ir0)%Z /\ (ir0 + 1 <= ir1)%Z /\ (ir1 < Z.of_nat (nrows data))%Z /\
  cell data (Z.to_nat ir0) 0 <> 0 /\ cell data (Z.to_nat ir1) 0 <> 1.

(** A row of 64 columns with the four entries the energy balance reads:
    depth [z] (column 0), temperature [t] (column 1), advection [q]
    (column 60) and grid coordinate [g] (column 63). *)
Definition energy_row (z t q g : R) : list R :=
  z :: t :: repeat 0 58 ++ q :: 0 :: 0 :: [g].

Definition energy_table : ndarray2 :=
  mk_ndarray2 64 [energy_row (1/4) 1 5 0;
                  energy_row (1/2) (1/2) 7 (1/3);
                  energy_row (3/4) 0 9 (2/3)].

(** The same table with the first depth at 0. *)
Definition energy_table_z0 : ndarray2 :=
  mk_ndarray2 64 [energy_row 0 1 5 0;
                  energy_row (1/2) (1/2) 7 (1/3);
                  energy_row (3/4) 0 9 (2/3)].

(** ** Volumetric norm: [_normprof] *)

(** [np.diff(x)], and [y[1:] + y[:-1]]. *)
Definition np_diff (x : list R) : list R := zip_with Rminus (tl x) x.
Definition pair_sums (y : list R) : list R := zip_with Rplus (tl y) y.

Definition np_sum (l : list R) : R := fold_right Rplus 0 l.

(** [scipy.integrate.trapz(y, x)] on 1-D arrays, as the library computes
    it: [(d * (y[1:] + y[:-1]) / 2.0).sum()] with [d = diff(x)]. *)
Definition trapz (y x : list R) : result R :=
  w <- broadcast2 Rmult (np_diff x) (pair_sums y) ;;
  Ok (np_sum (map (fun v => v / 2) w)).

Definition _normprof (rrr func : list R) : result R :=
  rlast <- getitem rrr (-1) ;;
  rfirst <- getitem rrr 0 ;;
  y <- broadcast2 Rmult (map (fun f => f ^ 2) func) (map (fun r => r ^ 2) rrr) ;;
  integral <- trapz y rrr ;;
  Ok (3 / (rlast ^ 3 - rfirst ^ 3) * integral).

(** By how much the trapezoidal rule overshoots the integral of [r^2] on
    the grid [rrr], relative to the exact value: the cubes of the grid
    steps over twice the difference of the end cubes. *)
Definition step_cubes (rrr : list R) : R :=
  np_sum (map (fun d => d ^ 3) (np_diff rrr)).

Definition quadrature_excess (rrr : list R) : R :=
  step_cubes rrr / (2 * (last rrr 0 ^ 3 - hd 0 rrr ^ 3)).

(** ** Boundary extrapolation: [_extrap] *)

(** [np.interp] is a numpy routine: 1-D piecewise linear interpolation
    with the end values held outside the sample range.  It is modelled by
    the search numpy performs on short sample arrays (a left-to-right
    scan for the last sample not above the position); on increasing
    samples every search finds the same segment.  It raises [ValueError]
    on an empty sample array and on sample arrays of different lengths,
    and never checks that the samples increase. *)
Fixpoint interp_scan (x x0 y0 : R) (xp fp : list R) : R :=
  match xp, fp with
  | x1 :: xp', y1 :: fp' =>
      if Rle_dec x1 x then interp_scan x x1 y1 xp' fp'
      else if Req_dec_T x0 x then y0
      else (y1 - y0) / (x1 - x0) * (x - x0) + y0
  | _, _ => y0
  end.

Definition interp1 (xp fp : list R) (x : R) : R :=
  match xp, fp with
  | x0 :: xp', y0 :: fp' =>
      if Rlt_dec (last xp x0) x then last fp y0
      else if Rlt_dec x x0 then y0
      else interp_scan x x0 y0 xp' fp'
  | _, _ => 0
  end.

Definition np_interp (xpos xp fp : list R) : result (list R) :=
  match xp with
  | [] => Raise ValueError
  | _ => if Nat.eqb (length xp) (length fp) then Ok (map (interp1 xp fp) xpos)
         else Raise ValueError
  end.

(** [ypos[mask(xpos)] = rhs(xpos[mask(xpos)])]: assignment through a
    boolean mask computed from [xpos]. *)
Definition mask_assign (mask : R -> bool) (rhs : R -> R) (xpos ypos : list R)
  : list R :=
  zip_with (fun x y => if mask x then rhs x else y) xpos ypos.

Definition Rltb (x y : R) : bool := if Rlt_dec x y then true else false.

Definition _extrap (xpos xpoints ypoints : list R) : result (list R) :=
  ypos <- np_interp xpos xpoints ypoints ;;
  y0 <- getitem ypoints 0 ;;
  x0 <- getitem xpoints 0 ;;
  y1 <- getitem ypoints 1 ;;
  x1 <- getitem xpoints 1 ;;
  let ypos :=
    mask_assign (fun x => Rltb x x0)
      (fun x => y0 + (x - x0) * (y0 - y1) / (x0 - x1)) xpos ypos in
  yl <- getitem ypoints (-1) ;;
  xl <- getitem xpoints (-1) ;;
  yp <- getitem ypoints (-2) ;;
  xp <- getitem xpoints (-2) ;;
  let ypos :=
    mask_assign (fun x => Rltb xl x)
      (fun x => yl + (x - xl) * (yl - yp) / (xl - xp)) xpos ypos in
  Ok ypos.

Definition sample (l : list R) (i : nat) : R := nth i l 0.

(** What [_extrap] leaves at one position [x], after both assignments. *)
Definition extrap_at (xs ys : list R) (x : R) : R :=
  let n := length xs in
  if Rlt_dec (sample xs (n - 1)) x then
    sample ys (n - 1) + (x - sample xs (n - 1))
      * (sample ys (n - 1) - sample ys (n - 2))
      / (sample xs (n - 1) - sample xs (n - 2))
  else if Rlt_dec x (sample xs 0) then
    sample ys 0 + (x - sample xs 0) * (sample ys 0 - sample ys 1)
      / (sample xs 0 - sample xs 1)
  else interp1 xs ys x.

(** The law the specification states for [_extrap], sample by sample:
    inside a segment [[xs_i, xs_(i+1)]] the chord through its end points,
    outside the range the line through the two nearest samples. *)
Definition chord (xa ya xb yb x : R) : R :=
  ya + (x - xa) * (yb - ya) / (xb - xa).

Definition linear_law (xs ys : list R) (x v : R) : Prop :=
  let n := length xs in
  (forall i, (i + 1 < n)%nat -> sample xs i <= x <= sample xs (i + 1) ->
     v = chord (sample xs i) (sample ys i)
               (sample xs (i + 1)) (sample ys (i + 1)) x) /\
  (x < sample xs 0 ->
     v = chord (sample xs 0) (sample ys 0) (sample xs 1) (sample ys 1) x) /\
  (sample xs (n - 1) < x ->
     v = chord (sample xs (n - 2)) (sample ys (n - 2))
               (sample xs (n - 1)) (sample ys (n - 1)) x).

Fixpoint increasing (xs : list R) : Prop :=
  match xs with
  | x :: (y :: _) as xs' => x < y /\ increasing xs'
  | _ => True
  end.

(** ** Row range of a timestep (loop head of [plotprofiles]) *)

(** A row of the table [nzi]: columns 0, 1 and 2. *)
Definition nzrow : Set := (Z * Z * Z)%type.
Definition col0 (r : nzrow) : Z := fst (fst r).
Definition col1 (r : nzrow) : Z := snd (fst r).
Definition col2 (r : nzrow) : Z := snd r.

Fixpoint insert_sorted (z : Z) (l : list Z) : list Z :=
  match l with
  | [] => [z]
  | y :: l' => if (z <=? y)%Z then z :: l else y :: insert_sorted z l'
  end.

(** [sorted(l)] *)
Definition sorted (l : list Z) : list Z := fold_right insert_sorted [] l.

(** [l.index(z)] *)
Fixpoint list_index (z : Z) (l : list Z) : result Z :=
  match l with
  | [] => Raise ValueError
  | y :: l' => if (y =? z)%Z then Ok 0%Z
               else i <- list_index z l' ;; Ok (i + 1)%Z
  end.

Definition sumZ (l : list Z) : Z := fold_right Z.add 0%Z l.

(** The table [nzi] is a numpy array of 64-bit integers: the arithmetic
    on its entries is done in [int64] and wraps around modulo [2^64].
    [wrap64 z] is the [int64] value that the integer [z] comes out as. *)
Definition wrap64 (z : Z) : Z := ((z + 2 ^ 63) mod 2 ^ 64 - 2 ^ 63)%Z.

Definition int64_range (z : Z) : Prop := (- 2 ^ 63 <= z < 2 ^ 63)%Z.

Definition int64_add (x y : Z) : Z := wrap64 (x + y).
Definition int64_sub (x y : Z) : Z := wrap64 (x - y).
Definition int64_mul (x y : Z) : Z := wrap64 (x * y).

(** [np.sum] of an [int64] array. *)
Definition int64_sum (l : list Z) : Z := fold_right int64_add 0%Z l.

(** The entries of a table are [int64] values. *)
Definition int64_table (nzi : list nzrow) : Prop :=
  Forall (fun r => int64_range (col0 r) /\ int64_range (col1 r) /\
                   int64_range (col2 r)) nzi.

(** Lines 108-115: the rows [ir0 .. ir1] of the profile table that hold
    timestep [step].  The position [inn] is a Python integer; the row
    numbers are computed in [int64]. *)
Definition step_rows (nzi : list nzrow) (step : Z) : result (Z * Z) :=
  let ann := sorted (map col0 nzi ++ [step]) in
  inn <- list_index step ann ;;
  let nnz := map (fun r => int64_mul (col1 r) (col2 r)) nzi in
  prev <- getitem nzi (inn - 1) ;;
  cur <- getitem nzi inn ;;
  let ir0 := int64_add (int64_sum (slice 0 inn nnz))
                       (int64_mul (int64_sub (int64_sub step (col0 prev)) 1)
                                  (col2 cur)) in
  let ir1 := int64_sub (int64_add ir0 (col2 cur)) 1 in
  Ok (ir0, ir1).

(** ** Time average (head of [plotaveragedprofiles]) *)

(** [range(0, n, k)] for [k > 0]. *)
Definition range_step (n k : nat) : list nat :=
  map (fun i => (i * k)%nat) (seq 0 ((n + k - 1) / k)).

(** The local function [chunks]; [range] refuses a zero step. *)
Definition chunks {A : Type} (mydata : list A) (nbz : nat)
  : result (list (list A)) :=
  if Nat.eqb nbz 0 then Raise ValueError
  else Ok (map (fun ii => slice (Z.of_nat ii) (Z.of_nat (ii + nbz)) mydata)
               (range_step (length mydata) nbz)).

(** [data[:, vartuple]]: the selected columns of every row. *)
Fixpoint column_positions (n : nat) (cols : list Z) : result (list nat) :=
  match cols with
  | [] => Ok []
  | c :: cols' =>
      j <- index_pos n c ;;
      js <- column_positions n cols' ;;
      Ok (j :: js)
  end.

Definition getcols (data : ndarray2) (vartuple : list Z)
  : result (list (list R)) :=
  js <- column_positions (ncols data) vartuple ;;
  Ok (map (fun r => map (fun j => nth j r 0) js) (rows data)).

Definition shape (m : list (list R)) : list nat := map (@length R) m.

Definition same_shape (a b : list (list R)) : bool :=
  if list_eq_dec Nat.eq_dec (shape a) (shape b) then true else false.

Definition mat_add (a b : list (list R)) : list (list R) :=
  zip_with (zip_with Rplus) a b.

(** [np.mean(chunks, axis=0)] on a list of 2-D arrays: the arrays are
    stacked, which requires equal shapes, summed and divided by their
    number.  On an empty list numpy returns a scalar NaN, and the shape
    lookup of line 314 raises [IndexError]. *)
Definition mean_axis0 (cs : list (list (list R))) : result (list (list R)) :=
  match cs with
  | [] => Raise IndexError
  | c0 :: cs' =>
      if forallb (same_shape c0) cs'
      then Ok (map (map (fun s => s / INR (length cs)))
                   (fold_left mat_add cs' c0))
      else Raise ValueError
  end.

(** Lines 308-312: [donnee_averaged]. *)
Definition donnee_averaged (data tsteps : ndarray2) (vartuple : list Z)
  : result (list (list R)) :=
  nztot <- (if Nat.eqb (nrows tsteps) 0 then Raise ZeroDivisionError
            else Ok (nrows data / nrows tsteps)%nat) ;;
  donnee <- getcols data vartuple ;;
  donnee_chunk <- chunks donnee nztot ;;
  mean_axis0 donnee_chunk.

(** ** Theoretical initial profile ([rprof_cmd], lines 416-433) *)

(** [x ** y] between Python floats, on the reals: a positive base gives
    [exp (y * ln x)]; a zero base gives 0, 1 or [ZeroDivisionError] with
    the sign of the exponent; a negative base gives a real number only
    for an integral exponent, and a complex number otherwise, on which
    the comparison of [initprof] raises [TypeError]. *)
Definition is_integral (y : R) : bool :=
  if Req_dec_T (IZR (Int_part y)) y then true else false.

Definition pypow (x y : R) : result R :=
  if Rlt_dec 0 x then Ok (Rpower x y)
  else if Req_dec_T x 0 then
    if Rlt_dec 0 y then Ok 0
    else if Req_dec_T y 0 then Ok 1
    else Raise ZeroDivisionError
  else if is_integral y then Ok (powerRZ x (Int_part y))
  else Raise TypeError.

Record theory : Type := mk_theory {
  xieut : R;   (* tracersin.fe_eut *)
  k_fe : R;    (* tracersin.k_fe *)
  xi0l : R;    (* tracersin.fe_cont *)
  rmin : R;
  rmax : R
}.

Definition xi0s (p : theory) : R := k_fe p * xi0l p.

Definition rsup (p : theory) : result R :=
  xired <- pydiv (xi0l p) (xieut p) ;;
  e <- pydiv 1 (1 - k_fe p) ;;
  frac <- pypow xired e ;;
  pypow (rmax p ^ 3 - frac * (rmax p ^ 3 - rmin p ^ 3)) (1 / 3).

(** The branch of [initprof] taken below [rsup], for a position that is
    a Python float.  (For a numpy scalar the division and the power
    yield an infinity or a NaN where these raise; the two agree wherever
    the divisor is non-zero and the base positive.) *)
Definition powerlaw (p : theory) (rpos : R) : result R :=
  ratio <- pydiv (rmax p ^ 3 - rmin p ^ 3) (rmax p ^ 3 - rpos ^ 3) ;;
  pw <- pypow ratio (1 - k_fe p) ;;
  Ok (xi0s p * pw).

(** [initprof] closes over [rsup], computed once by [rprof_cmd] before
    the function is defined; an exception of that computation is shown
    here at the first call. *)
Definition initprof (p : theory) (rpos : R) : result R :=
  rs <- rsup p ;;
  if Rlt_dec rpos rs then powerlaw p rpos else Ok (xieut p).

(** The real function computed by the power-law branch where it is
    defined. *)
Definition powerlaw_value (p : theory) (rpos : R) : R :=
  xi0s p * Rpower ((rmax p ^ 3 - rmin p ^ 3) / (rmax p ^ 3 - rpos ^ 3))
                  (1 - k_fe p).

(** The number whose cube root is [rsup]. *)
Definition radicand (p : theory) : R :=
  rmax p ^ 3
  - Rpower (xi0l p / xieut p) (1 / (1 - k_fe p)) * (rmax p ^ 3 - rmin p ^ 3).

(** The cube root that [rsup] returns when the radicand is positive. *)
Definition rsup_root (p : theory) : R := Rpower (radicand p) (1 / 3).

(** Constants with the eutectic concentration 1, the partition
    coefficient 1/2 and the initial liquid at 1/2, between the radii 1
    and 2. *)
Definition half_partition : theory := mk_theory 1 (1 / 2) (1 / 2) 1 2.

(** ** Figure file names *)

Open Scope string_scope.

(** [str(z)] on an integer. *)
Definition str (z : Z) : string := NilZero.string_of_int (Z.to_int z).

(** [s.replace(' ', '_')] *)
Fixpoint replace_spaces (s : string) : string :=
  match s with
  | EmptyString => EmptyString
  | String c s' =>
      String (if Ascii.eqb c " "%char then "_"%char else c) (replace_spaces s')
  end.

(** Line 91. *)
Definition timename (istart ilast istep : Z) : string :=
  str istart ++ "_" ++ str (ilast - 1) ++ "_" ++ str istep.

(** Lines 231-246: the file saved by [plotprofiles] for quantity
    [quant0 = quant[0]]. *)
Definition profile_figure (quant0 : string) (istart ilast istep : Z) : string :=
  if String.eqb quant0 "Grid" then
    "Grid" ++ timename istart ilast istep ++ ".pdf"
  else if String.eqb quant0 "Grid km" then
    "Gridkm" ++ timename istart ilast istep ++ ".pdf"
  else replace_spaces quant0 ++ timename istart ilast istep ++ ".pdf".

(** Line 384: the file saved by [plotaveragedprofiles]. *)
Definition averaged_figure (quant0 : string) : string :=
  "fig_" ++ "average" ++ replace_spaces quant0 ++ ".pdf".

(** ** The command [rprof_cmd]: which files it writes

    The command is embedded with its control flow: the option flags of
    [args], the computation of [rsup], the local variables bound along
    the way, the files written and the exceptions that end the run.  The
    numerical and plotting work inside [plotprofiles] and
    [plotaveragedprofiles] is not embedded here: the outcome of each
    call, a normal return or an exception, is a parameter of the model,
    placed where the call does this work.  What [RprofData(args)] loads
    (module [stagdata]) is a parameter too. *)

(** The attributes of [args] that are option flags, by name. *)
Definition namespace : Type := string -> bool.

Definition setattr (args : namespace) (key : string) (v : bool) : namespace :=
  fun k => if String.eqb k key then v else args k.

(** An entry of [constants.RPROF_VAR_LIST]. *)
Record Varr : Type := mk_Varr {
  name : string;
  arg : string;
  min_max : string;
  prof_idx : Z
}.

(** The entries of [args.par_nml] that the command reads. *)
Record par_nml : Type := mk_par_nml {
  geometry_spherical : bool;   (* geometry.shape is 'spherical' *)
  geometry_r_cmb : R;          (* geometry.r_cmb *)
  tracersin_fe_eut : R;
  tracersin_k_fe : R;
  tracersin_fe_cont : R
}.

Inductive output : Type :=
| Stdout (line : string)
| ProfileFigure (file : string)
| AveragedFigure (file : string)
| DifferenceFigure (file : string)
| StatminFile.

(** What [plotprofiles] returns: [None]; the 4-tuple of the
    concentration pass, of which the command reads [iminc] and
    [timename]; or the 7-tuple of the temperature pass, of which it
    reads [imint], [sigma] and [timename] ([sigma] is only written to
    [statmin.dat]). *)
Inductive plot_result : Type :=
| NoResult
| ConcResult (iminc : Z) (tn : string)
| TempResult (imint : Z) (tn : string).

(** Output log and exceptions. *)
Definition io (A : Type) : Type := list output -> list output * result A.

Definition io_ret {A : Type} (a : A) : io A := fun w => (w, Ok a).

Definition io_raise {A : Type} (e : exn) : io A := fun w => (w, Raise e).

(** A computation that writes nothing. *)
Definition lift {A : Type} (r : result A) : io A := fun w => (w, r).

Definition io_bind {A B : Type} (c : io A) (k : A -> io B) : io B :=
  fun w => match c w with
           | (w', Ok a) => k a w'
           | (w', Raise e) => (w', Raise e)
           end.

Definition emit (o : output) : io unit := fun w => ((w ++ [o])%list, Ok tt).

Declare Scope io_scope.
Delimit Scope io_scope with io.
Notation "x <~ c ;; k" := (io_bind c (fun x => k))
  (at level 61, c at next level, right associativity) : io_scope.
Notation "c ;;; k" := (io_bind c (fun _ => k))
  (at level 61, right associativity) : io_scope.

Definition run {A : Type} (c : io A) : list output * result A := c [].

(** The difference outputs among the files written. *)
Definition is_difference_figure (o : output) : bool :=
  match o with DifferenceFigure _ => true | _ => false end.

Definition is_statmin (o : output) : bool :=
  match o with StatminFile => true | _ => false end.

(** [c] appends to the log, whether it returns or raises, and what it
    appends holds neither the difference figure nor [statmin.dat]. *)
Definition quiet {A : Type} (c : io A) : Prop :=
  forall w, exists d,
    fst (c w) = (w ++ d)%list /\
    existsb is_difference_figure d = false /\ existsb is_statmin d = false.

(** [c] appends [d] to the log and returns [a]. *)
Definition emits {A : Type} (c : io A) (a : A) (d : list output) : Prop :=
  forall w, c w = ((w ++ d)%list, Ok a).

(** The local variables of [rprof_cmd] that the difference block reads:
    [timename]; [imint], bound together with [sigma]; and [iminc]. *)
Record locals : Type := mk_locals {
  l_timename : option string;
  l_imint : option Z;
  l_iminc : option Z
}.

(** Lines 392-394. *)
Definition gate (args0 : namespace) : namespace :=
  if negb (args0 "plot_conctheo" && args0 "plot_temperature" &&
           args0 "plot_concentration")
  then setattr args0 "plot_difference" false
  else args0.

(** Lines 407-423: the constants of the theoretical profile. *)
Definition theory_of (nml : par_nml) : theory :=
  let rcmb := if geometry_spherical nml then geometry_r_cmb nml else 0 in
  mk_theory (tracersin_fe_eut nml) (tracersin_k_fe nml)
            (tracersin_fe_cont nml) rcmb (rcmb + 1).

(** Lines 422-424.  A division by zero ends the command here.  A power
    of a negative base with a fractional exponent raises nothing here:
    [rsup] is then a complex number, printed as any other, and the
    [TypeError] comes with the first comparison in [initprof]. *)
Definition rsup_computed (p : theory) : io unit :=
  match rsup p with
  | Ok _ => io_ret tt
  | Raise TypeError => io_ret tt
  | Raise e => io_raise e
  end.

Section Command.

Variable RPROF_VAR_LIST : ascii -> Varr.
Variable timestep : Z * Z * Z.
Variable nml : par_nml.

(** [RprofData] belongs to the module [stagdata], not to [rprof.py]: the
    command is embedded from the point where [RprofData(args)] has
    returned its tables.  Of these the command itself reads [tsteps];
    [data] and [nzi] are handed on to the plot calls. *)
Variable tsteps : ndarray2.

(** The work of [plotprofiles] before its figure is saved (lines
    73-230: the set-up of the figure and the loop over the timesteps),
    for the quantity and the options of the call. *)
Variable profiles_work : string -> namespace -> result unit.

(** The work of [plotprofiles] after its figure is saved (lines
    249-282, for the concentration and for the temperature): it yields
    the place of the least difference, [iminc] or [imint]. *)
Variable difference_work : string -> namespace -> result Z.

(** The work of [plotaveragedprofiles] before its figure is saved
    (lines 294-383). *)
Variable averaged_work : string -> namespace -> result unit.

Open Scope io_scope.

(** [timename] as [plotprofiles] builds it. *)
Definition tn : string :=
  let '(istart, ilast, istep) := timestep in timename istart ilast istep.

Definition plotprofiles (quant0 : string) (args : namespace)
  : io plot_result :=
  lift (profiles_work quant0 args) ;;;
  emit (ProfileFigure (let '(istart, ilast, istep) := timestep in
                       profile_figure quant0 istart ilast istep)) ;;;
  if args "plot_difference" then
    if String.eqb quant0 "Concentration" then
      iminc <~ lift (difference_work quant0 args) ;;
      io_ret (ConcResult iminc tn)
    else if String.eqb quant0 "Temperature" then
      imint <~ lift (difference_work quant0 args) ;;
      io_ret (TempResult imint tn)
    else io_ret NoResult
  else io_ret NoResult.

Definition plotaveragedprofiles (quant0 : string) (args : namespace)
  : io unit :=
  lift (averaged_work quant0 args) ;;;
  emit (AveragedFigure (averaged_figure quant0)).

(** One round of the loop of lines 438-452. *)
Definition profile_pass (args : namespace) (loc : locals) (var : ascii)
  : io locals :=
  let meta := RPROF_VAR_LIST var in
  if negb (args (arg meta)) then io_ret loc
  else
    out <~ plotprofiles (name meta) args ;;
    loc <~ (if Ascii.eqb var "t" && args "plot_difference" then
              match out with
              | TempResult imint tn =>
                  io_ret (mk_locals (Some tn) (Some imint) (l_iminc loc))
              | ConcResult _ _ => io_raise ValueError
              | NoResult => io_raise TypeError
              end
            else io_ret loc) ;;
    if Ascii.eqb var "c" && args "plot_difference" then
      match out with
      | ConcResult iminc tn =>
          io_ret (mk_locals (Some tn) (l_imint loc) (Some iminc))
      | TempResult _ _ => io_raise ValueError
      | NoResult => io_raise TypeError
      end
    else io_ret loc.

(** The place that [difference_work] yields, when it yields one. *)
Definition place_of (quant0 : string) (args : namespace) : option Z :=
  match difference_work quant0 args with
  | Ok i => Some i
  | Raise _ => None
  end.

(** The local variables after one round of that loop, when the table
    names the temperature and the concentration as the loop expects and
    the calls return. *)
Definition locals_after (args : namespace) (loc : locals) (var : ascii)
  : locals :=
  if args (arg (RPROF_VAR_LIST var)) && args "plot_difference" then
    if Ascii.eqb var "t" then
      mk_locals (Some tn) (place_of "Temperature" args) (l_iminc loc)
    else if Ascii.eqb var "c" then
      mk_locals (Some tn) (l_imint loc) (place_of "Concentration" args)
    else loc
  else loc.

(** One round of the loop of lines 455-464. *)
Definition average_pass (args : namespace) (var : ascii) : io unit :=
  let meta := RPROF_VAR_LIST var in
  if negb (args (arg meta)) then io_ret tt
  else plotaveragedprofiles (name meta) args.

Fixpoint for_each {S V : Type} (body : S -> V -> io S) (s : S) (vs : list V)
  : io S :=
  match vs with
  | [] => io_ret s
  | v :: vs' => s' <~ body s v ;; for_each body s' vs'
  end.

(** Lines 466-477.  The figure is saved and [statmin.dat] opened before
    the line of values is formatted; this line reads, in this order,
    [tsteps[imint, 2]], [sigma] and [tsteps[iminc, 2]]. *)
Definition difference_block (args : namespace) (loc : locals) : io unit :=
  if args "plot_difference" then
    match l_timename loc with
    | None => io_raise NameError
    | Some tn =>
        emit (DifferenceFigure ("Difference_to_overturned" ++ tn ++ ".pdf")) ;;;
        emit StatminFile ;;;
        match l_imint loc with
        | None => io_raise NameError
        | Some imint =>
            lift (getcell tsteps imint 2) ;;;
            match l_iminc loc with
            | None => io_raise NameError
            | Some iminc => lift (getcell tsteps iminc 2) ;;; io_ret tt
            end
        end
    end
  else io_ret tt.

Definition when (b : bool) (c : io plot_result) : io unit :=
  if b then (c ;;; io_ret tt) else io_ret tt.

(** Lines 480-501: the plots made after the difference block. *)
Definition trailing_plots (args : namespace) : io unit :=
  when (args "plot_grid") (plotprofiles "Grid" args) ;;;
  when (args "plot_grid_units") (plotprofiles "Grid km" args) ;;;
  when (args "plot_advection")
       (plotprofiles "Advection per unit surface" args ;;;
        if geometry_spherical nml
        then plotprofiles "Total scaled advection" args
        else io_ret NoResult) ;;;
  when (args "plot_energy") (plotprofiles "Energy" args).

Definition rprof_cmd (args0 : namespace) : io namespace :=
  let args := gate args0 in
  (if args "plot_conctheo"
   then rsup_computed (theory_of nml) ;;; emit (Stdout "rmin, rmax, rsup=")
   else io_ret tt) ;;;
  loc <~ for_each (profile_pass args) (mk_locals None None None)
           ["t"; "v"; "u"; "n"; "c"]%char ;;
  for_each (fun _ v => average_pass args v) tt ["t"; "v"; "u"; "n"]%char ;;;
  difference_block args loc ;;;
  trailing_plots args ;;;
  io_ret args.

(** The conditions under which no step of the command raises, for the
    options [args] in force after lines 392-394: [rsup] is computed
    without a division by zero, every plot call does its work, both
    places of least difference are found and have a time in [tsteps]. *)
Definition nothing_raises (args : namespace) : Prop :=
  (args "plot_conctheo" = true ->
   tracersin_fe_eut nml <> 0 /\ tracersin_k_fe nml <> 1 /\
   (tracersin_fe_cont nml = 0 -> tracersin_k_fe nml < 1)) /\
  (forall quant0, returns (profiles_work quant0 args)) /\
  (forall quant0, returns (averaged_work quant0 args)) /\
  (forall quant0, exists i, difference_work quant0 args = Ok i /\
                            returns (getcell tsteps i 2)).

End Command.

(** "The name with spaces replaced by underscores", character by
    character. *)
Definition underscored (s q : string) : Prop :=
  String.length q = String.length s /\
  forall i, String.get i q =
            option_map (fun c => if Ascii.eqb c " "%char then "_"%char else c)
                       (String.get i s).

(** The entries of [constants.RPROF_VAR_LIST] as StagPy ships them. *)
Definition stagpy_var_list (var : ascii) : Varr :=
  if Ascii.eqb var "t" then
    mk_Varr "Temperature" "plot_temperature" "plot_minmaxtemp" 1
  else if Ascii.eqb var "v" then
    mk_Varr "Vertical velocity" "plot_velocity" "plot_minmaxvelo" 7
  else if Ascii.eqb var "u" then
    mk_Varr "Horizontal velocity" "plot_velocity" "plot_minmaxvelo" 10
  else if Ascii.eqb var "n" then
    mk_Varr "Viscosity" "plot_viscosity" "plot_minmaxvisco" 13
  else
    mk_Varr "Concentration" "plot_concentration" "plot_minmaxcon" 36.

(** A command line: the flags that are set. *)
Definition flags (set : list string) : namespace :=
  fun k => existsb (String.eqb k) set.

(** A calm run: every plot call does its work, both least differences
    are at the first timestep, and the time table has this one timestep;
    the eutectic concentration is 1, the partition coefficient and the
    initial liquid are 1/2, in a spherical shell from radius 1. *)
Definition work_done : string -> namespace -> result unit := fun _ _ => Ok tt.

Definition least_at_start : string -> namespace -> result Z :=
  fun _ _ => Ok 0%Z.

Definition one_timestep : ndarray2 := mk_ndarray2 3 [[0; 0; 0]].

Definition half_partition_nml : par_nml :=
  mk_par_nml true 1 1 (1 / 2) (1 / 2).

(** The same constants with the partition coefficient 1. *)
Definition unit_partition_nml : par_nml := mk_par_nml true 1 1 1 (1 / 2).

Close Scope string_scope.

(** ** Further definitions *)

(** How many of the boundaries [l] lie below [z]: the place of [z] in
    the sorted list. *)
Definition count_below (z : Z) (l : list Z) : nat :=
  length (filter (fun y => (y <? z)%Z) l).

(** The rows of the profile table that the epoch of a row of [nzi]
    takes, as line 112 computes them. *)
Definition epoch_rows (r : nzrow) : Z := (col1 r * col2 r)%Z.

(** Entry of a 2-D array at row [i], column [j] (positions from 0). *)
Definition entry (m : list (list R)) (i j : nat) : R :=
  nth j (nth i m []) 0.

(** ** The overturned radius ([plotprofiles], lines 161 and 192) *)

(** [x ** (1 / 3)] on a numpy float: the cube root of a positive
    number, 0 at 0, and NaN ([None]) below 0, without exception. *)
Definition np_power_third (x : R) : option R :=
  if Rlt_dec 0 x then Some (Rpower x (1 / 3))
  else if Req_dec_T x 0 then Some 0
  else None.

Definition rfin (rmin rmax radius : R) : option R :=
  np_power_third (rmax ^ 3 + rmin ^ 3 - radius ^ 3).

(** ** The difference series ([plotprofiles], lines 248-282) *)

(** [min(l)] and [max(l)] on a list of floats: the first of the least,
    or greatest, elements; [ValueError] on an empty list. *)
Definition py_min (l : list R) : result R :=
  match l with
  | [] => Raise ValueError
  | x :: l' => Ok (fold_left (fun m y => if Rlt_dec y m then y else m) l' x)
  end.

Definition py_max (l : list R) : result R :=
  match l with
  | [] => Raise ValueError
  | x :: l' => Ok (fold_left (fun m y => if Rlt_dec m y then y else m) l' x)
  end.

(** [l.index(x)] on a list of floats. *)
Fixpoint float_index (x : R) (l : list R) : result Z :=
  match l with
  | [] => Raise ValueError
  | y :: l' => if Req_dec_T y x then Ok 0%Z
               else i <- float_index x l' ;; Ok (i + 1)%Z
  end.

(** A float that need not be finite: the quotient of two numpy floats
    is an infinity or NaN at a zero divisor, without exception. *)
Inductive npfloat : Type :=
| Finite (x : R)
| PlusInf
| MinusInf
| NaN.

(** [x / y] between two finite numpy floats; the zero divisor is taken
    to be [+0.0]. *)
Definition np_divide (x y : R) : npfloat :=
  if Req_dec_T y 0 then
    if Rlt_dec 0 x then PlusInf
    else if Rlt_dec x 0 then MinusInf
    else NaN
  else Finite (x / y).

(** [math.log(q)]: a domain error at and below 0 and at minus infinity;
    infinity and NaN are passed on. *)
Definition math_log (q : npfloat) : result npfloat :=
  match q with
  | Finite x => if Rlt_dec 0 x then Ok (Finite (ln x)) else Raise ValueError
  | PlusInf => Ok PlusInf
  | MinusInf => Raise ValueError
  | NaN => Ok NaN
  end.

(** [l / t] where [l] is a Python float and [t] a finite numpy float:
    numpy's division again. *)
Definition np_divide_by (l : npfloat) (t : R) : npfloat :=
  match l with
  | Finite x => np_divide x t
  | PlusInf => if Rlt_dec t 0 then MinusInf else PlusInf
  | MinusInf => if Rlt_dec t 0 then PlusInf else MinusInf
  | NaN => NaN
  end.

(** Lines 251 and 258, and 263 and 281: the place of the least
    difference, its time [tsteps[imin * istep, 2]] and its value
    relative to the first difference.  [times] is the column 2 of
    [tsteps].  The plotting calls in between are left out. *)
Definition difference_minimum (dif times : list R) (istep : Z)
  : result (R * R * Z) :=
  least <- py_min dif ;;
  imin <- float_index least dif ;;
  t <- getitem times (imin * istep) ;;
  d <- getitem dif imin ;;
  d0 <- getitem dif 0 ;;
  Ok (t, d / d0, imin).

(** Lines 273-275: the greatest velocity [wma], its place [iwm] and the
    growth rate [sigma = math.log(wmax[iwm - 3] / wmax[0]) /
    tsteps[iwm - 3, 2]].  The velocities are numpy floats, so that the
    quotient inside the logarithm never raises. *)
Definition growth_rate (wmax times : list R) : result (R * Z * npfloat) :=
  wma <- py_max wmax ;;
  iwm <- float_index wma wmax ;;
  w <- getitem wmax (iwm - 3) ;;
  w0 <- getitem wmax 0 ;;
  l <- math_log (np_divide w w0) ;;
  t <- getitem times (iwm - 3) ;;
  Ok (wma, iwm, np_divide_by l t).

(** * Properties *)

(** ** Sequences *)

Lemma zip_with_length {A B C : Type} (f : A -> B -> C) (l : list A) (m : list B) :
  length (zip_with f l m) = Nat.min (length l) (length m).
Proof.
  revert m; induction l as [|x l IH]; intros [|y m]; simpl; auto.
Qed.

Lemma zip_with_nth {A B C : Type} (f : A -> B -> C) (l : list A) (m : list B)
      (i : nat) (dc : C) (da : A) (db : B) :
  (i < length l)%nat -> (i < length m)%nat ->
  nth i (zip_with f l m) dc = f (nth i l da) (nth i m db).
Proof.
  revert m i; induction l as [|x l IH]; intros [|y m] [|i]; simpl; intros;
    try lia; auto.
  apply IH; lia.
Qed.

Lemma index_pos_nonneg (n : nat) (i : Z) :
  (0 <= i < Z.of_nat n)%Z -> index_pos n i = Ok (Z.to_nat i).
Proof.
  intros [H0 H1]; unfold index_pos.
  destruct (Z.ltb_spec i 0); [lia|].
  destruct (Z.ltb_spec i (Z.of_nat n)); [reflexivity | lia].
Qed.

Lemma index_pos_beyond (n : nat) (i : Z) :
  (Z.of_nat n <= i)%Z -> index_pos n i = Raise IndexError.
Proof.
  intros H; unfold index_pos.
  destruct (Z.ltb_spec i 0); [lia|].
  destruct (Z.ltb_spec i (Z.of_nat n)); [lia | reflexivity].
Qed.

Lemma slice_bound_nonneg (n : nat) (a : Z) :
  (0 <= a <= Z.of_nat n)%Z -> slice_bound n a = Z.to_nat a.
Proof.
  intros H; unfold slice_bound.
  destruct (Z.ltb_spec a 0); lia.
Qed.

Lemma slice_length {A : Type} (a b : Z) (l : list A) :
  (0 <= a)%Z -> (a <= b)%Z -> (b <= Z.of_nat (length l))%Z ->
  length (slice a b l) = Z.to_nat (b - a).
Proof.
  intros Ha Hab Hb; unfold slice.
  rewrite !slice_bound_nonneg by lia.
  rewrite length_firstn, length_skipn; lia.
Qed.

Lemma getitem_nonneg {A : Type} (l : list A) (i : Z) (d : A) :
  (0 <= i < Z.of_nat (length l))%Z ->
  getitem l i = Ok (nth (Z.to_nat i) l d).
Proof.
  intros H; unfold getitem.
  rewrite index_pos_nonneg by assumption; simpl.
  destruct (nth_error l (Z.to_nat i)) as [x|] eqn:E.
  - rewrite (nth_error_nth _ _ d E); reflexivity.
  - apply nth_error_None in E; lia.
Qed.

Lemma getitem_beyond {A : Type} (l : list A) (i : Z) :
  (Z.of_nat (length l) <= i)%Z -> getitem l i = Raise IndexError.
Proof.
  intros H; unfold getitem; rewrite index_pos_beyond by assumption.
  reflexivity.
Qed.

(** ** numpy arrays *)

Lemma broadcast2_same (f : R -> R -> R) (a b : list R) :
  length a = length b -> broadcast2 f a b = Ok (zip_with f a b).
Proof.
  intros H; unfold broadcast2; rewrite H, Nat.eqb_refl; reflexivity.
Qed.

Lemma broadcast2_long (f : R -> R -> R) (a b c : list R) :
  (2 <= length a)%nat -> (2 <= length b)%nat ->
  broadcast2 f a b = Ok c -> length a = length b /\ c = zip_with f a b.
Proof.
  intros Ha Hb; unfold broadcast2.
  destruct (Nat.eqb_spec (length a) (length b)) as [E|E].
  - intros [= <-]; auto.
  - destruct a as [|x [|x' a]]; simpl in Ha; try lia.
    destruct b as [|y [|y' b]]; simpl in Hb; try lia; discriminate.
Qed.

Lemma getcol_ok (data : ndarray2) (a b c : Z) :
  (0 <= c < Z.of_nat (ncols data))%Z ->
  getcol data a b c =
  Ok (map (fun r => nth (Z.to_nat c) r 0) (slice a b (rows data))).
Proof.
  intros H; unfold getcol; rewrite index_pos_nonneg by assumption.
  reflexivity.
Qed.

(** ** Energy balance *)

Lemma getcell_ok (data : ndarray2) (i c : Z) :
  (0 <= i < Z.of_nat (nrows data))%Z -> (0 <= c < Z.of_nat (ncols data))%Z ->
  getcell data i c = Ok (cell data (Z.to_nat i) (Z.to_nat c)).
Proof.
  intros Hi Hc; unfold getcell, cell.
  rewrite (getitem_nonneg _ _ []) by exact Hi; simpl.
  rewrite index_pos_nonneg by exact Hc; reflexivity.
Qed.

Lemma pydiv_ok (x y : R) : y <> 0 -> pydiv x y = Ok (x / y).
Proof.
  intros H; unfold pydiv; destruct (Req_dec_T y 0); [contradiction | reflexivity].
Qed.

Lemma pydiv_zero (x : R) : pydiv x 0 = Raise ZeroDivisionError.
Proof.
  unfold pydiv; destruct (Req_dec_T 0 0); [reflexivity | contradiction].
Qed.

(** Whatever the table and the indices, a result of [_calc_energy] has a
    total flux that is the sum of the two others, entry by entry, and the
    last conductive entry is the top boundary term of row [ir1]. *)
Lemma calc_energy_result (data : ndarray2) (ir0 ir1 : Z)
      (qtot qadv qcond zgrid : list R) :
  _calc_energy data ir0 ir1 = Ok (qtot, qadv, qcond, zgrid) ->
  length qadv = length qcond /\ qtot = zip_with Rplus qadv qcond /\
  exists t1 z1, getcell data ir1 1 = Ok t1 /\ getcell data ir1 0 = Ok z1 /\
                last qcond 0 = t1 / (1 - z1).
Proof.
  unfold _calc_energy; intros H.
  repeat bind_inv H.
  injection H as <- <- <- <-.
  match goal with
  | Hs : broadcast2 Rplus _ _ = Ok _ |- _ =>
      apply broadcast2_long in Hs;
        [destruct Hs as [Hlen Hsum]
        | unfold np_append, np_insert0; rewrite length_app; simpl; lia ..]
  end.
  split; [exact Hlen|]; split; [exact Hsum|].
  match goal with
  | Ht : getcell data ir1 1 = Ok ?t, Hz : getcell data ir1 0 = Ok ?z,
    Hd : pydiv ?t (1 - ?z) = Ok _ |- _ =>
      exists t, z; split; [reflexivity|]; split; [reflexivity|];
      unfold pydiv in Hd; destruct (Req_dec_T (1 - z) 0); [discriminate|];
      injection Hd as <-
  end.
  unfold np_append; rewrite last_last; reflexivity.
Qed.

(** On a valid slice [_calc_energy] returns, and each of the four arrays
    has [ir1 - ir0 + 1] entries. *)
Lemma calc_energy_returns (data : ndarray2) (ir0 ir1 : Z) :
  valid_slice data ir0 ir1 ->
  exists qtot qadv qcond zgrid,
    _calc_energy data ir0 ir1 = Ok (qtot, qadv, qcond, zgrid) /\
    length qtot = Z.to_nat (ir1 - ir0 + 1) /\
    length qadv = Z.to_nat (ir1 - ir0 + 1) /\
    length qcond = Z.to_nat (ir1 - ir0 + 1) /\
    length zgrid = Z.to_nat (ir1 - ir0 + 1).
Proof.
  intros (Hwf & Hc & H0 & H01 & H1 & Hz0 & Hz1).
  unfold nrows in H1.
  assert (Hcol : forall a b c, (0 <= c < 64)%Z -> (0 <= a)%Z -> (a <= b)%Z ->
            (b <= Z.of_nat (length (rows data)))%Z ->
            exists v, getcol data a b c = Ok v /\ length v = Z.to_nat (b - a)).
  { intros a b c Hcc Ha Hab Hb.
    rewrite getcol_ok by lia.
    eexists; split; [reflexivity|].
    rewrite length_map; apply slice_length; lia. }
  unfold _calc_energy.
  destruct (Hcol ir0 ir1 63%Z) as (zg & -> & Lzg); try lia.
  destruct (Hcol (ir0 + 1)%Z ir1 0%Z) as (zhi & -> & Lzhi); try lia.
  destruct (Hcol ir0 (ir1 - 1)%Z 0%Z) as (zlo & -> & Lzlo); try lia.
  destruct (Hcol ir0 (ir1 - 1)%Z 60%Z) as (qa & -> & Lqa); try lia.
  destruct (Hcol ir0 (ir1 - 1)%Z 1%Z) as (tlo & -> & Ltlo); try lia.
  destruct (Hcol (ir0 + 1)%Z ir1 1%Z) as (thi & -> & Lthi); try lia.
  cbn [bind].
  rewrite (broadcast2_same Rminus zhi zlo) by lia.
  rewrite (broadcast2_same Rminus tlo thi) by lia.
  cbn [bind].
  rewrite broadcast2_same by (rewrite !zip_with_length; lia).
  cbn [bind].
  rewrite !getcell_ok by (unfold nrows; lia).
  cbn [bind].
  rewrite pydiv_ok by exact Hz0.
  cbn [bind].
  rewrite pydiv_ok by (change (Z.to_nat 0) with 0%nat; lra).
  cbn [bind].
  rewrite broadcast2_same
    by (unfold np_append, np_insert0; rewrite !length_app; simpl;
        rewrite !zip_with_length; lia).
  cbn [bind].
  do 4 eexists; split; [reflexivity|].
  unfold np_append, np_insert0.
  repeat (rewrite ?zip_with_length, ?length_app; simpl).
  lia.
Qed.

(** C1. On every slice valid for the energy balance [_calc_energy]
    returns three flux arrays with one entry for each of the
    [ir1 - ir0 + 1] depth indices of the slice, and at every one of these
    indices the total flux is the sum of the advective and of the
    conductive flux.  Whatever the table and the indices, a result of
    [_calc_energy] has this sum at every index of its arrays. *)
Theorem calc_energy_total_is_sum (data : ndarray2) (ir0 ir1 : Z) :
  (valid_slice data ir0 ir1 ->
   exists qtot qadv qcond zgrid,
     _calc_energy data ir0 ir1 = Ok (qtot, qadv, qcond, zgrid) /\
     length qtot = Z.to_nat (ir1 - ir0 + 1) /\
     length qadv = Z.to_nat (ir1 - ir0 + 1) /\
     length qcond = Z.to_nat (ir1 - ir0 + 1) /\
     forall i, (i < Z.to_nat (ir1 - ir0 + 1))%nat ->
       exists a c, nth_error qadv i = Some a /\ nth_error qcond i = Some c /\
                   nth_error qtot i = Some (a + c)) /\
  forall qtot qadv qcond zgrid,
    _calc_energy data ir0 ir1 = Ok (qtot, qadv, qcond, zgrid) ->
    length qtot = length qadv /\ length qadv = length qcond /\
    forall i, (i < length qtot)%nat ->
              sample qtot i = sample qadv i + sample qcond i.
Proof.
  assert (Hany : forall qtot qadv qcond zgrid,
    _calc_energy data ir0 ir1 = Ok (qtot, qadv, qcond, zgrid) ->
    length qtot = length qadv /\ length qadv = length qcond /\
    forall i, (i < length qtot)%nat ->
              sample qtot i = sample qadv i + sample qcond i).
  { intros qtot qadv qcond zgrid E.
    destruct (calc_energy_result _ _ _ _ _ _ _ E) as (Hlen & Hsum & _).
    assert (Htot : length qtot = length qadv)
      by (rewrite Hsum, zip_with_length; lia).
    repeat split; try assumption.
    intros i Hi; unfold sample.
    rewrite Hsum; apply zip_with_nth; lia. }
  split; [|exact Hany].
  intros Hv.
  destruct (calc_energy_returns _ _ _ Hv)
    as (qtot & qadv & qcond & zgrid & E & Lt & La & Lc & _).
  exists qtot, qadv, qcond, zgrid.
  split; [exact E|]. split; [exact Lt|]. split; [exact La|].
  split; [exact Lc|].
  intros i Hi.
  destruct (Hany _ _ _ _ E) as (_ & _ & Hsum).
  exists (sample qadv i), (sample qcond i); unfold sample in *.
  split; [apply nth_error_nth'; lia|].
  split; [apply nth_error_nth'; lia|].
  rewrite <- Hsum by lia.
  apply nth_error_nth'; lia.
Qed.

Lemma calc_energy_total_is_sum_witness :
  exists qtot qadv qcond zgrid,
    _calc_energy energy_table 0 2 = Ok (qtot, qadv, qcond, zgrid) /\
    length qtot = 3%nat /\ length qadv = 3%nat /\ length qcond = 3%nat /\
    forall i, (i < 3)%nat ->
      exists a c, nth_error qadv i = Some a /\ nth_error qcond i = Some c /\
                  nth_error qtot i = Some (a + c).
Proof.
  destruct (calc_energy_total_is_sum energy_table 0 2) as [Hret _].
  apply Hret.
  unfold valid_slice, wf_table, nrows, cell; simpl.
  repeat split; try lia; try lra.
  repeat constructor.
Defined.

(** The energy balance of [energy_table]: no advection at the two
    boundaries, a conductive flux of 2 between the first two rows. *)
Example calc_energy_energy_table :
  _calc_energy energy_table 0 2 =
  Ok ([0; 7; 0], [0; 5; 0], [0; 2; 0], [0; 1 / 3; 1]).
Proof.
  unfold _calc_energy.
  rewrite !getcol_ok by (simpl; lia).
  cbn [bind].
  rewrite !broadcast2_same by reflexivity.
  cbn [bind].
  rewrite !getcell_ok by (unfold nrows; simpl; lia).
  cbn [bind].
  rewrite !pydiv_ok by (unfold cell; simpl; lra).
  cbn [bind].
  rewrite broadcast2_same by reflexivity.
  unfold np_append, np_insert0, cell; simpl.
  replace ((1 - 1) / (1 / 4)) with 0 by field.
  replace ((1 - 1 / 2) / (1 / 2 - 1 / 4)) with 2 by field.
  replace (0 / (1 - 3 / 4)) with 0 by field.
  replace (0 + 0) with 0 by ring.
  replace (5 + 2) with 7 by ring.
  reflexivity.
Qed.

Lemma calc_energy_needs_row (data : ndarray2) (ir0 ir1 : Z) :
  (Z.of_nat (nrows data) <= ir1)%Z -> ~ returns (_calc_energy data ir0 ir1).
Proof.
  intros Hrow [[[[qtot qadv] qcond] zgrid] E].
  destruct (calc_energy_result _ _ _ _ _ _ _ E) as (_ & _ & t1 & z1 & Ht & _).
  unfold getcell in Ht.
  rewrite getitem_beyond in Ht by exact Hrow.
  discriminate.
Qed.

(** C9, as the code has it.  With [0 <= ir0], [ir0 + 2 <= ir1], row [ir1]
    in the table and non-zero divisors in the two boundary terms,
    [_calc_energy] returns four arrays of [ir1 - ir0 + 1] entries each, and
    the last conductive entry is computed from row [ir1]; when row [ir1]
    is not in the table nothing is returned. *)
Theorem calc_energy_shape (data : ndarray2) (ir0 ir1 : Z) :
  wf_table data -> (64 <= ncols data)%nat ->
  (0 <= ir0)%Z -> (ir0 + 2 <= ir1)%Z ->
  ((ir1 < Z.of_nat (nrows data))%Z ->
   cell data (Z.to_nat ir0) 0 <> 0 -> cell data (Z.to_nat ir1) 0 <> 1 ->
   exists qtot qadv qcond zgrid,
     _calc_energy data ir0 ir1 = Ok (qtot, qadv, qcond, zgrid) /\
     length qtot = Z.to_nat (ir1 - ir0 + 1) /\
     length qadv = Z.to_nat (ir1 - ir0 + 1) /\
     length qcond = Z.to_nat (ir1 - ir0 + 1) /\
     length zgrid = Z.to_nat (ir1 - ir0 + 1) /\
     sample qcond (Z.to_nat (ir1 - ir0)) =
       cell data (Z.to_nat ir1) 1 / (1 - cell data (Z.to_nat ir1) 0)) /\
  ((Z.of_nat (nrows data) <= ir1)%Z -> ~ returns (_calc_energy data ir0 ir1)).
Proof.
  intros Hwf Hc H0 H01; split.
  - intros H1 Hz0 Hz1.
    assert (Hv : valid_slice data ir0 ir1)
      by (unfold valid_slice; repeat split; auto; lia).
    destruct (calc_energy_returns _ _ _ Hv)
      as (qtot & qadv & qcond & zgrid & E & Lt & La & Lc & Lz).
    exists qtot, qadv, qcond, zgrid; repeat split; auto.
    destruct (calc_energy_result _ _ _ _ _ _ _ E)
      as (_ & _ & t1 & z1 & Ht & Hz & Hlast).
    assert (Ht' : getcell data ir1 1 = Ok (cell data (Z.to_nat ir1) 1))
      by (apply (getcell_ok data ir1 1); lia).
    assert (Hz' : getcell data ir1 0 = Ok (cell data (Z.to_nat ir1) 0))
      by (apply (getcell_ok data ir1 0); lia).
    rewrite Ht' in Ht; rewrite Hz' in Hz.
    injection Ht as <-; injection Hz as <-.
    rewrite <- Hlast; unfold sample.
    destruct qcond as [|q qs] using rev_ind.
    + simpl in Lc; lia.
    + rewrite last_last, length_app in *; simpl in Lc.
      rewrite app_nth2 by lia.
      replace (Z.to_nat (ir1 - ir0) - length qs)%nat with 0%nat by lia.
      reflexivity.
  - apply calc_energy_needs_row.
Qed.

Lemma calc_energy_shape_witness :
  (exists qtot qadv qcond zgrid,
     _calc_energy energy_table 0 2 = Ok (qtot, qadv, qcond, zgrid) /\
     length qtot = 3%nat /\ length qadv = 3%nat /\
     length qcond = 3%nat /\ length zgrid = 3%nat /\
     sample qcond 2 = cell energy_table 2 1 / (1 - cell energy_table 2 0)) /\
  ((Z.of_nat (nrows energy_table) <= 2)%Z ->
   ~ returns (_calc_energy energy_table 0 2)).
Proof.
  assert (Hwf : wf_table energy_table) by (repeat constructor).
  assert (Hc : (64 <= ncols energy_table)%nat) by (simpl; lia).
  destruct (calc_energy_shape energy_table 0 2 Hwf Hc) as [Hret Hrow];
    [lia | lia |].
  split; [|exact Hrow].
  apply Hret; unfold nrows, cell; simpl; [lia | lra | lra].
Defined.

(** Python's negative indices are accepted too, and count from the end:
    the arrays are then shorter than [ir1 - ir0 + 1]. *)
Example calc_energy_negative_start :
  _calc_energy energy_table (-3) 2 =
  Ok ([0; 7; 0], [0; 5; 0], [0; 2; 0], [0; 1 / 3; 1]).
Proof.
  unfold _calc_energy, getcol, getcell.
  cbn [index_pos ncols energy_table Z.ltb Z.leb Z.compare Pos.compare
       Pos.compare_cont Z.of_nat Pos.of_succ_nat Pos.succ Z.add Z.to_nat
       Pos.to_nat Pos.iter_op Nat.add bind rows].
  unfold slice, slice_bound, getitem, index_pos; simpl.
  rewrite !pydiv_ok by lra; cbn [bind].
  unfold broadcast2, np_append, np_insert0; simpl.
  replace ((1 - 1) / (1 / 4)) with 0 by field.
  replace ((1 - 1 / 2) / (1 / 2 - 1 / 4)) with 2 by field.
  replace (0 / (1 - 3 / 4)) with 0 by field.
  replace (0 + 0) with 0 by ring.
  replace (5 + 2) with 7 by ring.
  reflexivity.
Qed.

(** C9, as stated, fails on a table whose first selected row has depth 0:
    the bottom boundary term divides by it. *)
Lemma calc_energy_zero_depth_raises :
  wf_table energy_table_z0 /\ (0 + 2 <= 2)%Z /\
  (2 < Z.of_nat (nrows energy_table_z0))%Z /\
  _calc_energy energy_table_z0 0 2 = Raise ZeroDivisionError /\
  ~ returns (_calc_energy energy_table_z0 0 2).
Proof.
  assert (E : _calc_energy energy_table_z0 0 2 = Raise ZeroDivisionError).
  { unfold _calc_energy.
    rewrite !getcol_ok by (simpl; lia).
    cbn [bind].
    rewrite !broadcast2_same by reflexivity.
    cbn [bind].
    rewrite !getcell_ok by (unfold nrows; simpl; lia).
    cbn [bind].
    change (cell energy_table_z0 (Z.to_nat 0) (Z.to_nat 0)) with 0.
    rewrite pydiv_zero; reflexivity. }
  split; [repeat constructor|].
  split; [lia|]. split; [simpl; lia|]. split; [exact E|].
  intros [r Hr]; rewrite E in Hr; discriminate.
Qed.

(** ** Row range of a timestep *)

(** [int64] arithmetic is arithmetic modulo [2^64]. *)
Lemma wrap64_shift (z m : Z) : wrap64 (z + m * 2 ^ 64) = wrap64 z.
Proof.
  unfold wrap64.
  replace (z + m * 2 ^ 64 + 2 ^ 63)%Z with (z + 2 ^ 63 + m * 2 ^ 64)%Z by ring.
  rewrite Z_mod_plus_full; reflexivity.
Qed.

Lemma wrap64_decomp (z : Z) : exists m, wrap64 z = (z + m * 2 ^ 64)%Z.
Proof.
  exists (- ((z + 2 ^ 63) / 2 ^ 64))%Z; unfold wrap64.
  pose proof (Z_div_mod_eq_full (z + 2 ^ 63) (2 ^ 64)) as E.
  lia.
Qed.

Lemma wrap64_range (z : Z) : int64_range z -> wrap64 z = z.
Proof.
  unfold int64_range, wrap64; intros H.
  rewrite Z.mod_small by lia; lia.
Qed.

Lemma wrap64_in_range (z : Z) : int64_range (wrap64 z).
Proof.
  unfold int64_range, wrap64.
  pose proof (Z.mod_pos_bound (z + 2 ^ 63) (2 ^ 64)); lia.
Qed.

Lemma wrap64_add_l (x y : Z) : wrap64 (wrap64 x + y) = wrap64 (x + y).
Proof.
  destruct (wrap64_decomp x) as [m ->].
  replace (x + m * 2 ^ 64 + y)%Z with (x + y + m * 2 ^ 64)%Z by ring.
  apply wrap64_shift.
Qed.

Lemma wrap64_add_r (x y : Z) : wrap64 (x + wrap64 y) = wrap64 (x + y).
Proof. rewrite Z.add_comm, wrap64_add_l, Z.add_comm; reflexivity. Qed.

Lemma wrap64_sub_l (x y : Z) : wrap64 (wrap64 x - y) = wrap64 (x - y).
Proof. unfold Z.sub; apply wrap64_add_l. Qed.

Lemma wrap64_mul_l (x y : Z) : wrap64 (wrap64 x * y) = wrap64 (x * y).
Proof.
  destruct (wrap64_decomp x) as [m ->].
  replace ((x + m * 2 ^ 64) * y)%Z with (x * y + (m * y) * 2 ^ 64)%Z by ring.
  apply wrap64_shift.
Qed.

(** The sum of the wrapped products is the wrapped sum of the
    products. *)
Lemma int64_sum_products (l : list nzrow) :
  int64_sum (map (fun r => int64_mul (col1 r) (col2 r)) l)
  = wrap64 (sumZ (map epoch_rows l)).
Proof.
  induction l as [|r l IH]; [reflexivity|].
  cbn [map int64_sum sumZ fold_right]; fold (int64_sum
    (map (fun r => int64_mul (col1 r) (col2 r)) l)).
  fold (sumZ (map epoch_rows l)).
  rewrite IH; unfold int64_add, int64_mul, epoch_rows.
  rewrite wrap64_add_l, wrap64_add_r; reflexivity.
Qed.

Lemma slice_map {A B : Type} (f : A -> B) (a b : Z) (l : list A) :
  slice a b (map f l) = map f (slice a b l).
Proof.
  unfold slice; rewrite length_map, skipn_map, firstn_map; reflexivity.
Qed.

(** The row range in terms of the integers it wraps: the rows of the
    epochs before position [inn], and the offset of the timestep in its
    own epoch. *)
Lemma step_rows_value (nzi : list nzrow) (step inn : Z) (prev cur : nzrow) :
  list_index step (sorted (map col0 nzi ++ [step])) = Ok inn ->
  getitem nzi (inn - 1) = Ok prev ->
  getitem nzi inn = Ok cur ->
  step_rows nzi step =
  Ok (wrap64 (sumZ (map epoch_rows (slice 0 inn nzi))
              + (step - col0 prev - 1) * col2 cur),
      wrap64 (sumZ (map epoch_rows (slice 0 inn nzi))
              + (step - col0 prev - 1) * col2 cur + col2 cur - 1))%Z.
Proof.
  intros Hinn Hprev Hcur; unfold step_rows.
  rewrite Hinn; cbn [bind]; rewrite Hprev; cbn [bind]; rewrite Hcur; cbn [bind].
  rewrite slice_map, int64_sum_products.
  generalize (sumZ (map epoch_rows (slice 0 inn nzi))); intros before.
  unfold int64_add, int64_sub, int64_mul.
  assert (E0 : wrap64 (wrap64 before
                       + wrap64 (wrap64 (wrap64 (step - col0 prev) - 1)
                                 * col2 cur))
               = wrap64 (before + (step - col0 prev - 1) * col2 cur)).
  { rewrite wrap64_add_l, wrap64_add_r, wrap64_sub_l.
    rewrite <- (wrap64_add_r before (wrap64 _ * _)), wrap64_mul_l.
    rewrite wrap64_add_r; reflexivity. }
  rewrite E0, wrap64_add_l, wrap64_sub_l; reflexivity.
Qed.

(** C2, as the code has it.  The table of a run with constant resolution
    is the leading row [(0, a, b)] with [a * b = 0] (no rows before the
    first timestep) followed by one row [(last, n, nz)].  For every
    timestep [1 <= step <= last] the rows are [(step - 1) * nz] to
    [(step - 1) * nz + nz - 1] as [int64] values, that is modulo [2^64];
    they are these very numbers when both lie in the [int64] range. *)
Theorem step_rows_constant_resolution (a b last n nz step : Z) :
  int64_table [(0, a, b); (last, n, nz)]%Z ->
  (a * b = 0)%Z -> (1 <= step <= last)%Z ->
  step_rows [(0, a, b); (last, n, nz)]%Z step =
  Ok (wrap64 ((step - 1) * nz), wrap64 ((step - 1) * nz + nz - 1))%Z /\
  (int64_range ((step - 1) * nz) -> int64_range ((step - 1) * nz + nz - 1) ->
   step_rows [(0, a, b); (last, n, nz)]%Z step =
   Ok ((step - 1) * nz, (step - 1) * nz + nz - 1)%Z).
Proof.
  intros _ Hab [H1 H2].
  assert (Hinn : list_index step (sorted (map col0 [(0, a, b); (last, n, nz)]%Z
                                          ++ [step])) = Ok 1%Z).
  { unfold sorted, col0.
    cbn [map app fold_right insert_sorted fst snd].
    destruct (Z.leb_spec last step).
    - assert (last = step) by lia; subst last.
      cbn [insert_sorted].
      destruct (Z.leb_spec 0 step); [|lia].
      cbn [list_index].
      destruct (Z.eqb_spec 0 step); [lia|].
      rewrite Z.eqb_refl; reflexivity.
    - cbn [insert_sorted].
      destruct (Z.leb_spec 0 step); [|lia].
      cbn [list_index].
      destruct (Z.eqb_spec 0 step); [lia|].
      rewrite Z.eqb_refl; reflexivity. }
  assert (E : step_rows [(0, a, b); (last, n, nz)]%Z step =
              Ok (wrap64 ((step - 1) * nz),
                  wrap64 ((step - 1) * nz + nz - 1))%Z).
  { rewrite (step_rows_value _ step 1 (0, a, b)%Z (last, n, nz)%Z Hinn)
      by reflexivity.
    change (slice 0 1 [(0, a, b); (last, n, nz)]%Z) with [(0, a, b)%Z].
    unfold epoch_rows, col0, col1, col2; cbn [map sumZ fold_right fst snd].
    rewrite Hab.
    f_equal; f_equal; f_equal; ring. }
  split; [exact E|].
  intros R0 R1; rewrite E, !wrap64_range by assumption; reflexivity.
Qed.

Lemma step_rows_constant_resolution_witness :
  step_rows [(0, 0, 0); (100, 100, 64)]%Z 3 = Ok (128, 191)%Z.
Proof.
  apply (step_rows_constant_resolution 0 0 100 100 64 3).
  - repeat constructor; unfold col0, col1, col2; simpl; lia.
  - lia.
  - lia.
  - unfold int64_range; lia.
  - unfold int64_range; lia.
Defined.

(** Beyond the [int64] range the row numbers wrap around: with [2^32]
    rows per timestep, timestep [2^32 + 1] starts on row [0] again. *)
Example step_rows_wraps :
  step_rows [(0, 0, 0); (2 ^ 32 + 1, 2 ^ 32 + 1, 2 ^ 32)]%Z (2 ^ 32 + 1)
  = Ok (0, 2 ^ 32 - 1)%Z.
Proof. reflexivity. Qed.

(** C2, as stated, fails on a table with a single row: a timestep not
    after the row's own gets a negative start row, and a later one has no
    row to read its count from. *)
Lemma step_rows_single_row :
  step_rows [(10, 5, 5)%Z] 1 = Ok (-50, -46)%Z /\
  step_rows [(10, 5, 5)%Z] 1 <> Ok ((1 - 1) * 5, (1 - 1) * 5 + 5 - 1)%Z /\
  step_rows [(0, 5, 5)%Z] 1 = Raise IndexError.
Proof.
  repeat split; try reflexivity.
  discriminate.
Qed.

(** ** Volumetric norm *)

Lemma zip_with_repeat_l {A B C : Type} (f : A -> B -> C) (x : A) (l : list B) :
  zip_with f (repeat x (length l)) l = map (f x) l.
Proof.
  induction l as [|y l IH]; simpl; [reflexivity | rewrite IH; reflexivity].
Qed.

Lemma last_cons {A : Type} (xs : list A) (a b : A) :
  last (b :: xs) a = last xs b.
Proof.
  revert a b; induction xs as [|x xs IH]; intros a b; [reflexivity|].
  change (last (b :: x :: xs) a) with (last (x :: xs) a).
  rewrite (IH a x), (IH b x); reflexivity.
Qed.

(** The trapezoidal sum of [c^2 * r^2] over a grid starting at [a]. *)
Lemma trapezoid_of_square (c : R) (xs : list R) (a : R) :
  np_sum (map (fun v => v / 2)
            (zip_with Rmult (np_diff (a :: xs))
               (pair_sums (map (fun r => c ^ 2 * r ^ 2) (a :: xs))))) =
  c ^ 2 * ((last xs a ^ 3 - a ^ 3) / 3 + step_cubes (a :: xs) / 6).
Proof.
  revert a; induction xs as [|b xs IH]; intros a.
  - unfold step_cubes, np_diff, pair_sums; simpl; field.
  - specialize (IH b).
    unfold step_cubes, np_diff, pair_sums in *.
    cbn [map tl zip_with np_sum fold_right] in *.
    rewrite IH.
    rewrite last_cons; field.
Qed.

Lemma cube_increasing (a b : R) : a < b -> a ^ 3 < b ^ 3.
Proof.
  intros H.
  assert (Hq : 0 < a * a + a * b + b * b).
  { pose proof (pow2_ge_0 (a + b)) as Hs.
    pose proof (pow2_ge_0 a) as Ha.
    pose proof (pow2_ge_0 b) as Hb.
    destruct (Req_dec a 0) as [->|Hna].
    - assert (0 < b * b) by (apply Rmult_lt_0_compat; lra). lra.
    - assert (0 < a * a) by (destruct (Rtotal_order a 0) as [?|[?|?]]; nra).
      nra. }
  assert (Hp : 0 < (b - a) * (a * a + a * b + b * b))
    by (apply Rmult_lt_0_compat; lra).
  replace (b ^ 3) with (a ^ 3 + (b - a) * (a * a + a * b + b * b)) by ring.
  lra.
Qed.

Lemma increasing_last (xs : list R) (a : R) :
  increasing (a :: xs) -> a <= last xs a.
Proof.
  revert a; induction xs as [|b xs IH]; intros a H.
  - simpl; lra.
  - destruct H as [Hab Hinc]. specialize (IH b Hinc).
    rewrite last_cons; lra.
Qed.

Lemma step_cubes_positive (xs : list R) (a b : R) :
  increasing (a :: b :: xs) -> 0 < step_cubes (a :: b :: xs).
Proof.
  revert a b; induction xs as [|x xs IH]; intros a b H.
  - destruct H as [Hab _]. unfold step_cubes, np_diff; simpl.
    assert (0 < (b - a) ^ 3) by (apply pow_lt; lra). lra.
  - destruct H as [Hab Hinc]. specialize (IH b x Hinc).
    unfold step_cubes, np_diff in *.
    cbn [map tl zip_with np_sum fold_right] in *.
    assert (0 < (b - a) ^ 3) by (apply pow_lt; lra). lra.
Qed.

Lemma getitem_from_end {A : Type} (l : list A) (k : nat) (d : A) :
  (1 <= k <= length l)%nat ->
  getitem l (- Z.of_nat k) = Ok (nth (length l - k) l d).
Proof.
  intros Hk; unfold getitem, index_pos.
  destruct (Z.ltb_spec (- Z.of_nat k) 0); [|lia].
  destruct (Z.leb_spec 0 (- Z.of_nat k + Z.of_nat (length l))); [|lia].
  cbn [bind].
  replace (Z.to_nat (- Z.of_nat k + Z.of_nat (length l)))
    with (length l - k)%nat by lia.
  destruct (nth_error l (length l - k)) as [x|] eqn:E.
  - rewrite (nth_error_nth _ _ d E); reflexivity.
  - apply nth_error_None in E; lia.
Qed.

Lemma nth_last {A : Type} (l : list A) (d : A) :
  nth (length l - 1) l d = last l d.
Proof.
  destruct l as [|x l] using rev_ind; [reflexivity|].
  rewrite last_last, length_app; simpl.
  rewrite app_nth2 by lia.
  replace (length l + 1 - 1 - length l)%nat with 0%nat by lia; reflexivity.
Qed.

Lemma getitem_last {A : Type} (l : list A) (d : A) :
  l <> [] -> getitem l (-1) = Ok (last l d).
Proof.
  intros Hl.
  change (-1)%Z with (- Z.of_nat 1)%Z.
  rewrite (getitem_from_end l 1 d).
  - rewrite nth_last; reflexivity.
  - destruct l; [contradiction | simpl; lia].
Qed.

(** The norm of the constant profile [c] on the grid [rrr], whatever the
    grid: [c^2] times a factor of the grid alone. *)
Lemma normprof_of_constant (c a b : R) (xs : list R) :
  let rrr := a :: b :: xs in
  _normprof rrr (repeat c (length rrr)) =
  Ok (3 / (last rrr 0 ^ 3 - a ^ 3) *
      (c ^ 2 * ((last rrr 0 ^ 3 - a ^ 3) / 3 + step_cubes rrr / 6))).
Proof.
  intros rrr; unfold _normprof.
  rewrite (getitem_last rrr 0) by discriminate.
  cbn [bind].
  rewrite (getitem_nonneg rrr 0 0) by (simpl; lia).
  cbn [bind].
  rewrite broadcast2_same by (rewrite !length_map, repeat_length; reflexivity).
  cbn [bind].
  rewrite map_repeat.
  rewrite <- (length_map (fun r => r ^ 2) rrr).
  rewrite zip_with_repeat_l, map_map.
  unfold trapz.
  rewrite broadcast2_same
    by (unfold np_diff, pair_sums, rrr; cbn [map tl];
        rewrite !zip_with_length; cbn [length]; rewrite !length_map;
        reflexivity).
  cbn [bind].
  unfold rrr.
  rewrite (trapezoid_of_square c (b :: xs) a).
  rewrite !last_cons.
  reflexivity.
Qed.

(** C3, as the code has it.  On a strictly ascending grid of at least two
    radii the norm of the constant profile [c] is [c^2 * (1 + e)], where
    [e > 0] is the relative overshoot of the trapezoidal rule on [r^2]:
    the norm is [c^2] only up to the quadrature error, which depends on
    the grid. *)
Theorem normprof_constant (rrr : list R) (c : R) :
  increasing rrr -> (2 <= length rrr)%nat ->
  0 < quadrature_excess rrr /\
  _normprof rrr (repeat c (length rrr)) =
  Ok (c ^ 2 * (1 + quadrature_excess rrr)).
Proof.
  intros Hinc Hlen.
  destruct rrr as [|a [|b xs]]; simpl in Hlen; try lia.
  assert (Hends : a ^ 3 < last (a :: b :: xs) 0 ^ 3).
  { apply cube_increasing.
    rewrite last_cons.
    destruct Hinc as [Hab Hinc].
    pose proof (increasing_last _ _ Hinc) as Hl.
    rewrite last_cons; lra. }
  pose proof (step_cubes_positive _ _ _ Hinc) as Hcubes.
  split.
  - unfold quadrature_excess; cbn [hd].
    apply Rdiv_lt_0_compat; lra.
  - rewrite (normprof_of_constant c a b xs).
    unfold quadrature_excess; cbn [hd].
    f_equal; field; lra.
Qed.

Lemma normprof_constant_witness :
  0 < quadrature_excess [1; 2] /\
  _normprof [1; 2] (repeat 3 2) = Ok (3 ^ 2 * (1 + quadrature_excess [1; 2])).
Proof.
  apply (normprof_constant [1; 2] 3); simpl; [lra | lia].
Defined.

(** C3, as stated, fails on the grid [1, 2] for the constant 1: the norm
    is 15/14, not 1. *)
Lemma normprof_constant_not_square :
  increasing [1; 2] /\
  _normprof [1; 2] (repeat 1 2) = Ok (15 / 14) /\
  _normprof [1; 2] (repeat 1 2) <> Ok (1 ^ 2).
Proof.
  assert (E : _normprof [1; 2] (repeat 1 2) = Ok (15 / 14)).
  { pose proof (normprof_of_constant 1 1 2 []) as E0.
    cbv zeta in E0; cbn [length] in E0; rewrite E0.
    unfold step_cubes, np_diff; simpl.
    f_equal; field. }
  split; [simpl; lra|]. split; [exact E|].
  rewrite E; intros H; injection H as H; lra.
Qed.

(** ** Boundary extrapolation *)

Lemma zip_with_map_r {A B C : Type} (f : A -> B -> C) (g : A -> B) (l : list A) :
  zip_with f l (map g l) = map (fun x => f x (g x)) l.
Proof.
  induction l as [|x l IH]; simpl; [reflexivity | rewrite IH; reflexivity].
Qed.

Lemma mask_assign_map (mask : R -> bool) (rhs g : R -> R) (xpos : list R) :
  mask_assign mask rhs xpos (map g xpos) =
  map (fun x => if mask x then rhs x else g x) xpos.
Proof. unfold mask_assign; apply zip_with_map_r. Qed.

(** With as many [x] as [y] samples, at least two, [_extrap] returns one
    value per position, whatever the order of the samples. *)
Lemma extrap_value (xpos xs ys : list R) :
  length xs = length ys -> (2 <= length xs)%nat ->
  _extrap xpos xs ys = Ok (map (extrap_at xs ys) xpos).
Proof.
  intros Hlen Hn; unfold _extrap, np_interp.
  destruct xs as [|x0 xs']; [simpl in Hn; lia|].
  rewrite Hlen, Nat.eqb_refl; cbn [bind].
  set (xs := x0 :: xs') in *.
  rewrite (getitem_nonneg ys 0 0), (getitem_nonneg xs 0 0) by lia.
  rewrite (getitem_nonneg ys 1 0), (getitem_nonneg xs 1 0) by lia.
  cbn [bind].
  change (-1)%Z with (- Z.of_nat 1)%Z; change (-2)%Z with (- Z.of_nat 2)%Z.
  rewrite (getitem_from_end ys 1 0), (getitem_from_end xs 1 0) by lia.
  rewrite (getitem_from_end ys 2 0), (getitem_from_end xs 2 0) by lia.
  cbn [bind].
  rewrite !mask_assign_map.
  f_equal; apply map_ext; intros x.
  unfold extrap_at, Rltb, sample.
  rewrite <- Hlen.
  change (Z.to_nat 0) with 0%nat; change (Z.to_nat 1) with 1%nat.
  destruct (Rlt_dec (nth (length xs - 1) xs 0) x); [reflexivity|].
  destruct (Rlt_dec x (nth 0 xs 0)); reflexivity.
Qed.

(** C7. With at least two sample points, [_extrap] returns an array of
    the shape of the positions, also when the [x] samples are not
    monotonic. *)
Theorem extrap_total (xpos xs ys : list R) :
  length xs = length ys -> (2 <= length xs)%nat ->
  exists ypos, _extrap xpos xs ys = Ok ypos /\ length ypos = length xpos.
Proof.
  intros Hlen Hn.
  exists (map (extrap_at xs ys) xpos); split.
  - apply extrap_value; assumption.
  - apply length_map.
Qed.

Lemma extrap_total_witness :
  exists ypos, _extrap [0; 5; 2] [3; 1; 2] [10; 20; 30] = Ok ypos /\
               length ypos = 3%nat.
Proof.
  apply (extrap_total [0; 5; 2] [3; 1; 2] [10; 20; 30]); simpl; lia.
Defined.

Lemma increasing_tail (a : R) (l : list R) :
  increasing (a :: l) -> increasing l.
Proof. destruct l; simpl; tauto. Qed.

Lemma increasing_nth_gt (a : R) (l : list R) (i : nat) :
  increasing (a :: l) -> (i < length l)%nat -> a < nth i l 0.
Proof.
  revert a i; induction l as [|b l IH]; intros a i Hinc Hi; simpl in Hi; [lia|].
  destruct Hinc as [Hab Hinc].
  destruct i as [|i]; simpl; [exact Hab|].
  assert (Hi' : (i < length l)%nat) by lia.
  specialize (IH b i Hinc Hi'); lra.
Qed.

(** At a sample the scan returns the sample's value. *)
Lemma interp_scan_node (x1 y1 : R) (xs ys : list R) :
  increasing (x1 :: xs) -> interp_scan x1 x1 y1 xs ys = y1.
Proof.
  intros Hinc; destruct xs as [|x2 xs], ys as [|y2 ys]; try reflexivity.
  destruct Hinc as [H12 _]; simpl.
  destruct (Rle_dec x2 x1); [lra|].
  destruct (Req_dec_T x1 x1); [reflexivity | contradiction].
Qed.

(** On increasing samples the scan returns the chord of every segment
    that contains the position. *)
Lemma interp_scan_chord (xs ys : list R) :
  forall (x0 y0 x : R) (i : nat),
    increasing (x0 :: xs) -> length xs = length ys ->
    (i + 1 < length (x0 :: xs))%nat ->
    nth i (x0 :: xs) 0 <= x <= nth (i + 1) (x0 :: xs) 0 ->
    interp_scan x x0 y0 xs ys =
    chord (nth i (x0 :: xs) 0) (nth i (y0 :: ys) 0)
          (nth (i + 1) (x0 :: xs) 0) (nth (i + 1) (y0 :: ys) 0) x.
Proof.
  revert ys; induction xs as [|x1 xs IH]; intros ys x0 y0 x i Hinc Hlen Hi Hx.
  - simpl in Hi; lia.
  - destruct ys as [|y1 ys]; [discriminate|].
    injection Hlen as Hlen.
    pose proof Hinc as [H01 Hinc'].
    cbn [interp_scan].
    destruct (Rle_dec x1 x) as [Hle|Hgt].
    + destruct i as [|i].
      * simpl in Hx. assert (x = x1) by lra; subst x.
        rewrite interp_scan_node by exact Hinc'.
        unfold chord; simpl; field; lra.
      * replace (S i + 1)%nat with (S (i + 1)) by lia.
        cbn [nth].
        replace (S i + 1)%nat with (S (i + 1)) in Hx by lia.
        apply IH; [exact Hinc' | exact Hlen | simpl in Hi |- *; lia | exact Hx].
    + destruct i as [|i].
      * simpl in Hx |- *.
        destruct (Req_dec_T x0 x) as [->|Hne]; unfold chord; field; lra.
      * exfalso.
        assert (Hlt : x0 < nth i (x1 :: xs) 0)
          by (apply increasing_nth_gt; [exact Hinc | simpl in Hi |- *; lia]).
        cbn [nth] in Hx.
        destruct i as [|i]; simpl in Hx, Hlt; [lra|].
        assert (x1 < nth i xs 0)
          by (apply increasing_nth_gt; [exact Hinc' | simpl in Hi; lia]).
        lra.
Qed.

Lemma increasing_nth_lt (l : list R) (i j : nat) :
  increasing l -> (i < j)%nat -> (j < length l)%nat -> nth i l 0 < nth j l 0.
Proof.
  revert i j; induction l as [|a l IH]; intros i j Hinc Hij Hj;
    [simpl in Hj; lia|].
  destruct j as [|j]; [lia|].
  destruct i as [|i]; cbn [nth].
  - apply increasing_nth_gt; [exact Hinc | simpl in Hj; lia].
  - apply IH; [exact (increasing_tail _ _ Hinc) | lia | simpl in Hj; lia].
Qed.

Lemma increasing_nth_le (l : list R) (i j : nat) :
  increasing l -> (i <= j)%nat -> (j < length l)%nat -> nth i l 0 <= nth j l 0.
Proof.
  intros Hinc Hij Hj.
  destruct (Nat.eq_dec i j) as [->|Hne]; [lra|].
  apply Rlt_le, increasing_nth_lt; [exact Hinc | lia | exact Hj].
Qed.

(** C5. On strictly increasing samples, at least two, [_extrap] returns
    at every position the value of the linear law: the interpolation
    chord inside the sample range, the line through the first two
    samples below it and the line through the last two samples above
    it. *)
Theorem extrap_linear_law (xpos xs ys : list R) :
  increasing xs -> length xs = length ys -> (2 <= length xs)%nat ->
  exists ypos,
    _extrap xpos xs ys = Ok ypos /\ length ypos = length xpos /\
    forall k, (k < length xpos)%nat ->
              linear_law xs ys (sample xpos k) (sample ypos k).
Proof.
  intros Hinc Hlen Hn.
  exists (map (extrap_at xs ys) xpos).
  split; [apply extrap_value; assumption|].
  split; [apply length_map|].
  intros k Hk; unfold sample at 2.
  rewrite (nth_indep _ 0 (extrap_at xs ys 0)) by (rewrite length_map; exact Hk).
  rewrite map_nth.
  fold (sample xpos k); generalize (sample xpos k); clear k Hk; intros x.
  set (n := length xs) in *.
  assert (Hfirst : sample xs 0 < sample xs 1)
    by (apply increasing_nth_lt; [exact Hinc | lia | lia]).
  assert (Hlast : sample xs (n - 2) < sample xs (n - 1))
    by (apply increasing_nth_lt; [exact Hinc | lia | lia]).
  assert (Hspan : sample xs 0 <= sample xs (n - 1))
    by (apply increasing_nth_le; [exact Hinc | lia | lia]).
  unfold linear_law, extrap_at; fold n.
  repeat split.
  - intros i Hi [Hlo Hhi].
    assert (sample xs 0 <= sample xs i)
      by (apply increasing_nth_le; [exact Hinc | lia | lia]).
    assert (sample xs (i + 1) <= sample xs (n - 1))
      by (apply increasing_nth_le; [exact Hinc | lia | lia]).
    destruct (Rlt_dec (sample xs (n - 1)) x); [lra|].
    destruct (Rlt_dec x (sample xs 0)); [lra|].
    destruct xs as [|x0 xs']; [unfold n in Hn; simpl in Hn; lia|].
    destruct ys as [|y0 ys']; [discriminate|].
    unfold interp1.
    replace (last (x0 :: xs') x0) with (sample (x0 :: xs') (n - 1))
      by (unfold sample, n; rewrite nth_last, !last_cons; reflexivity).
    destruct (Rlt_dec (sample (x0 :: xs') (n - 1)) x); [lra|].
    destruct (Rlt_dec x x0); [unfold sample in *; simpl in *; lra|].
    apply interp_scan_chord; auto.
  - intros Hlow.
    destruct (Rlt_dec (sample xs (n - 1)) x); [lra|].
    destruct (Rlt_dec x (sample xs 0)); [|lra].
    unfold chord; field; lra.
  - intros Hhigh.
    destruct (Rlt_dec (sample xs (n - 1)) x); [|lra].
    unfold chord; field; lra.
Qed.

Lemma extrap_linear_law_witness :
  exists ypos,
    _extrap [-1; 1 / 2; 3] [0; 1; 2] [0; 10; 30] = Ok ypos /\
    length ypos = 3%nat /\
    forall k, (k < 3)%nat ->
              linear_law [0; 1; 2] [0; 10; 30]
                         (sample [-1; 1 / 2; 3] k) (sample ypos k).
Proof.
  apply (extrap_linear_law [-1; 1 / 2; 3] [0; 1; 2] [0; 10; 30]).
  - simpl; repeat split; lra.
  - reflexivity.
  - simpl; lia.
Defined.

Example extrap_below_inside_above :
  _extrap [-1; 1 / 2; 3] [0; 1; 2] [0; 10; 30] = Ok [-10; 5; 50].
Proof.
  rewrite extrap_value by (simpl; lia).
  unfold extrap_at, sample, interp1; cbn [map length nth Nat.sub last interp_scan].
  do 2 f_equal; [decide_order; field|].
  f_equal; [decide_order; field|].
  f_equal; decide_order; field.
Qed.

(** ** Time average *)

Lemma slice_app_left {A : Type} (l m : list A) :
  slice 0 (Z.of_nat (length l)) (l ++ m) = l.
Proof.
  unfold slice.
  rewrite !slice_bound_nonneg by (rewrite length_app; lia).
  rewrite Nat2Z.id; simpl.
  rewrite Nat.sub_0_r, firstn_app, Nat.sub_diag, firstn_all; simpl.
  apply app_nil_r.
Qed.

Lemma slice_app_right {A : Type} (l m : list A) :
  slice (Z.of_nat (length l)) (Z.of_nat (length l + length m)) (l ++ m) = m.
Proof.
  unfold slice.
  rewrite !slice_bound_nonneg by (rewrite length_app; lia).
  rewrite !Nat2Z.id.
  rewrite skipn_app, skipn_all, Nat.sub_diag; simpl.
  replace (length l + length m - length l)%nat with (length m) by lia.
  apply firstn_all.
Qed.

Lemma range_step_twice (n : nat) :
  (1 <= n)%nat -> range_step (n + n) n = [0; n]%nat.
Proof.
  intros Hn; unfold range_step.
  replace ((n + n + n - 1) / n)%nat with 2%nat.
  - simpl; f_equal; f_equal; lia.
  - apply (Nat.div_unique _ _ 2 (n - 1)); lia.
Qed.

Lemma chunks_twice {A : Type} (d : list A) :
  d <> [] -> chunks (d ++ d) (length d) = Ok [d; d].
Proof.
  intros Hd; unfold chunks.
  assert (Hn : (1 <= length d)%nat) by (destruct d; [contradiction | simpl; lia]).
  destruct (Nat.eqb_spec (length d) 0); [lia|].
  rewrite length_app, range_step_twice by exact Hn.
  cbn [map]; rewrite Nat.add_0_l.
  change (Z.of_nat 0) with 0%Z.
  rewrite slice_app_left, slice_app_right; reflexivity.
Qed.

Lemma half_of_double (l : list R) :
  map (fun s => s / 2) (zip_with Rplus l l) = l.
Proof.
  induction l as [|x l IH]; simpl; [reflexivity|].
  rewrite IH; f_equal; field.
Qed.

Lemma mean_of_two_equal (d : list (list R)) :
  mean_axis0 [d; d] = Ok d.
Proof.
  unfold mean_axis0, same_shape; cbn [forallb].
  destruct (list_eq_dec Nat.eq_dec (shape d) (shape d)); [|contradiction].
  cbn [andb fold_left length INR]; unfold mat_add.
  f_equal.
  induction d as [|r d IH]; simpl; [reflexivity|].
  rewrite IH; f_equal.
  replace (1 + 1) with 2 by ring.
  apply half_of_double.
Qed.

(** C6. When the table is the rows of one timestep twice over and the
    timestep table has two rows, the average is the profile of the single
    timestep, at every depth level and selected column. *)
Theorem average_of_identical_steps
        (nc : nat) (P : list (list R)) (tsteps : ndarray2)
        (vartuple : list Z) (profile : list (list R)) :
  P <> [] -> nrows tsteps = 2%nat ->
  getcols (mk_ndarray2 nc P) vartuple = Ok profile ->
  donnee_averaged (mk_ndarray2 nc (P ++ P)) tsteps vartuple = Ok profile.
Proof.
  intros HP Hts Hcols.
  unfold donnee_averaged, getcols, nrows in *; cbn [rows ncols] in *.
  rewrite Hts; cbn [Nat.eqb bind].
  bind_inv Hcols; injection Hcols as <-.
  cbn [bind].
  rewrite map_app, length_app.
  replace ((length P + length P) / 2)%nat with (length P)
    by (apply (Nat.div_unique _ _ _ 0); lia).
  set (sel := fun r : list R => map (fun j => nth j r 0) v).
  rewrite <- (length_map sel P).
  rewrite chunks_twice by (destruct P; [contradiction | discriminate]).
  cbn [bind]; apply mean_of_two_equal.
Qed.

Lemma average_of_identical_steps_witness :
  donnee_averaged
    (mk_ndarray2 3 ([[1; 2; 3]; [4; 5; 6]] ++ [[1; 2; 3]; [4; 5; 6]]))
    (mk_ndarray2 3 [[0; 1; 0]; [3; 2; 1 / 10]]) [1; 2]%Z =
  Ok [[2; 3]; [5; 6]].
Proof.
  apply average_of_identical_steps; [discriminate | reflexivity | reflexivity].
Defined.

(** ** Figure file names *)

Open Scope string_scope.

Example str_examples : str 0 = "0" /\ str 99 = "99" /\ str (-1) = "-1".
Proof. repeat split; reflexivity. Qed.

Lemma replace_spaces_underscored (s : string) :
  underscored s (replace_spaces s).
Proof.
  split.
  - induction s as [|c s IH]; simpl; [reflexivity | rewrite IH; reflexivity].
  - induction s as [|c s IH]; intros i; simpl; [reflexivity|].
    destruct i as [|i]; [reflexivity | apply IH].
Qed.

(** C8, as the code has it.  For a quantity other than ['Grid km'] the
    figure of [plotprofiles] is named by the quantity with underscores
    for spaces, directly followed by [istart_(ilast-1)_istep] and
    [.pdf], with no separator between the two; for ['Grid km'] the name
    starts with [Gridkm]; the figure of [plotaveragedprofiles] is named
    [fig_average], the quantity with underscores for spaces, [.pdf]. *)
Theorem figure_names (quant0 : string) (istart ilast istep : Z) :
  exists q,
    underscored quant0 q /\
    (quant0 <> "Grid km" ->
     profile_figure quant0 istart ilast istep =
     q ++ str istart ++ "_" ++ str (ilast - 1) ++ "_" ++ str istep ++ ".pdf") /\
    (quant0 = "Grid km" ->
     profile_figure quant0 istart ilast istep =
     "Gridkm" ++ str istart ++ "_" ++ str (ilast - 1) ++ "_" ++ str istep
       ++ ".pdf") /\
    averaged_figure quant0 = "fig_average" ++ q ++ ".pdf".
Proof.
  exists (replace_spaces quant0).
  split; [apply replace_spaces_underscored|].
  assert (Happ : forall a b c : string, (a ++ b) ++ c = a ++ b ++ c)
    by (intros a b c; induction a as [|x a IH]; simpl;
        [reflexivity | rewrite IH; reflexivity]).
  unfold profile_figure, averaged_figure, timename.
  repeat split.
  - intros Hkm.
    destruct (String.eqb_spec quant0 "Grid") as [->|_].
    + cbn [replace_spaces]; rewrite !Happ; reflexivity.
    + destruct (String.eqb_spec quant0 "Grid km") as [->|_]; [contradiction|].
      rewrite !Happ; reflexivity.
  - intros ->; cbn [String.eqb]; rewrite !Happ; reflexivity.
Qed.

(** C8, as stated, fails on its own example: the figure of the
    temperature for the timesteps [(0, 100, 1)] is
    [Temperature0_99_1.pdf]. *)
Lemma temperature_figure_name :
  profile_figure "Temperature" 0 100 1 = "Temperature0_99_1.pdf" /\
  profile_figure "Temperature" 0 100 1 <> "Temperature_0_99_1.pdf" /\
  profile_figure "Grid km" 0 100 1 = "Gridkm0_99_1.pdf".
Proof.
  repeat split; try reflexivity.
  discriminate.
Qed.

Close Scope string_scope.

(** ** The command: when the difference outputs are written *)

Lemma io_bind_ok {A B : Type} (c : io A) (k : A -> io B) (w w' : list output)
      (b : B) :
  io_bind c k w = (w', Ok b) ->
  exists w1 a, c w = (w1, Ok a) /\ k a w1 = (w', Ok b).
Proof.
  unfold io_bind; destruct (c w) as [w1 [a|e]]; intros H; [|discriminate].
  exists w1, a; split; [reflexivity | exact H].
Qed.

Lemma quiet_ret {A : Type} (a : A) : quiet (io_ret a).
Proof. intros w; exists []; rewrite app_nil_r; repeat split. Qed.

Lemma quiet_raise {A : Type} (e : exn) : quiet (@io_raise A e).
Proof. intros w; exists []; rewrite app_nil_r; repeat split. Qed.

Lemma quiet_lift {A : Type} (r : result A) : quiet (lift r).
Proof. intros w; exists []; rewrite app_nil_r; repeat split. Qed.

Lemma quiet_emit (o : output) :
  is_difference_figure o = false -> is_statmin o = false -> quiet (emit o).
Proof.
  intros H1 H2 w; exists [o]; simpl; rewrite H1, H2; repeat split.
Qed.

Lemma quiet_bind {A B : Type} (c : io A) (k : A -> io B) :
  quiet c -> (forall a, quiet (k a)) -> quiet (io_bind c k).
Proof.
  intros Hc Hk w; destruct (Hc w) as (d1 & E1 & D1 & S1).
  unfold io_bind; destruct (c w) as [w1 [a|e]]; simpl in E1; subst w1.
  - destruct (Hk a (w ++ d1)%list) as (d2 & E2 & D2 & S2).
    exists (d1 ++ d2)%list; rewrite E2, app_assoc, !existsb_app, D1, D2, S1, S2.
    repeat split.
  - exists d1; repeat split; assumption.
Qed.

(** What a quiet computation leaves in the log stays there, and it adds
    none of the difference outputs. *)
Lemma quiet_log {A : Type} (c : io A) (w : list output) :
  quiet c ->
  existsb is_difference_figure (fst (c w)) = existsb is_difference_figure w /\
  existsb is_statmin (fst (c w)) = existsb is_statmin w.
Proof.
  intros Hc; destruct (Hc w) as (d & -> & D & S).
  rewrite !existsb_app, D, S, !orb_false_r; split; reflexivity.
Qed.

Lemma emits_ret {A : Type} (a : A) : emits (io_ret a) a [].
Proof. intros w; unfold io_ret; rewrite app_nil_r; reflexivity. Qed.

Lemma emits_lift {A : Type} (a : A) : emits (lift (Ok a)) a [].
Proof. intros w; unfold lift; rewrite app_nil_r; reflexivity. Qed.

Lemma emits_emit (o : output) : emits (emit o) tt [o].
Proof. intros w; reflexivity. Qed.

Lemma emits_bind {A B : Type} (c : io A) (k : A -> io B) (a : A) (b : B)
      (w1 w2 : list output) :
  emits c a w1 -> emits (k a) b w2 -> emits (io_bind c k) b (w1 ++ w2).
Proof.
  intros H1 H2 w; unfold io_bind.
  rewrite H1, H2, app_assoc; reflexivity.
Qed.

(** A power of Python floats raises [ZeroDivisionError] only for a zero
    base with a negative exponent. *)
Lemma pypow_outcome (x y : R) :
  (x = 0 -> 0 <= y) ->
  returns (pypow x y) \/ pypow x y = Raise TypeError.
Proof.
  intros Hz; unfold pypow.
  destruct (Rlt_dec 0 x); [left; eexists; reflexivity|].
  destruct (Req_dec_T x 0) as [E|_].
  - specialize (Hz E).
    destruct (Rlt_dec 0 y); [left; eexists; reflexivity|].
    destruct (Req_dec_T y 0); [left; eexists; reflexivity | lra].
  - destruct (is_integral y); [left; eexists; reflexivity | right; reflexivity].
Qed.

Lemma rsup_outcome (p : theory) :
  xieut p <> 0 -> k_fe p <> 1 -> (xi0l p = 0 -> k_fe p < 1) ->
  returns (rsup p) \/ rsup p = Raise TypeError.
Proof.
  intros He Hk Hl; unfold rsup.
  rewrite pydiv_ok by exact He; cbn [bind].
  rewrite pydiv_ok by lra; cbn [bind].
  destruct (pypow_outcome (xi0l p / xieut p) (1 / (1 - k_fe p)))
    as [[frac ->]| ->]; [| |right; reflexivity].
  - intros Hq.
    assert (xi0l p = 0).
    { apply (Rmult_eq_compat_r (xieut p)) in Hq.
      unfold Rdiv in Hq; rewrite Rmult_assoc, Rinv_l, Rmult_1_r, Rmult_0_l in Hq
        by exact He.
      exact Hq. }
    specialize (Hl H).
    apply Rlt_le, Rdiv_lt_0_compat; lra.
  - cbn [bind]; apply pypow_outcome; intros _; lra.
Qed.

Lemma rsup_division_error (p : theory) :
  xieut p = 0 \/ k_fe p = 1 -> rsup p = Raise ZeroDivisionError.
Proof.
  intros Hz; unfold rsup.
  destruct (Req_dec_T (xieut p) 0) as [E0|N0].
  - rewrite E0, pydiv_zero; reflexivity.
  - rewrite pydiv_ok by exact N0; cbn [bind].
    destruct Hz as [Hz|Hz]; [contradiction|].
    rewrite Hz; replace (1 - 1) with 0 by ring.
    rewrite pydiv_zero; reflexivity.
Qed.

Lemma rsup_computed_passes (p : theory) :
  xieut p <> 0 -> k_fe p <> 1 -> (xi0l p = 0 -> k_fe p < 1) ->
  rsup_computed p = io_ret tt.
Proof.
  intros He Hk Hl; unfold rsup_computed.
  destruct (rsup_outcome p He Hk Hl) as [[v ->]| ->]; reflexivity.
Qed.

Lemma quiet_rsup_computed (p : theory) : quiet (rsup_computed p).
Proof.
  unfold rsup_computed.
  destruct (rsup p) as [v|[]]; first [apply quiet_ret | apply quiet_raise].
Qed.

Section CommandProperties.

Variable RPROF_VAR_LIST : ascii -> Varr.
Variable timestep : Z * Z * Z.
Variable nml : par_nml.
Variable tsteps : ndarray2.
Variable profiles_work : string -> namespace -> result unit.
Variable difference_work : string -> namespace -> result Z.
Variable averaged_work : string -> namespace -> result unit.

(** What the command needs of the table [constants.RPROF_VAR_LIST]:
    the entries of the temperature and of the concentration. *)
Hypothesis var_t :
  name (RPROF_VAR_LIST "t") = "Temperature"%string /\
  arg (RPROF_VAR_LIST "t") = "plot_temperature"%string.
Hypothesis var_c :
  name (RPROF_VAR_LIST "c") = "Concentration"%string /\
  arg (RPROF_VAR_LIST "c") = "plot_concentration"%string.

(** *** No call of the plot functions writes a difference output *)

Lemma plotprofiles_quiet (quant0 : string) (args : namespace) :
  quiet (plotprofiles timestep profiles_work difference_work quant0 args).
Proof.
  clear var_t var_c; unfold plotprofiles.
  apply quiet_bind; [apply quiet_lift | intros _].
  apply quiet_bind; [apply quiet_emit; reflexivity | intros _].
  destruct (args "plot_difference"%string); [|apply quiet_ret].
  destruct (String.eqb quant0 "Concentration");
    [apply quiet_bind; [apply quiet_lift | intros; apply quiet_ret]|].
  destruct (String.eqb quant0 "Temperature");
    [apply quiet_bind; [apply quiet_lift | intros; apply quiet_ret]|].
  apply quiet_ret.
Qed.

Lemma when_quiet (b : bool) (c : io plot_result) :
  quiet c -> quiet (when b c).
Proof.
  intros H; unfold when; destruct b; [|apply quiet_ret].
  apply quiet_bind; [exact H | intros; apply quiet_ret].
Qed.

Lemma average_pass_quiet (args : namespace) (var : ascii) :
  quiet (average_pass RPROF_VAR_LIST averaged_work args var).
Proof.
  clear var_t var_c; unfold average_pass, plotaveragedprofiles.
  destruct (negb _); [apply quiet_ret|].
  apply quiet_bind; [apply quiet_lift | intros _].
  apply quiet_emit; reflexivity.
Qed.

Lemma profile_pass_quiet (args : namespace) (loc : locals) (var : ascii) :
  quiet (profile_pass RPROF_VAR_LIST timestep profiles_work
     difference_work args loc var).
Proof.
  clear var_t var_c; unfold profile_pass.
  destruct (negb _); [apply quiet_ret|].
  apply quiet_bind; [apply plotprofiles_quiet | intros out].
  apply quiet_bind.
  - destruct (_ && _); [|apply quiet_ret].
    destruct out; first [apply quiet_ret | apply quiet_raise].
  - intros loc'; destruct (_ && _); [|apply quiet_ret].
    destruct out; first [apply quiet_ret | apply quiet_raise].
Qed.

Lemma for_each_quiet {St V : Type} (body : St -> V -> io St) (vs : list V) :
  (forall s v, quiet (body s v)) -> forall s, quiet (for_each body s vs).
Proof.
  intros Hbody; induction vs as [|v vs IH]; intros s; cbn [for_each].
  - apply quiet_ret.
  - apply quiet_bind; [apply Hbody | exact IH].
Qed.

Lemma trailing_plots_quiet (args : namespace) :
  quiet (trailing_plots timestep nml profiles_work difference_work args).
Proof.
  clear var_t var_c; unfold trailing_plots.
  apply quiet_bind; [apply when_quiet, plotprofiles_quiet | intros _].
  apply quiet_bind; [apply when_quiet, plotprofiles_quiet | intros _].
  apply quiet_bind; [|intros _; apply when_quiet, plotprofiles_quiet].
  apply when_quiet, quiet_bind; [apply plotprofiles_quiet | intros _].
  destruct (geometry_spherical nml);
    [apply plotprofiles_quiet | apply quiet_ret].
Qed.

Lemma difference_block_skipped (args : namespace) (loc : locals) :
  args "plot_difference"%string = false ->
  difference_block tsteps args loc = io_ret tt.
Proof. intros H; unfold difference_block; rewrite H; reflexivity. Qed.

(** When the difference block runs to its end it has saved the figure
    and opened [statmin.dat]. *)
Lemma difference_block_done (args : namespace) (loc : locals)
      (w w' : list output) :
  args "plot_difference"%string = true ->
  difference_block tsteps args loc w = (w', Ok tt) ->
  exists file, w' = ((w ++ [DifferenceFigure file]) ++ [StatminFile])%list.
Proof.
  intros Hpd; unfold difference_block; rewrite Hpd.
  destruct (l_timename loc) as [name|]; [|discriminate].
  unfold io_bind at 1, emit at 1.
  unfold io_bind at 1, emit at 1.
  intros H; eexists.
  destruct (l_imint loc) as [imint|]; [|discriminate].
  unfold io_bind at 1, lift at 1 in H.
  destruct (getcell tsteps imint 2); [|discriminate].
  destruct (l_iminc loc) as [iminc|]; [|discriminate].
  unfold io_bind at 1, lift at 1 in H.
  destruct (getcell tsteps iminc 2); [|discriminate].
  injection H as <-; reflexivity.
Qed.

(** *** When nothing raises *)

Lemma plotprofiles_returns (quant0 : string) (args : namespace) :
  nothing_raises nml tsteps profiles_work difference_work averaged_work args ->
  exists out d,
    emits (plotprofiles timestep profiles_work difference_work quant0 args) out d /\
    (args "plot_difference"%string = true ->
     (quant0 = "Temperature"%string ->
      exists i, out = TempResult i (tn timestep) /\
                place_of difference_work quant0 args = Some i) /\
     (quant0 = "Concentration"%string ->
      exists i, out = ConcResult i (tn timestep) /\
                place_of difference_work quant0 args = Some i)).
Proof.
  clear var_t var_c; intros (_ & Hwork & _ & Hdiff); unfold plotprofiles.
  destruct (Hwork quant0) as [[] Ew]; rewrite Ew.
  destruct (Hdiff quant0) as (i & Ei & _).
  unfold place_of; rewrite Ei.
  destruct (args "plot_difference"%string).
  - destruct (String.eqb_spec quant0 "Concentration") as [->|Hc].
    + do 2 eexists; split.
      * eapply emits_bind; [apply emits_lift|].
        eapply emits_bind; [apply emits_emit|].
        eapply emits_bind; [apply emits_lift | apply emits_ret].
      * intros _; split; [discriminate | intros _; exists i; split; reflexivity].
    + destruct (String.eqb_spec quant0 "Temperature") as [->|Ht].
      * do 2 eexists; split.
        -- eapply emits_bind; [apply emits_lift|].
           eapply emits_bind; [apply emits_emit|].
           eapply emits_bind; [apply emits_lift | apply emits_ret].
        -- intros _; split; [intros _; exists i; split; reflexivity | discriminate].
      * do 2 eexists; split.
        -- eapply emits_bind; [apply emits_lift|].
           eapply emits_bind; [apply emits_emit | apply emits_ret].
        -- intros _; split; intros; contradiction.
  - do 2 eexists; split.
    + eapply emits_bind; [apply emits_lift|].
      eapply emits_bind; [apply emits_emit | apply emits_ret].
    + discriminate.
Qed.

Lemma when_returns (b : bool) (c : io plot_result) :
  (exists out d, emits c out d) -> exists d, emits (when b c) tt d.
Proof.
  intros (out & d & H); unfold when; destruct b.
  - eexists; eapply emits_bind; [exact H | apply emits_ret].
  - eexists; apply emits_ret.
Qed.

Lemma profile_pass_returns (args : namespace) (loc : locals) (var : ascii) :
  nothing_raises nml tsteps profiles_work difference_work averaged_work args ->
  In var ["t"; "v"; "u"; "n"; "c"]%char ->
  exists d,
    emits (profile_pass RPROF_VAR_LIST timestep profiles_work
     difference_work args loc var)
          (locals_after RPROF_VAR_LIST timestep difference_work args loc var) d.
Proof.
  intros Hnr Hvar; unfold profile_pass, locals_after.
  destruct (args (arg (RPROF_VAR_LIST var))) eqn:Harg; cbn [negb andb];
    [|eexists; apply emits_ret].
  destruct (plotprofiles_returns (name (RPROF_VAR_LIST var)) args Hnr)
    as (out & d & Hout & Hkind).
  destruct (args "plot_difference"%string) eqn:Hd.
  - destruct (Hkind eq_refl) as [Ht Hc].
    simpl in Hvar.
    destruct Hvar as [<-|[<-|[<-|[<-|[<-|[]]]]]]; cbn [Ascii.eqb Bool.eqb andb].
    + destruct var_t as [Hn _]; rewrite Hn in *.
      destruct (Ht eq_refl) as (i & -> & ->).
      eexists; eapply emits_bind; [exact Hout|].
      eapply emits_bind; apply emits_ret.
    + eexists; eapply emits_bind; [exact Hout|].
      eapply emits_bind; apply emits_ret.
    + eexists; eapply emits_bind; [exact Hout|].
      eapply emits_bind; apply emits_ret.
    + eexists; eapply emits_bind; [exact Hout|].
      eapply emits_bind; apply emits_ret.
    + destruct var_c as [Hn _]; rewrite Hn in *.
      destruct (Hc eq_refl) as (i & -> & ->).
      eexists; eapply emits_bind; [exact Hout|].
      eapply emits_bind; apply emits_ret.
  - rewrite !andb_false_r.
    eexists; eapply emits_bind; [exact Hout|].
    eapply emits_bind; apply emits_ret.
Qed.

Lemma average_pass_returns (args : namespace) (var : ascii) :
  nothing_raises nml tsteps profiles_work difference_work averaged_work args ->
  exists d, emits (average_pass RPROF_VAR_LIST averaged_work args var) tt d.
Proof.
  clear var_t var_c; intros (_ & _ & Hav & _).
  unfold average_pass, plotaveragedprofiles.
  destruct (negb _); [eexists; apply emits_ret|].
  destruct (Hav (name (RPROF_VAR_LIST var))) as [[] E]; rewrite E.
  eexists; eapply emits_bind; [apply emits_lift | apply emits_emit].
Qed.

Lemma for_each_returns {St V : Type} (body : St -> V -> io St)
      (f : St -> V -> St) (vs : list V) :
  (forall s v, In v vs -> exists d, emits (body s v) (f s v) d) ->
  forall s, exists d, emits (for_each body s vs) (fold_left f vs s) d.
Proof.
  induction vs as [|v vs IH]; intros Hbody s; cbn [for_each fold_left].
  - eexists; apply emits_ret.
  - destruct (Hbody s v (or_introl eq_refl)) as [d1 H1].
    destruct (IH (fun s' v' Hin => Hbody s' v' (or_intror Hin)) (f s v))
      as [d2 H2].
    eexists; eapply emits_bind; [exact H1 | exact H2].
Qed.

Lemma trailing_plots_returns (args : namespace) :
  nothing_raises nml tsteps profiles_work difference_work averaged_work args ->
  exists d, emits (trailing_plots timestep nml profiles_work difference_work args) tt d.
Proof.
  clear var_t var_c; intros Hnr; unfold trailing_plots.
  assert (Hp : forall q, exists out d, emits (plotprofiles timestep profiles_work difference_work q args) out d).
  { intros q; destruct (plotprofiles_returns q args Hnr) as (out & d & H & _).
    exists out, d; exact H. }
  destruct (when_returns (args "plot_grid"%string) _ (Hp "Grid"%string))
    as [d1 H1].
  destruct (when_returns (args "plot_grid_units"%string) _
                         (Hp "Grid km"%string)) as [d2 H2].
  destruct (when_returns (args "plot_energy"%string) _ (Hp "Energy"%string))
    as [d4 H4].
  assert (H3 : exists d, emits
            (when (args "plot_advection"%string)
               (io_bind (plotprofiles timestep profiles_work difference_work "Advection per unit surface" args)
                  (fun _ => if geometry_spherical nml
                            then (plotprofiles timestep profiles_work difference_work) "Total scaled advection" args
                            else io_ret NoResult))) tt d).
  { apply when_returns.
    destruct (Hp "Advection per unit surface"%string) as (o1 & e1 & G1).
    destruct (geometry_spherical nml).
    - destruct (Hp "Total scaled advection"%string) as (o2 & e2 & G2).
      do 2 eexists; eapply emits_bind; [exact G1 | exact G2].
    - do 2 eexists; eapply emits_bind; [exact G1 | apply emits_ret]. }
  destruct H3 as [d3 H3].
  eexists; eapply emits_bind; [exact H1|].
  eapply emits_bind; [exact H2|].
  eapply emits_bind; [exact H3 | exact H4].
Qed.

(** The first loop leaves [timename], [imint], [sigma] and [iminc] bound
    exactly when the difference is tracked and both the temperature and
    the concentration are plotted. *)
Lemma locals_of_first_loop (args : namespace) :
  fold_left (locals_after RPROF_VAR_LIST timestep difference_work args)
            ["t"; "v"; "u"; "n"; "c"]%char (mk_locals None None None) =
  if args "plot_difference"%string then
    mk_locals
      (if args "plot_temperature"%string || args "plot_concentration"%string
       then Some (tn timestep) else None)
      (if args "plot_temperature"%string
       then place_of difference_work "Temperature" args else None)
      (if args "plot_concentration"%string
       then place_of difference_work "Concentration" args else None)
  else mk_locals None None None.
Proof.
  destruct var_t as [_ Ht], var_c as [_ Hc].
  cbn [fold_left]; unfold locals_after; rewrite Ht, Hc.
  cbn [Ascii.eqb Bool.eqb].
  destruct (args "plot_difference"%string);
    [|rewrite !andb_false_r; reflexivity].
  rewrite !andb_true_r.
  destruct (args "plot_temperature"%string),
           (args "plot_concentration"%string),
           (args (arg (RPROF_VAR_LIST "v"))),
           (args (arg (RPROF_VAR_LIST "u"))),
           (args (arg (RPROF_VAR_LIST "n"))); reflexivity.
Qed.

Lemma gate_difference (args0 : namespace) :
  gate args0 "plot_difference"%string =
  args0 "plot_difference"%string &&
  (args0 "plot_conctheo"%string && args0 "plot_temperature"%string &&
   args0 "plot_concentration"%string).
Proof.
  unfold gate, setattr.
  destruct (args0 "plot_conctheo"%string),
           (args0 "plot_temperature"%string),
           (args0 "plot_concentration"%string); cbn;
    rewrite ?andb_true_r, ?andb_false_r; reflexivity.
Qed.

Lemma gate_other (args0 : namespace) (k : string) :
  k <> "plot_difference"%string -> gate args0 k = args0 k.
Proof.
  intros Hk; unfold gate, setattr.
  destruct (negb _); [|reflexivity].
  destruct (String.eqb_spec k "plot_difference"); [contradiction | reflexivity].
Qed.

(** The part of the command before the difference block. *)
Lemma before_difference_quiet (args : namespace) :
  quiet (io_bind (if args "plot_conctheo"%string
                  then io_bind (rsup_computed (theory_of nml))
                         (fun _ => emit (Stdout "rmin, rmax, rsup="))
                  else io_ret tt)
           (fun _ => for_each (profile_pass RPROF_VAR_LIST timestep profiles_work
     difference_work args)
                       (mk_locals None None None)
                       ["t"; "v"; "u"; "n"; "c"]%char)).
Proof.
  clear var_t var_c.
  apply quiet_bind.
  - destruct (args "plot_conctheo"%string); [|apply quiet_ret].
    apply quiet_bind; [apply quiet_rsup_computed | intros _].
    apply quiet_emit; reflexivity.
  - intros _; apply for_each_quiet; intros; apply profile_pass_quiet.
Qed.

(** Whatever happens, the command writes a difference output only with
    [plot_difference] in force; and when it returns, it returns the
    options of lines 392-394 and, with [plot_difference] in force, has
    written both. *)
Lemma command_outcome (args0 : namespace) (outs : list output)
      (r : result namespace) :
  run (rprof_cmd RPROF_VAR_LIST timestep nml tsteps profiles_work
     difference_work averaged_work args0) = (outs, r) ->
  (gate args0 "plot_difference"%string = false ->
   existsb is_difference_figure outs = false /\
   existsb is_statmin outs = false) /\
  (forall args, r = Ok args ->
     args = gate args0 /\
     (gate args0 "plot_difference"%string = true ->
      existsb is_difference_figure outs = true /\
      existsb is_statmin outs = true)).
Proof.
  clear var_t var_c; unfold run, rprof_cmd.
  set (args := gate args0).
  set (pre := if args "plot_conctheo"%string then _ else _).
  intros H; split.
  - intros Hpd.
    assert (Q : quiet (rprof_cmd RPROF_VAR_LIST timestep nml tsteps profiles_work
     difference_work averaged_work args0)).
    { unfold rprof_cmd; fold args; fold pre.
      apply quiet_bind.
      { destruct (args "plot_conctheo"%string); [|apply quiet_ret].
        apply quiet_bind; [apply quiet_rsup_computed | intros _].
        apply quiet_emit; reflexivity. }
      intros _; apply quiet_bind;
        [apply for_each_quiet; intros; apply profile_pass_quiet | intros loc].
      apply quiet_bind;
        [apply for_each_quiet; intros; apply average_pass_quiet | intros _].
      apply quiet_bind;
        [rewrite difference_block_skipped by exact Hpd; apply quiet_ret
        | intros _].
      apply quiet_bind; [apply trailing_plots_quiet | intros; apply quiet_ret]. }
    destruct (quiet_log _ [] Q) as [D S].
    unfold rprof_cmd in D, S; fold args in D, S; fold pre in D, S.
    rewrite H in D, S; simpl in D, S; split; assumption.
  - intros a ->.
    apply io_bind_ok in H; destruct H as (w1 & [] & _ & H).
    apply io_bind_ok in H; destruct H as (w2 & loc & _ & H).
    apply io_bind_ok in H; destruct H as (w3 & [] & _ & H).
    apply io_bind_ok in H; destruct H as (w4 & [] & Hdb & H).
    apply io_bind_ok in H; destruct H as (w5 & [] & Htr & H).
    unfold io_ret in H; injection H as <- <-.
    split; [reflexivity|].
    intros Hpd.
    destruct (difference_block_done args loc w3 w4 Hpd Hdb) as [file ->].
    destruct (quiet_log _ ((w3 ++ [DifferenceFigure file]) ++ [StatminFile])%list
                        (trailing_plots_quiet args)) as [D S].
    rewrite Htr in D, S; simpl in D, S.
    rewrite D, S, !existsb_app; simpl.
    rewrite !orb_true_r; split; reflexivity.
Qed.

(** When nothing raises the command returns. *)
Lemma command_returns (args0 : namespace) :
  nothing_raises nml tsteps profiles_work difference_work averaged_work
                 (gate args0) ->
  exists outs, run (rprof_cmd RPROF_VAR_LIST timestep nml tsteps profiles_work
     difference_work averaged_work args0) = (outs, Ok (gate args0)).
Proof.
  intros Hnr; unfold rprof_cmd.
  set (args := gate args0) in *.
  assert (E : exists d, emits (rprof_cmd RPROF_VAR_LIST timestep nml tsteps profiles_work
     difference_work averaged_work args0) args d).
  { unfold rprof_cmd; fold args.
    assert (H1 : exists d, emits
              (if args "plot_conctheo"%string
               then io_bind (rsup_computed (theory_of nml))
                      (fun _ => emit (Stdout "rmin, rmax, rsup="))
               else io_ret tt) tt d).
    { destruct (args "plot_conctheo"%string) eqn:Hc;
        [|eexists; apply emits_ret].
      destruct Hnr as (Hr & _); destruct (Hr Hc) as (He & Hk & Hl).
      rewrite rsup_computed_passes by assumption.
      eexists; eapply emits_bind; [apply emits_ret | apply emits_emit]. }
    destruct H1 as [d1 H1].
    destruct (for_each_returns (profile_pass RPROF_VAR_LIST timestep profiles_work
     difference_work args)
                (locals_after RPROF_VAR_LIST timestep difference_work args)
                ["t"; "v"; "u"; "n"; "c"]%char
                (fun s v Hin => profile_pass_returns args s v Hnr Hin)
                (mk_locals None None None)) as [d2 H2].
    destruct (for_each_returns (fun _ v => (average_pass RPROF_VAR_LIST averaged_work) args v)
                (fun _ _ => tt) ["t"; "v"; "u"; "n"]%char
                (fun s v _ => average_pass_returns args v Hnr) tt)
      as [d3 H3].
    destruct (trailing_plots_returns args Hnr) as [d5 H5].
    assert (H4 : exists d, emits
              (difference_block tsteps args
                 (fold_left
                    (locals_after RPROF_VAR_LIST timestep difference_work args)
                    ["t"; "v"; "u"; "n"; "c"]%char (mk_locals None None None)))
              tt d).
    { rewrite locals_of_first_loop.
      unfold difference_block.
      destruct (args "plot_difference"%string) eqn:Hpd;
        [|eexists; apply emits_ret].
      unfold args in Hpd; rewrite gate_difference in Hpd.
      apply andb_prop in Hpd; destruct Hpd as [_ Hpd].
      apply andb_prop in Hpd; destruct Hpd as [Hpd Hcc].
      apply andb_prop in Hpd; destruct Hpd as [_ Htt].
      unfold args; rewrite !gate_other by discriminate.
      rewrite Htt, Hcc; fold args.
      cbn [orb l_timename l_imint l_iminc].
      destruct Hnr as (_ & _ & _ & Hdiff).
      destruct (Hdiff "Temperature"%string) as (it & Eit & [vt Evt]).
      destruct (Hdiff "Concentration"%string) as (ic & Eic & [vc Evc]).
      unfold place_of; rewrite Eit, Eic, Evt, Evc.
      eexists; eapply emits_bind; [apply emits_emit|].
      eapply emits_bind; [apply emits_emit|].
      eapply emits_bind; [apply emits_lift|].
      eapply emits_bind; [apply emits_lift | apply emits_ret]. }
    destruct H4 as [d4 H4].
    eexists; eapply emits_bind; [exact H1|].
    eapply emits_bind; [exact H2|].
    eapply emits_bind; [exact H3|].
    eapply emits_bind; [exact H4|].
    eapply emits_bind; [exact H5 | apply emits_ret]. }
  destruct E as [d E]; exists ([] ++ d)%list; unfold run.
  unfold rprof_cmd in E; fold args in E; apply E.
Qed.

(** C10, as the code has it.  The difference figure and [statmin.dat]
    are written only when [plot_difference] is set together with
    [plot_conctheo], [plot_temperature] and [plot_concentration]:
    otherwise neither is written, however the run ends, and
    [plot_difference] comes back false.  A run that returns has written
    both exactly when the four options are set, and the command does
    return when no step of it raises.  It can end early instead: with
    [plot_conctheo] set, a zero eutectic concentration or a partition
    coefficient of 1 ends it with [ZeroDivisionError] before anything is
    printed or saved. *)
Theorem difference_outputs (args0 : namespace) :
  let wanted :=
    args0 "plot_difference"%string &&
    (args0 "plot_conctheo"%string && args0 "plot_temperature"%string &&
     args0 "plot_concentration"%string) in
  (forall outs r,
     run (rprof_cmd RPROF_VAR_LIST timestep nml tsteps profiles_work
            difference_work averaged_work args0) = (outs, r) ->
     (wanted = false ->
      existsb is_difference_figure outs = false /\
      existsb is_statmin outs = false) /\
     (forall args, r = Ok args ->
        args "plot_difference"%string = wanted /\
        existsb is_difference_figure outs = wanted /\
        existsb is_statmin outs = wanted)) /\
  (nothing_raises nml tsteps profiles_work difference_work averaged_work
                  (gate args0) ->
   exists outs args,
     run (rprof_cmd RPROF_VAR_LIST timestep nml tsteps profiles_work
            difference_work averaged_work args0) = (outs, Ok args) /\
     args "plot_difference"%string = wanted /\
     existsb is_difference_figure outs = wanted /\
     existsb is_statmin outs = wanted) /\
  (args0 "plot_conctheo"%string = true ->
   tracersin_fe_eut nml = 0 \/ tracersin_k_fe nml = 1 ->
   run (rprof_cmd RPROF_VAR_LIST timestep nml tsteps profiles_work
          difference_work averaged_work args0)
   = ([], Raise ZeroDivisionError)).
Proof.
  intros wanted.
  assert (Hw : gate args0 "plot_difference"%string = wanted)
    by apply gate_difference.
  assert (Hrun : forall outs r,
     run (rprof_cmd RPROF_VAR_LIST timestep nml tsteps profiles_work
            difference_work averaged_work args0) = (outs, r) ->
     (wanted = false ->
      existsb is_difference_figure outs = false /\
      existsb is_statmin outs = false) /\
     (forall args, r = Ok args ->
        args "plot_difference"%string = wanted /\
        existsb is_difference_figure outs = wanted /\
        existsb is_statmin outs = wanted)).
  { intros outs r H.
    destruct (command_outcome args0 outs r H) as [Hoff Hon].
    rewrite Hw in Hoff, Hon.
    split; [exact Hoff|].
    intros args Hr; destruct (Hon args Hr) as [-> Hboth].
    split; [exact Hw|].
    destruct wanted; [apply Hboth; reflexivity | apply Hoff; reflexivity]. }
  split; [exact Hrun|]. split.
  - intros Hnr.
    destruct (command_returns args0 Hnr) as [outs H].
    exists outs, (gate args0); split; [exact H|].
    destruct (Hrun outs _ H) as [_ Hon]; apply Hon; reflexivity.
  - intros Hc Hz; unfold run, rprof_cmd.
    rewrite gate_other by discriminate; rewrite Hc.
    unfold rsup_computed.
    rewrite rsup_division_error by exact Hz; reflexivity.
Qed.

End CommandProperties.

(** In the calm run nothing raises, whatever the options. *)
Lemma nothing_raises_calm (args : namespace) :
  nothing_raises half_partition_nml one_timestep work_done least_at_start
                 work_done args.
Proof.
  unfold nothing_raises; repeat split.
  - simpl; lra.
  - simpl; lra.
  - simpl; lra.
  - intros q; exists tt; reflexivity.
  - intros q; exists tt; reflexivity.
  - intros q; exists 0%Z; split; [reflexivity|].
    exists 0; reflexivity.
Qed.

Lemma difference_outputs_witness :
  exists outs args,
    run (rprof_cmd stagpy_var_list (0, 100, 1)%Z half_partition_nml
           one_timestep work_done least_at_start work_done
           (flags ["plot_difference"; "plot_conctheo"; "plot_temperature";
                   "plot_concentration"]%string)) = (outs, Ok args) /\
    args "plot_difference"%string = true /\
    existsb is_difference_figure outs = true /\
    existsb is_statmin outs = true.
Proof.
  destruct (difference_outputs stagpy_var_list (0, 100, 1)%Z
              half_partition_nml one_timestep work_done least_at_start
              work_done (conj eq_refl eq_refl) (conj eq_refl eq_refl)
              (flags ["plot_difference"; "plot_conctheo"; "plot_temperature";
                      "plot_concentration"]%string)) as (_ & Hret & _).
  apply Hret, nothing_raises_calm.
Defined.

(** C10, as stated, fails when the computation of [rsup] raises: with
    the four options set and a partition coefficient of 1 the command
    ends with [ZeroDivisionError] before anything is printed or saved,
    and neither difference output is produced. *)
Lemma difference_outputs_need_rsup :
  flags ["plot_difference"; "plot_conctheo"; "plot_temperature";
         "plot_concentration"]%string "plot_difference"%string &&
  (flags ["plot_difference"; "plot_conctheo"; "plot_temperature";
          "plot_concentration"]%string "plot_conctheo"%string &&
   flags ["plot_difference"; "plot_conctheo"; "plot_temperature";
          "plot_concentration"]%string "plot_temperature"%string &&
   flags ["plot_difference"; "plot_conctheo"; "plot_temperature";
          "plot_concentration"]%string "plot_concentration"%string) = true /\
  run (rprof_cmd stagpy_var_list (0, 100, 1)%Z unit_partition_nml
         one_timestep work_done least_at_start work_done
         (flags ["plot_difference"; "plot_conctheo"; "plot_temperature";
                 "plot_concentration"]%string))
  = ([], Raise ZeroDivisionError).
Proof.
  split; [reflexivity|].
  assert (E : rsup_computed (theory_of unit_partition_nml)
              = io_raise ZeroDivisionError).
  { unfold rsup_computed.
    rewrite rsup_division_error by (right; reflexivity); reflexivity. }
  unfold run, rprof_cmd.
  change (gate (flags ["plot_difference"; "plot_conctheo"; "plot_temperature";
                       "plot_concentration"]%string) "plot_conctheo"%string)
    with true.
  cbv iota; rewrite E; reflexivity.
Qed.

(** The same command line without [plot_temperature], in the calm run:
    the figure of the concentration apart, nothing is written. *)
Example difference_dropped_silently :
  fst (run (rprof_cmd stagpy_var_list (0, 100, 1)%Z half_partition_nml
              one_timestep work_done least_at_start work_done
              (flags ["plot_difference"; "plot_conctheo";
                      "plot_concentration"]%string))) =
  [Stdout "rmin, rmax, rsup="; ProfileFigure "Concentration0_99_1.pdf"].
Proof.
  assert (E : rsup_computed (theory_of half_partition_nml) = io_ret tt)
    by (apply rsup_computed_passes; simpl; lra).
  unfold run, rprof_cmd.
  change (gate (flags ["plot_difference"; "plot_conctheo";
                       "plot_concentration"]%string) "plot_conctheo"%string)
    with true.
  cbv iota; rewrite E; reflexivity.
Qed.


(** ** Theoretical initial profile *)

Lemma pypow_positive (x y : R) : 0 < x -> pypow x y = Ok (Rpower x y).
Proof.
  intros H; unfold pypow; destruct (Rlt_dec 0 x); [reflexivity | contradiction].
Qed.

Lemma Rpower_positive (x y : R) : 0 < Rpower x y.
Proof. unfold Rpower; apply exp_pos. Qed.

Lemma cube_of_cube_root (x : R) : 0 < x -> Rpower x (1 / 3) ^ 3 = x.
Proof.
  intros H.
  rewrite <- (Rpower_pow 3) by apply Rpower_positive.
  rewrite Rpower_mult.
  replace (1 / 3 * INR 3) with 1 by (simpl; field).
  apply Rpower_1; exact H.
Qed.

Lemma continuity_power (y u : R) :
  0 < u -> continuity_pt (fun x => Rpower x y) u.
Proof.
  intros Hu; apply derivable_continuous_pt.
  exists (y * Rpower u (y - 1)).
  apply derivable_pt_lim_power; exact Hu.
Qed.

Lemma continuity_shell_ratio (C M r0 : R) :
  M - r0 ^ 3 <> 0 -> continuity_pt (fun r => C / (M - r ^ 3)) r0.
Proof. intros H; reg. Qed.

(** A function continuous at a point has its value there as limit from
    the left. *)
Lemma left_limit_of_continuous (f : R -> R) (x0 : R) :
  continuity_pt f x0 -> limit1_in f (fun x => x < x0) (f x0) x0.
Proof.
  intros Hc eps Heps.
  destruct (Hc eps Heps) as (alp & Halp & Hlim).
  exists alp; split; [exact Halp|].
  intros x [Hx Hd]; apply Hlim; split; [|exact Hd].
  split; [exact I | lra].
Qed.

Lemma left_adherent (x0 : R) : adhDa (fun x => x < x0) x0.
Proof.
  intros alp Halp; exists (x0 - alp / 2); split; [lra|].
  unfold Rdist; rewrite Rabs_left; lra.
Qed.

Section Theory.

Variable p : theory.
Hypothesis xieut_pos : 0 < xieut p.
Hypothesis xi0l_pos : 0 < xi0l p.
Hypothesis k_fe_not_1 : k_fe p <> 1.
Hypothesis radii : rmin p < rmax p.
Hypothesis radicand_pos : 0 < radicand p.

Lemma rsup_value : rsup p = Ok (rsup_root p).
Proof.
  unfold rsup.
  rewrite pydiv_ok by lra; cbn [bind].
  rewrite pydiv_ok by lra; cbn [bind].
  rewrite pypow_positive by (apply Rdiv_lt_0_compat; assumption).
  cbn [bind].
  apply pypow_positive; exact radicand_pos.
Qed.

Lemma shell_below_rsup :
  rmax p ^ 3 - rsup_root p ^ 3 =
  Rpower (xi0l p / xieut p) (1 / (1 - k_fe p)) * (rmax p ^ 3 - rmin p ^ 3).
Proof.
  unfold rsup_root; rewrite cube_of_cube_root by exact radicand_pos.
  unfold radicand; ring.
Qed.

Lemma shell_positive : 0 < rmax p ^ 3 - rsup_root p ^ 3.
Proof.
  rewrite shell_below_rsup.
  apply Rmult_lt_0_compat; [apply Rpower_positive|].
  pose proof (cube_increasing _ _ radii); lra.
Qed.

Lemma powerlaw_below (r : R) :
  r < rsup_root p -> powerlaw p r = Ok (powerlaw_value p r).
Proof.
  intros Hr; unfold powerlaw, powerlaw_value.
  pose proof shell_positive as Hs.
  pose proof (cube_increasing _ _ Hr) as Hc.
  pose proof (cube_increasing _ _ radii) as Hshell.
  rewrite pydiv_ok by lra; cbn [bind].
  rewrite pypow_positive by (apply Rdiv_lt_0_compat; lra).
  reflexivity.
Qed.

Lemma powerlaw_at_rsup : powerlaw_value p (rsup_root p) = k_fe p * xieut p.
Proof.
  unfold powerlaw_value; rewrite shell_below_rsup.
  pose proof (cube_increasing _ _ radii) as Hshell.
  set (xired := xi0l p / xieut p).
  assert (Hx : 0 < xired) by (apply Rdiv_lt_0_compat; assumption).
  pose proof (Rpower_positive xired (1 / (1 - k_fe p))) as Hf.
  replace ((rmax p ^ 3 - rmin p ^ 3) /
           (Rpower xired (1 / (1 - k_fe p)) * (rmax p ^ 3 - rmin p ^ 3)))
    with (Rpower xired (- (1 / (1 - k_fe p))))
    by (rewrite Rpower_Ropp; field; lra).
  rewrite Rpower_mult.
  replace (- (1 / (1 - k_fe p)) * (1 - k_fe p)) with (- (1)) by (field; lra).
  rewrite Rpower_Ropp, Rpower_1 by exact Hx.
  unfold xi0s, xired; field; lra.
Qed.

Lemma powerlaw_left_limit :
  limit1_in (powerlaw_value p) (fun r => r < rsup_root p)
            (k_fe p * xieut p) (rsup_root p).
Proof.
  rewrite <- powerlaw_at_rsup.
  apply left_limit_of_continuous.
  pose proof shell_positive as Hs.
  pose proof (cube_increasing _ _ radii) as Hshell.
  set (C := rmax p ^ 3 - rmin p ^ 3) in *.
  set (g := fun r => C / (rmax p ^ 3 - r ^ 3)).
  set (h := fun u => Rpower u (1 - k_fe p)).
  assert (Hg : continuity_pt g (rsup_root p))
    by (apply continuity_shell_ratio; lra).
  assert (Hh : continuity_pt h (g (rsup_root p)))
    by (apply continuity_power; unfold g, C; apply Rdiv_lt_0_compat; lra).
  exact (continuity_pt_scal _ (xi0s p) _
           (continuity_pt_comp g h (rsup_root p) Hg Hh)).
Qed.

Lemma initprof_branches (r : R) :
  (r < rsup_root p -> initprof p r = Ok (powerlaw_value p r)) /\
  (rsup_root p <= r -> initprof p r = Ok (xieut p)).
Proof.
  unfold initprof; rewrite rsup_value; cbn [bind].
  split; intros Hr; destruct (Rlt_dec r (rsup_root p)); try lra.
  - apply powerlaw_below; assumption.
  - reflexivity.
Qed.

End Theory.

Lemma radicand_half_partition : radicand half_partition = 25 / 4.
Proof.
  unfold radicand, half_partition; cbn [xieut k_fe xi0l rmin rmax].
  replace (1 / (1 - 1 / 2)) with (INR 2) by (simpl; field).
  rewrite Rpower_pow by lra.
  field.
Qed.

(** C4, as the code has it.  With positive concentrations, [k_fe <> 1],
    [rmin < rmax] and a positive radicand, [rsup] is a real number;
    below it [initprof] is the power law, from it on the eutectic
    constant; and the limit of the power law at [rsup] from below is
    [k_fe * xieut], so that the profile jumps there by the factor
    [k_fe]. *)
Theorem initprof_jump_at_rsup (p : theory) :
  0 < xieut p -> 0 < xi0l p -> k_fe p <> 1 -> rmin p < rmax p ->
  0 < radicand p ->
  exists rs,
    rsup p = Ok rs /\
    (forall r, r < rs -> initprof p r = Ok (powerlaw_value p r)) /\
    (forall r, rs <= r -> initprof p r = Ok (xieut p)) /\
    limit1_in (powerlaw_value p) (fun r => r < rs) (k_fe p * xieut p) rs.
Proof.
  intros He Hl Hk Hr Hrad.
  exists (rsup_root p).
  split; [apply rsup_value; assumption|].
  split; [intros r; apply initprof_branches; assumption|].
  split; [intros r; apply initprof_branches; assumption|].
  apply powerlaw_left_limit; assumption.
Qed.

Lemma initprof_jump_at_rsup_witness :
  exists rs,
    rsup half_partition = Ok rs /\
    (forall r, r < rs ->
               initprof half_partition r = Ok (powerlaw_value half_partition r)) /\
    (forall r, rs <= r -> initprof half_partition r = Ok (xieut half_partition)) /\
    limit1_in (powerlaw_value half_partition) (fun r => r < rs)
              (k_fe half_partition * xieut half_partition) rs.
Proof.
  apply (initprof_jump_at_rsup half_partition);
    try (rewrite radicand_half_partition); simpl; lra.
Defined.

(** C4, as stated, fails for the constants [half_partition]: the limit
    from below at [rsup] is 1/2, and the eutectic constant is 1. *)
Lemma initprof_not_continuous :
  exists rs,
    rsup half_partition = Ok rs /\
    limit1_in (powerlaw_value half_partition) (fun r => r < rs) (1 / 2) rs /\
    ~ limit1_in (powerlaw_value half_partition) (fun r => r < rs)
                (xieut half_partition) rs.
Proof.
  assert (He : 0 < xieut half_partition) by (simpl; lra).
  assert (Hl : 0 < xi0l half_partition) by (simpl; lra).
  assert (Hk : k_fe half_partition <> 1) by (simpl; lra).
  assert (Hr : rmin half_partition < rmax half_partition) by (simpl; lra).
  assert (Hrad : 0 < radicand half_partition)
    by (rewrite radicand_half_partition; lra).
  exists (rsup_root half_partition).
  pose proof (powerlaw_left_limit half_partition He Hl Hk Hr Hrad) as Hlim.
  replace (k_fe half_partition * xieut half_partition) with (1 / 2) in Hlim
    by (simpl; lra).
  split; [apply rsup_value; assumption|].
  split; [exact Hlim|].
  intros Hclaim.
  pose proof (single_limit _ _ _ _ _ (left_adherent _) Hlim Hclaim) as Heq.
  simpl in Heq; lra.
Qed.

(** * Further properties of the helpers *)

(** ** [_extrap]: samples, straight lines, too few samples *)

(** The value left at one position obeys the linear law. *)
Lemma extrap_at_law (xs ys : list R) (x : R) :
  increasing xs -> length xs = length ys -> (2 <= length xs)%nat ->
  linear_law xs ys x (extrap_at xs ys x).
Proof.
  intros Hinc Hlen Hn.
  destruct xs as [|x0 xs']; [simpl in Hn; lia|].
  destruct ys as [|y0 ys']; [discriminate|].
  set (xs := x0 :: xs') in *; set (ys := y0 :: ys') in *.
  set (n := length xs) in *.
  assert (Hfirst : sample xs 0 < sample xs 1)
    by (apply increasing_nth_lt; [exact Hinc | lia | lia]).
  assert (Hlast : sample xs (n - 2) < sample xs (n - 1))
    by (apply increasing_nth_lt; [exact Hinc | lia | lia]).
  assert (Hspan : sample xs 0 <= sample xs (n - 1))
    by (apply increasing_nth_le; [exact Hinc | lia | lia]).
  unfold linear_law, extrap_at; fold n.
  repeat split.
  - intros i Hi [Hlo Hhi].
    assert (sample xs 0 <= sample xs i)
      by (apply increasing_nth_le; [exact Hinc | lia | lia]).
    assert (sample xs (i + 1) <= sample xs (n - 1))
      by (apply increasing_nth_le; [exact Hinc | lia | lia]).
    destruct (Rlt_dec (sample xs (n - 1)) x); [lra|].
    destruct (Rlt_dec x (sample xs 0)); [lra|].
    unfold interp1, xs at 1, ys at 1.
    replace (last xs x0) with (sample xs (n - 1))
      by (unfold sample, n; rewrite nth_last; unfold xs;
          rewrite !last_cons; reflexivity).
    destruct (Rlt_dec (sample xs (n - 1)) x); [lra|].
    destruct (Rlt_dec x x0); [unfold sample, xs in *; simpl in *; lra|].
    apply interp_scan_chord;
      [exact Hinc | injection Hlen; auto | exact Hi | split; assumption].
  - intros Hlow.
    destruct (Rlt_dec (sample xs (n - 1)) x); [lra|].
    destruct (Rlt_dec x (sample xs 0)); [|lra].
    unfold chord; field; lra.
  - intros Hhigh.
    destruct (Rlt_dec (sample xs (n - 1)) x); [|lra].
    unfold chord; field; lra.
Qed.

(** A position inside the range of increasing samples lies in one of
    their segments. *)
Lemma segment_exists (xs : list R) (x : R) :
  increasing xs -> (2 <= length xs)%nat ->
  sample xs 0 <= x <= sample xs (length xs - 1) ->
  exists i, (i + 1 < length xs)%nat /\ sample xs i <= x <= sample xs (i + 1).
Proof.
  induction xs as [|a xs IH]; intros Hinc Hn Hx; [simpl in Hn; lia|].
  destruct xs as [|b xs]; [simpl in Hn; lia|].
  destruct (Rle_dec x b) as [Hle|Hgt].
  - exists 0%nat; split; [simpl; lia|].
    unfold sample in *; simpl in *; lra.
  - destruct xs as [|c xs].
    + unfold sample in Hx; simpl in Hx; lra.
    + destruct IH as (i & Hi & Hseg).
      * exact (increasing_tail _ _ Hinc).
      * simpl; lia.
      * unfold sample in *; simpl in Hx |- *.
        replace (length xs - 0)%nat with (length xs) in Hx by lia.
        simpl. replace (length xs - 0)%nat with (length xs) by lia.
        split; [lra | tauto].
      * exists (S i); split; [simpl in Hi |- *; lia|].
        unfold sample in *; exact Hseg.
Qed.

Lemma extrap_at_sample (xs ys : list R) (i : nat) :
  increasing xs -> length xs = length ys -> (2 <= length xs)%nat ->
  (i < length xs)%nat -> extrap_at xs ys (sample xs i) = sample ys i.
Proof.
  intros Hinc Hlen Hn Hi.
  destruct (extrap_at_law xs ys (sample xs i) Hinc Hlen Hn) as (Hseg & _ & _).
  destruct (Nat.eq_dec (i + 1) (length xs)) as [Hend|Hmid].
  - assert (Hlt : sample xs (i - 1) < sample xs i)
      by (apply increasing_nth_lt; [exact Hinc | lia | lia]).
    rewrite (Hseg (i - 1)%nat).
    + replace (i - 1 + 1)%nat with i by lia.
      unfold chord; field; lra.
    + lia.
    + replace (i - 1 + 1)%nat with i by lia; lra.
  - assert (Hlt : sample xs i < sample xs (i + 1))
      by (apply increasing_nth_lt; [exact Hinc | lia | lia]).
    rewrite (Hseg i); [unfold chord; field; lra | lia | lra].
Qed.

(** X1. At the sample positions themselves [_extrap] gives back the
    sample values. *)
Theorem extrap_reproduces_samples (xs ys : list R) :
  increasing xs -> length xs = length ys -> (2 <= length xs)%nat ->
  _extrap xs xs ys = Ok ys.
Proof.
  intros Hinc Hlen Hn.
  rewrite extrap_value by assumption.
  f_equal.
  apply (nth_ext _ _ 0 0); [rewrite length_map; exact Hlen|].
  intros i Hi; rewrite length_map in Hi.
  rewrite (nth_indep _ 0 (extrap_at xs ys 0)) by (rewrite length_map; exact Hi).
  rewrite map_nth.
  apply (extrap_at_sample xs ys i); assumption.
Qed.

Lemma extrap_reproduces_samples_witness :
  _extrap [0; 1; 3] [0; 1; 3] [5; 7; 2] = Ok [5; 7; 2].
Proof.
  apply (extrap_reproduces_samples [0; 1; 3] [5; 7; 2]).
  - simpl; repeat split; lra.
  - reflexivity.
  - simpl; lia.
Defined.

(** X2. Samples taken on a straight line [y = a * x + b] are continued
    by that line at every position, inside and outside the sample
    range. *)
Theorem extrap_exact_on_lines (a b : R) (xpos xs : list R) :
  increasing xs -> (2 <= length xs)%nat ->
  _extrap xpos xs (map (fun x => a * x + b) xs) =
  Ok (map (fun x => a * x + b) xpos).
Proof.
  intros Hinc Hn.
  set (ys := map (fun x => a * x + b) xs).
  assert (Hlen : length xs = length ys) by (unfold ys; rewrite length_map; auto).
  rewrite extrap_value by assumption.
  f_equal; apply map_ext; intros x.
  assert (Hys : forall i, (i < length xs)%nat -> sample ys i = a * sample xs i + b).
  { intros i Hi; unfold sample, ys.
    rewrite (nth_indep _ 0 (a * 0 + b)) by (rewrite length_map; exact Hi).
    rewrite (map_nth (fun x => a * x + b)); reflexivity. }
  destruct (extrap_at_law xs ys x Hinc Hlen Hn) as (Hseg & Hlow & Hhigh).
  assert (Hfirst : sample xs 0 < sample xs 1)
    by (apply increasing_nth_lt; [exact Hinc | lia | lia]).
  assert (Hlast : sample xs (length xs - 2) < sample xs (length xs - 1))
    by (apply increasing_nth_lt; [exact Hinc | lia | lia]).
  destruct (Rlt_dec x (sample xs 0)) as [Hx0|Hx0].
  - rewrite (Hlow Hx0), !Hys by lia.
    unfold chord; field; lra.
  - destruct (Rlt_dec (sample xs (length xs - 1)) x) as [Hx1|Hx1].
    + rewrite (Hhigh Hx1), !Hys by lia.
      unfold chord; field; lra.
    + destruct (segment_exists xs x Hinc Hn) as (i & Hi & Hin); [lra|].
      assert (Hlt : sample xs i < sample xs (i + 1))
        by (apply increasing_nth_lt; [exact Hinc | lia | lia]).
      rewrite (Hseg i Hi Hin), !Hys by lia.
      unfold chord; field; lra.
Qed.

Lemma extrap_exact_on_lines_witness :
  _extrap [-1; 1 / 2; 7] [0; 1; 3] (map (fun x => 2 * x + 1) [0; 1; 3]) =
  Ok (map (fun x => 2 * x + 1) [-1; 1 / 2; 7]).
Proof.
  apply (extrap_exact_on_lines 2 1 [-1; 1 / 2; 7] [0; 1; 3]).
  - simpl; repeat split; lra.
  - simpl; lia.
Defined.

(** X3. With fewer than two sample points, or with [x] and [y] samples
    of different numbers, [_extrap] raises: [ValueError] from [np.interp]
    on no sample and on different numbers, [IndexError] from the lookup
    of the second sample on a single one. *)
Theorem extrap_too_few_samples (xpos xs ys : list R) :
  (xs = [] -> _extrap xpos xs ys = Raise ValueError) /\
  (length xs <> length ys -> _extrap xpos xs ys = Raise ValueError) /\
  (length xs = 1%nat -> length ys = 1%nat ->
   _extrap xpos xs ys = Raise IndexError).
Proof.
  repeat split.
  - intros ->; reflexivity.
  - intros Hne; unfold _extrap, np_interp.
    destruct xs as [|x0 xs]; [reflexivity|].
    destruct (Nat.eqb_spec (length (x0 :: xs)) (length ys)); [contradiction|].
    reflexivity.
  - intros Hx Hy.
    destruct xs as [|x0 [|x1 xs]]; try discriminate.
    destruct ys as [|y0 [|y1 ys]]; try discriminate.
    reflexivity.
Qed.

Lemma extrap_too_few_samples_witness :
  _extrap [1; 2] [0; 1] [5] = Raise ValueError /\
  _extrap [1; 2] [0] [5] = Raise IndexError.
Proof.
  destruct (extrap_too_few_samples [1; 2] [0; 1] [5]) as (_ & Hdiff & _).
  destruct (extrap_too_few_samples [1; 2] [0] [5]) as (_ & _ & Hone).
  split; [apply Hdiff; simpl; lia | apply Hone; reflexivity].
Defined.

(** ** [_normprof]: scaling, sign, malformed arrays *)

Lemma zip_with_map_l {A B C D : Type} (f : B -> C -> D) (g : A -> B)
      (l : list A) (m : list C) :
  zip_with f (map g l) m = zip_with (fun x y => f (g x) y) l m.
Proof.
  revert m; induction l as [|x l IH]; intros [|y m]; simpl; auto.
  rewrite IH; reflexivity.
Qed.

Lemma np_sum_scale (c : R) (l : list R) :
  np_sum (map (Rmult c) l) = c * np_sum l.
Proof.
  induction l as [|x l IH]; simpl; [ring | rewrite IH; ring].
Qed.

Lemma zip_plus_scale (c : R) (t z : list R) :
  zip_with Rplus (map (Rmult c) t) (map (Rmult c) z) =
  map (Rmult c) (zip_with Rplus t z).
Proof.
  revert z; induction t as [|a t IH]; intros [|b z]; simpl; auto.
  rewrite IH; f_equal; ring.
Qed.

Lemma zip_mult_scale (c : R) (d s : list R) :
  zip_with Rmult d (map (Rmult c) s) = map (Rmult c) (zip_with Rmult d s).
Proof.
  revert s; induction d as [|a d IH]; intros [|b s]; simpl; auto.
  rewrite IH; f_equal; ring.
Qed.

(** The trapezoidal sum is linear in the integrand. *)
Lemma trapezoid_scale (c : R) (x y : list R) :
  map (fun v => v / 2)
      (zip_with Rmult (np_diff x) (pair_sums (map (Rmult c) y))) =
  map (Rmult c)
      (map (fun v => v / 2) (zip_with Rmult (np_diff x) (pair_sums y))).
Proof.
  unfold pair_sums.
  replace (tl (map (Rmult c) y)) with (map (Rmult c) (tl y))
    by (destruct y; reflexivity).
  rewrite zip_plus_scale, zip_mult_scale, !map_map.
  apply map_ext; intros v; field.
Qed.

(** X4. The norm is homogeneous of degree 2: multiplying the profile by
    [c] multiplies its norm by [c^2]. *)
Theorem normprof_scaling (c : R) (rrr func : list R) (norm : R) :
  length func = length rrr ->
  _normprof rrr func = Ok norm ->
  _normprof rrr (map (Rmult c) func) = Ok (c ^ 2 * norm).
Proof.
  intros Hlen; unfold _normprof; intros H.
  bind_inv H; bind_inv H.
  rewrite broadcast2_same in H by (rewrite !length_map; exact Hlen).
  cbn [bind] in H.
  rewrite broadcast2_same by (rewrite !length_map; exact Hlen).
  cbn [bind].
  unfold trapz in *.
  set (y := zip_with Rmult (map (fun f => f ^ 2) func) (map (fun r => r ^ 2) rrr)) in *.
  assert (Hy : zip_with Rmult (map (fun f => f ^ 2) (map (Rmult c) func))
                        (map (fun r => r ^ 2) rrr) = map (Rmult (c ^ 2)) y).
  { unfold y; clear; revert rrr.
    induction func as [|f func IH]; intros [|r rrr]; simpl; auto.
    rewrite IH; f_equal; ring. }
  rewrite Hy.
  assert (Hl : length (np_diff rrr) = length (pair_sums y)).
  { unfold np_diff, pair_sums, y.
    rewrite !zip_with_length.
    destruct func, rrr; simpl in *; try lia.
    rewrite !zip_with_length, !length_map; lia. }
  rewrite broadcast2_same in H by exact Hl.
  rewrite broadcast2_same
    by (rewrite Hl; unfold pair_sums; rewrite !zip_with_length;
        destruct y; simpl; rewrite ?length_map; reflexivity).
  cbn [bind] in *.
  injection H as <-.
  rewrite trapezoid_scale, np_sum_scale.
  f_equal; unfold Rdiv; simpl; ring.
Qed.

Lemma normprof_scaling_witness :
  _normprof [1; 2] (map (Rmult 3) [1; 1]) = Ok (3 ^ 2 * (15 / 14)).
Proof.
  apply (normprof_scaling 3 [1; 2] [1; 1]); [reflexivity|].
  pose proof (normprof_of_constant 1 1 2 []) as E0.
  cbv zeta in E0; cbn [length repeat] in E0; rewrite E0.
  unfold step_cubes, np_diff; simpl.
  f_equal; field.
Defined.

Lemma trapezoid_nonneg (x y : list R) :
  increasing x -> Forall (fun v => 0 <= v) y ->
  0 <= np_sum (map (fun v => v / 2)
                   (zip_with Rmult (np_diff x) (pair_sums y))).
Proof.
  revert y; induction x as [|a x IH]; intros y Hinc Hy; [simpl; lra|].
  destruct x as [|b x]; [simpl; lra|].
  destruct y as [|ya y]; [simpl; lra|].
  destruct y as [|yb y]; [simpl; lra|].
  destruct Hinc as [Hab Hinc].
  inversion Hy as [|? ? Hya Hy']; subst.
  inversion Hy' as [|? ? Hyb Hy'']; subst.
  specialize (IH (yb :: y) Hinc Hy').
  unfold np_diff, pair_sums in *.
  cbn [tl zip_with map np_sum fold_right] in *.
  assert (0 <= (b - a) * (yb + ya) / 2) by nra.
  lra.
Qed.

Lemma squares_nonneg (func rrr : list R) :
  Forall (fun v => 0 <= v)
         (zip_with Rmult (map (fun f => f ^ 2) func) (map (fun r => r ^ 2) rrr)).
Proof.
  revert rrr; induction func as [|f func IH]; intros [|r rrr];
    cbn [map zip_with]; auto.
  constructor; [|apply IH].
  apply Rmult_le_pos; apply pow2_ge_0.
Qed.

(** X5. On a strictly ascending grid of at least two radii, with one
    profile value per radius, [_normprof] returns a number that is not
    negative. *)
Theorem normprof_nonneg (rrr func : list R) :
  increasing rrr -> (2 <= length rrr)%nat -> length func = length rrr ->
  exists norm, _normprof rrr func = Ok norm /\ 0 <= norm.
Proof.
  intros Hinc Hn Hlen.
  destruct rrr as [|a [|b xs]]; simpl in Hn; try lia.
  set (rrr := a :: b :: xs) in *.
  unfold _normprof.
  rewrite (getitem_last rrr 0) by discriminate.
  rewrite (getitem_nonneg rrr 0 0) by (simpl; lia).
  cbn [bind].
  rewrite broadcast2_same by (rewrite !length_map; exact Hlen).
  cbn [bind]; unfold trapz.
  set (y := zip_with Rmult _ _).
  assert (Hy : Forall (fun v => 0 <= v) y).
  { unfold y; apply squares_nonneg. }
  rewrite broadcast2_same.
  - cbn [bind]; eexists; split; [reflexivity|].
    assert (Hends : a ^ 3 < last rrr 0 ^ 3).
    { apply cube_increasing; unfold rrr; rewrite last_cons.
      destruct Hinc as [Hab Hinc'].
      pose proof (increasing_last _ _ Hinc') as Hl.
      rewrite last_cons; lra. }
    pose proof (trapezoid_nonneg rrr y Hinc Hy) as Ht.
    change (nth (Z.to_nat 0) rrr 0) with a.
    apply Rmult_le_pos; [|exact Ht].
    apply Rlt_le, Rdiv_lt_0_compat; lra.
  - unfold np_diff, pair_sums, y; rewrite !zip_with_length.
    destruct func as [|f0 func]; [discriminate|].
    unfold rrr in *; cbn [map zip_with tl length] in *.
    rewrite !zip_with_length; cbn [length]; rewrite !length_map; lia.
Qed.

Lemma normprof_nonneg_witness :
  exists norm, _normprof [1; 2; 4] [-3; 0; 5] = Ok norm /\ 0 <= norm.
Proof.
  apply (normprof_nonneg [1; 2; 4] [-3; 0; 5]).
  - simpl; repeat split; lra.
  - simpl; lia.
  - reflexivity.
Defined.

(** X6. [_normprof] raises [IndexError] on an empty radius array, and
    [ValueError] when the profile and the radii differ in length and
    neither has a single entry. *)
Theorem normprof_malformed (rrr func : list R) :
  (rrr = [] -> _normprof rrr func = Raise IndexError) /\
  (rrr <> [] -> length func <> length rrr ->
   length func <> 1%nat -> length rrr <> 1%nat ->
   _normprof rrr func = Raise ValueError).
Proof.
  split.
  - intros ->; reflexivity.
  - intros Hne Hlen Hf Hr; unfold _normprof.
    rewrite (getitem_last rrr 0) by exact Hne.
    rewrite (getitem_nonneg rrr 0 0)
      by (destruct rrr; [contradiction | simpl; lia]).
    cbn [bind]; unfold broadcast2.
    rewrite !length_map.
    destruct (Nat.eqb_spec (length func) (length rrr)); [contradiction|].
    destruct func as [|f [|f' func]], rrr as [|r [|r' rrr]];
      simpl in *; try lia; try contradiction; reflexivity.
Qed.

Lemma normprof_malformed_witness :
  _normprof [] [1] = Raise IndexError /\
  _normprof [1; 2; 3] [1; 1] = Raise ValueError.
Proof.
  destruct (normprof_malformed [] [1]) as [Hempty _].
  destruct (normprof_malformed [1; 2; 3] [1; 1]) as [_ Hdiff].
  split; [apply Hempty; reflexivity|].
  apply Hdiff; simpl; try discriminate; lia.
Defined.

(** ** [_calc_energy]: the entries of the four arrays, the exceptions *)

Lemma slice_nonneg {A : Type} (a b : nat) (l : list A) :
  (a <= b)%nat ->
  slice (Z.of_nat a) (Z.of_nat b) l = firstn (b - a) (skipn a l).
Proof.
  intros Hab; unfold slice, slice_bound.
  destruct (Z.ltb_spec (Z.of_nat a) 0); [lia|].
  destruct (Z.ltb_spec (Z.of_nat b) 0); [lia|].
  rewrite !Nat2Z.id.
  destruct (Nat.le_gt_cases (length l) a) as [Hla|Hla].
  - rewrite !Nat.min_r by lia.
    rewrite Nat.sub_diag, !skipn_all2 by lia.
    destruct (b - a)%nat; reflexivity.
  - rewrite (Nat.min_l a) by lia.
    destruct (Nat.le_gt_cases b (length l)) as [Hlb|Hlb].
    + rewrite Nat.min_l by lia; reflexivity.
    + rewrite Nat.min_r by lia.
      rewrite !firstn_all2 by (rewrite length_skipn; lia); reflexivity.
Qed.

Lemma nth_column_slice (data : ndarray2) (a b j i : nat) :
  (a <= b)%nat -> (i < b - a)%nat ->
  nth i (map (fun r => nth j r 0) (slice (Z.of_nat a) (Z.of_nat b) (rows data))) 0
  = cell data (a + i) j.
Proof.
  intros Hab Hi; unfold cell.
  rewrite slice_nonneg by exact Hab.
  replace 0 with (nth j [] 0) at 1 by (destruct j; reflexivity).
  rewrite (map_nth (fun r => nth j r 0)).
  rewrite nth_firstn.
  destruct (Nat.ltb_spec i (b - a)); [|lia].
  rewrite nth_skipn; reflexivity.
Qed.

Lemma nth_padded (x y : R) (l : list R) (i : nat) :
  nth i (np_append (np_insert0 l x) y) 0 =
  if Nat.eqb i 0 then x
  else if Nat.eqb i (S (length l)) then y
  else nth (i - 1) l 0.
Proof.
  unfold np_append, np_insert0.
  destruct i as [|i]; [reflexivity|]; cbn [Nat.eqb app nth].
  destruct (Nat.eqb_spec i (length l)) as [->|Hne].
  - rewrite app_nth2, Nat.sub_diag by lia; reflexivity.
  - replace (S i - 1)%nat with i by lia.
    destruct (Nat.lt_ge_cases i (length l)).
    + apply app_nth1; assumption.
    + rewrite !nth_overflow; [reflexivity | lia | rewrite length_app; simpl; lia].
Qed.

(** The four arrays of a valid slice, written out. *)
Lemma calc_energy_explicit (data : ndarray2) (ir0 ir1 : Z) :
  valid_slice data ir0 ir1 ->
  let col := fun j a b =>
    map (fun r => nth j r 0) (slice a b (rows data)) in
  let qadv := np_append (np_insert0 (col 60%nat ir0 (ir1 - 1)%Z) 0) 0 in
  let qcond :=
    np_append
      (np_insert0
         (zip_with Rdiv
            (zip_with Rminus (col 1%nat ir0 (ir1 - 1)%Z) (col 1%nat (ir0 + 1)%Z ir1))
            (zip_with Rminus (col 0%nat (ir0 + 1)%Z ir1) (col 0%nat ir0 (ir1 - 1)%Z)))
         ((1 - cell data (Z.to_nat ir0) 1) / cell data (Z.to_nat ir0) 0))
      (cell data (Z.to_nat ir1) 1 / (1 - cell data (Z.to_nat ir1) 0)) in
  _calc_energy data ir0 ir1 =
  Ok (zip_with Rplus qadv qcond, qadv, qcond,
      np_append (col 63%nat ir0 ir1) 1).
Proof.
  intros (Hwf & Hc & H0 & H01 & H1 & Hz0 & Hz1) col qadv qcond.
  unfold nrows in H1.
  assert (Hlen : forall j a b, (0 <= a)%Z -> (a <= b)%Z ->
            (b <= Z.of_nat (length (rows data)))%Z ->
            length (col j a b) = Z.to_nat (b - a))
    by (intros j a b Ha Hab Hb; unfold col; rewrite length_map;
        apply slice_length; lia).
  unfold _calc_energy.
  rewrite !getcol_ok by lia.
  cbn [bind].
  change (Z.to_nat 63) with 63%nat; change (Z.to_nat 60) with 60%nat.
  change (Z.to_nat 0) with 0%nat; change (Z.to_nat 1) with 1%nat.
  fold (col 63%nat ir0 ir1) (col 0%nat (ir0 + 1)%Z ir1)
       (col 0%nat ir0 (ir1 - 1)%Z) (col 60%nat ir0 (ir1 - 1)%Z)
       (col 1%nat ir0 (ir1 - 1)%Z) (col 1%nat (ir0 + 1)%Z ir1).
  rewrite (broadcast2_same Rminus (col 0%nat (ir0 + 1)%Z ir1))
    by (rewrite !Hlen by lia; lia).
  rewrite (broadcast2_same Rminus (col 1%nat ir0 (ir1 - 1)%Z))
    by (rewrite !Hlen by lia; lia).
  cbn [bind].
  rewrite broadcast2_same
    by (rewrite !zip_with_length, !Hlen by lia; lia).
  cbn [bind].
  assert (Ht0 : getcell data ir0 1 = Ok (cell data (Z.to_nat ir0) 1))
    by (apply (getcell_ok data ir0 1); unfold nrows; lia).
  assert (Hd0 : getcell data ir0 0 = Ok (cell data (Z.to_nat ir0) 0))
    by (apply (getcell_ok data ir0 0); unfold nrows; lia).
  assert (Ht1 : getcell data ir1 1 = Ok (cell data (Z.to_nat ir1) 1))
    by (apply (getcell_ok data ir1 1); unfold nrows; lia).
  assert (Hd1 : getcell data ir1 0 = Ok (cell data (Z.to_nat ir1) 0))
    by (apply (getcell_ok data ir1 0); unfold nrows; lia).
  rewrite Ht0, Hd0; cbn [bind].
  rewrite pydiv_ok by assumption; cbn [bind].
  rewrite Ht1, Hd1; cbn [bind].
  rewrite pydiv_ok by lra.
  cbn [bind].
  fold qadv qcond.
  rewrite broadcast2_same; [reflexivity|].
  unfold qadv, qcond, np_append, np_insert0.
  rewrite !length_app; cbn [length].
  rewrite !zip_with_length, !Hlen by lia; lia.
Qed.

Lemma nth_column_slice_Z (data : ndarray2) (a b : Z) (j i : nat) :
  (0 <= a)%Z -> (a <= b)%Z -> (i < Z.to_nat (b - a))%nat ->
  nth i (map (fun r => nth j r 0) (slice a b (rows data))) 0
  = cell data (Z.to_nat a + i) j.
Proof.
  intros Ha Hab Hi.
  rewrite <- (Z2Nat.id a) at 1 by lia.
  rewrite <- (Z2Nat.id b) at 1 by lia.
  apply nth_column_slice; lia.
Qed.

(** X7. At the two boundaries of a valid slice: the advective flux is
    zero, the depth array ends with the surface value 1, the first
    conductive entry is the bottom term [(1 - T) / z] of row [ir0], and
    the total flux is the conductive flux. *)
Theorem calc_energy_boundaries (data : ndarray2) (ir0 ir1 : Z) :
  valid_slice data ir0 ir1 ->
  exists qtot qadv qcond zgrid,
    _calc_energy data ir0 ir1 = Ok (qtot, qadv, qcond, zgrid) /\
    let n := Z.to_nat (ir1 - ir0) in
    sample qadv 0 = 0 /\ sample qadv n = 0 /\ sample zgrid n = 1 /\
    sample qcond 0 =
      (1 - cell data (Z.to_nat ir0) 1) / cell data (Z.to_nat ir0) 0 /\
    sample qtot 0 = sample qcond 0 /\ sample qtot n = sample qcond n.
Proof.
  intros Hv.
  pose proof (calc_energy_explicit data ir0 ir1 Hv) as E; cbv zeta in E.
  destruct Hv as (Hwf & Hc & H0 & H01 & H1 & Hz0 & Hz1).
  unfold nrows in H1.
  do 4 eexists; split; [exact E|].
  set (col := fun j a b => map (fun r => nth j r 0) (slice a b (rows data))).
  assert (Hlen : forall j a b, (0 <= a)%Z -> (a <= b)%Z ->
            (b <= Z.of_nat (length (rows data)))%Z ->
            length (col j a b) = Z.to_nat (b - a))
    by (intros j a b Ha Hab Hb; unfold col; rewrite length_map;
        apply slice_length; lia).
  set (qadv := np_append (np_insert0 (col 60%nat ir0 (ir1 - 1)%Z) 0) 0).
  set (qcond := np_append (np_insert0 _ _) _).
  set (n := Z.to_nat (ir1 - ir0)).
  assert (La : length qadv = S n)
    by (unfold qadv, np_append, np_insert0; rewrite length_app; cbn [length];
        rewrite Hlen by lia; lia).
  assert (Lc : length qcond = S n)
    by (unfold qcond, np_append, np_insert0; rewrite length_app; cbn [length];
        rewrite !zip_with_length; fold col; rewrite !Hlen by lia; lia).
  assert (Ha0 : sample qadv 0 = 0) by reflexivity.
  assert (Han : sample qadv n = 0).
  { unfold sample, qadv; rewrite nth_padded, Hlen by lia.
    destruct (Nat.eqb_spec n 0); [reflexivity|].
    replace (S (Z.to_nat (ir1 - 1 - ir0))) with n by lia.
    rewrite Nat.eqb_refl; reflexivity. }
  repeat split; try assumption.
  - unfold sample, np_append.
    fold (col 63%nat ir0 ir1).
    rewrite app_nth2 by (rewrite Hlen by lia; lia).
    rewrite Hlen, Nat.sub_diag by lia; reflexivity.
  - unfold sample; rewrite (zip_with_nth Rplus qadv qcond 0 0 0 0) by lia.
    fold (sample qadv 0); rewrite Ha0; apply Rplus_0_l.
  - unfold sample; rewrite (zip_with_nth Rplus qadv qcond n 0 0 0) by lia.
    fold (sample qadv n); rewrite Han; apply Rplus_0_l.
Qed.

Lemma calc_energy_boundaries_witness :
  exists qtot qadv qcond zgrid,
    _calc_energy energy_table 0 2 = Ok (qtot, qadv, qcond, zgrid) /\
    let n := Z.to_nat (2 - 0) in
    sample qadv 0 = 0 /\ sample qadv n = 0 /\ sample zgrid n = 1 /\
    sample qcond 0 =
      (1 - cell energy_table (Z.to_nat 0) 1) / cell energy_table (Z.to_nat 0) 0 /\
    sample qtot 0 = sample qcond 0 /\ sample qtot n = sample qcond n.
Proof.
  apply (calc_energy_boundaries energy_table 0 2).
  unfold valid_slice, wf_table, nrows, cell; simpl.
  repeat split; try lia; try lra.
  repeat constructor.
Defined.

(** X8. Inside a valid slice, at index [1 <= i < ir1 - ir0]: the
    advective flux is column 60 of row [ir0 + i - 1], and the conductive
    flux is the temperature drop from row [ir0 + i - 1] to row [ir0 + i]
    over the depth step between them; the depth array holds column 63
    of the rows [ir0 .. ir1 - 1]. *)
Theorem calc_energy_interior (data : ndarray2) (ir0 ir1 : Z) :
  valid_slice data ir0 ir1 ->
  exists qtot qadv qcond zgrid,
    _calc_energy data ir0 ir1 = Ok (qtot, qadv, qcond, zgrid) /\
    let n := Z.to_nat (ir1 - ir0) in
    let r0 := Z.to_nat ir0 in
    (forall i, (1 <= i < n)%nat ->
       sample qadv i = cell data (r0 + i - 1) 60 /\
       sample qcond i =
         (cell data (r0 + i - 1) 1 - cell data (r0 + i) 1)
         / (cell data (r0 + i) 0 - cell data (r0 + i - 1) 0)) /\
    (forall i, (i < n)%nat -> sample zgrid i = cell data (r0 + i) 63).
Proof.
  intros Hv.
  pose proof (calc_energy_explicit data ir0 ir1 Hv) as E; cbv zeta in E.
  destruct Hv as (Hwf & Hc & H0 & H01 & H1 & Hz0 & Hz1).
  unfold nrows in H1.
  do 4 eexists; split; [exact E|].
  set (col := fun j a b => map (fun r => nth j r 0) (slice a b (rows data))).
  assert (Hlen : forall j a b, (0 <= a)%Z -> (a <= b)%Z ->
            (b <= Z.of_nat (length (rows data)))%Z ->
            length (col j a b) = Z.to_nat (b - a))
    by (intros j a b Ha Hab Hb; unfold col; rewrite length_map;
        apply slice_length; lia).
  assert (Hnth : forall j a b i, (0 <= a)%Z -> (a <= b)%Z ->
            (i < Z.to_nat (b - a))%nat ->
            nth i (col j a b) 0 = cell data (Z.to_nat a + i) j)
    by (intros; apply nth_column_slice_Z; assumption).
  cbv zeta; set (n := Z.to_nat (ir1 - ir0)); set (r0 := Z.to_nat ir0).
  split.
  - intros i Hi; unfold sample; rewrite !nth_padded.
    destruct (Nat.eqb_spec i 0); [lia|].
    fold (col 60%nat ir0 (ir1 - 1)%Z) (col 1%nat ir0 (ir1 - 1)%Z)
         (col 1%nat (ir0 + 1)%Z ir1) (col 0%nat (ir0 + 1)%Z ir1)
         (col 0%nat ir0 (ir1 - 1)%Z).
    rewrite !zip_with_length, !Hlen by lia.
    destruct (Nat.eqb_spec i (S (Z.to_nat (ir1 - 1 - ir0)))); [lia|].
    destruct (Nat.eqb_spec i
                (S (Nat.min (Nat.min (Z.to_nat (ir1 - 1 - ir0))
                                     (Z.to_nat (ir1 - (ir0 + 1))))
                            (Nat.min (Z.to_nat (ir1 - (ir0 + 1)))
                                     (Z.to_nat (ir1 - 1 - ir0)))))); [lia|].
    split.
    + rewrite Hnth by lia; f_equal; lia.
    + rewrite (zip_with_nth Rdiv _ _ (i - 1) 0 0 0)
        by (rewrite zip_with_length, !Hlen by lia; lia).
      rewrite !(zip_with_nth Rminus _ _ (i - 1) 0 0 0)
        by (rewrite !Hlen by lia; lia).
      rewrite !Hnth by lia.
      replace (Z.to_nat (ir0 + 1) + (i - 1))%nat with (r0 + i)%nat by lia.
      replace (Z.to_nat ir0 + (i - 1))%nat with (r0 + i - 1)%nat by lia.
      reflexivity.
  - intros i Hi; unfold sample, np_append.
    fold (col 63%nat ir0 ir1).
    rewrite app_nth1 by (rewrite Hlen by lia; lia).
    apply Hnth; lia.
Qed.

Lemma calc_energy_interior_witness :
  exists qtot qadv qcond zgrid,
    _calc_energy energy_table 0 2 = Ok (qtot, qadv, qcond, zgrid) /\
    let n := Z.to_nat (2 - 0) in
    let r0 := Z.to_nat 0 in
    (forall i, (1 <= i < n)%nat ->
       sample qadv i = cell energy_table (r0 + i - 1) 60 /\
       sample qcond i =
         (cell energy_table (r0 + i - 1) 1 - cell energy_table (r0 + i) 1)
         / (cell energy_table (r0 + i) 0 - cell energy_table (r0 + i - 1) 0)) /\
    (forall i, (i < n)%nat -> sample zgrid i = cell energy_table (r0 + i) 63).
Proof.
  apply (calc_energy_interior energy_table 0 2).
  unfold valid_slice, wf_table, nrows, cell; simpl.
  repeat split; try lia; try lra.
  repeat constructor.
Defined.

(** X9. [_calc_energy] raises [IndexError] on a table of fewer than 64
    columns, whatever the rows; and on a table with the columns and the
    rows [ir0 < ir1] it raises [ZeroDivisionError] when the depth of row
    [ir0] is 0 or the depth of row [ir1] is 1. *)
Theorem calc_energy_exceptions (data : ndarray2) (ir0 ir1 : Z) :
  ((ncols data < 64)%nat -> _calc_energy data ir0 ir1 = Raise IndexError) /\
  ((64 <= ncols data)%nat -> (0 <= ir0)%Z -> (ir0 + 1 <= ir1)%Z ->
   (ir1 < Z.of_nat (nrows data))%Z ->
   cell data (Z.to_nat ir0) 0 = 0 \/ cell data (Z.to_nat ir1) 0 = 1 ->
   _calc_energy data ir0 ir1 = Raise ZeroDivisionError).
Proof.
  split.
  - intros Hc; unfold _calc_energy, getcol.
    rewrite index_pos_beyond by lia; reflexivity.
  - intros Hc H0 H01 H1 Hz; unfold nrows in H1.
    set (col := fun j a b => map (fun r => nth j r 0) (slice a b (rows data))).
    assert (Hlen : forall j a b, (0 <= a)%Z -> (a <= b)%Z ->
              (b <= Z.of_nat (length (rows data)))%Z ->
              length (col j a b) = Z.to_nat (b - a))
      by (intros j a b Ha Hab Hb; unfold col; rewrite length_map;
          apply slice_length; lia).
    unfold _calc_energy.
    rewrite !getcol_ok by lia.
    cbn [bind].
    change (Z.to_nat 0) with 0%nat; change (Z.to_nat 1) with 1%nat.
    fold (col 0%nat (ir0 + 1)%Z ir1) (col 0%nat ir0 (ir1 - 1)%Z)
         (col 1%nat ir0 (ir1 - 1)%Z) (col 1%nat (ir0 + 1)%Z ir1).
    rewrite (broadcast2_same Rminus (col 0%nat (ir0 + 1)%Z ir1))
      by (rewrite !Hlen by lia; lia).
    rewrite (broadcast2_same Rminus (col 1%nat ir0 (ir1 - 1)%Z))
      by (rewrite !Hlen by lia; lia).
    cbn [bind].
    rewrite broadcast2_same
      by (rewrite !zip_with_length, !Hlen by lia; lia).
    cbn [bind].
    assert (Ht0 : getcell data ir0 1 = Ok (cell data (Z.to_nat ir0) 1))
      by (apply (getcell_ok data ir0 1); unfold nrows; lia).
    assert (Hd0 : getcell data ir0 0 = Ok (cell data (Z.to_nat ir0) 0))
      by (apply (getcell_ok data ir0 0); unfold nrows; lia).
    assert (Ht1 : getcell data ir1 1 = Ok (cell data (Z.to_nat ir1) 1))
      by (apply (getcell_ok data ir1 1); unfold nrows; lia).
    assert (Hd1 : getcell data ir1 0 = Ok (cell data (Z.to_nat ir1) 0))
      by (apply (getcell_ok data ir1 0); unfold nrows; lia).
    rewrite Ht0, Hd0; cbn [bind].
    destruct (Req_dec_T (cell data (Z.to_nat ir0) 0) 0) as [E0|N0].
    + rewrite E0, pydiv_zero; reflexivity.
    + rewrite pydiv_ok by exact N0; cbn [bind].
      rewrite Ht1, Hd1; cbn [bind].
      destruct Hz as [Hz|Hz]; [contradiction|].
      rewrite Hz.
      replace (1 - 1) with 0 by ring.
      rewrite pydiv_zero; reflexivity.
Qed.

Lemma calc_energy_exceptions_witness :
  _calc_energy (mk_ndarray2 3 [[1; 2; 3]; [4; 5; 6]]) 0 1 = Raise IndexError /\
  _calc_energy (mk_ndarray2 64 [energy_row (1 / 4) 1 5 0;
                                energy_row 1 0 9 (2 / 3)]) 0 1
  = Raise ZeroDivisionError.
Proof.
  destruct (calc_energy_exceptions (mk_ndarray2 3 [[1; 2; 3]; [4; 5; 6]]) 0 1)
    as [Hcols _].
  destruct (calc_energy_exceptions
              (mk_ndarray2 64 [energy_row (1 / 4) 1 5 0;
                               energy_row 1 0 9 (2 / 3)]) 0 1) as [_ Hzero].
  split; [apply Hcols; simpl; lia|].
  apply Hzero; try (simpl; lia).
  right; reflexivity.
Defined.

(** ** Row range of a timestep: tables of several epochs *)

Lemma count_below_insert (z y : Z) (l : list Z) :
  count_below z (insert_sorted y l) = count_below z (y :: l).
Proof.
  unfold count_below; induction l as [|x l IH]; [reflexivity|].
  cbn [insert_sorted].
  destruct (Z.leb_spec y x); [reflexivity|].
  cbn [filter] in *.
  destruct (Z.ltb_spec x z), (Z.ltb_spec y z); cbn [length] in *;
    rewrite IH; try reflexivity; try lia.
Qed.

Lemma count_below_sorted (z : Z) (l : list Z) :
  count_below z (sorted l) = count_below z l.
Proof.
  induction l as [|y l IH]; [reflexivity|].
  unfold sorted in *; cbn [fold_right].
  rewrite count_below_insert.
  unfold count_below in *; cbn [filter].
  destruct (Z.ltb_spec y z); cbn [length]; rewrite IH; reflexivity.
Qed.

Lemma In_insert_sorted (z y : Z) (l : list Z) :
  In z (insert_sorted y l) <-> z = y \/ In z l.
Proof.
  induction l as [|x l IH]; cbn [insert_sorted].
  - simpl; intuition.
  - destruct (Z.leb_spec y x); simpl in *; intuition.
Qed.

Lemma In_sorted (z : Z) (l : list Z) : In z (sorted l) <-> In z l.
Proof.
  induction l as [|y l IH]; [reflexivity|].
  unfold sorted in *; cbn [fold_right].
  rewrite In_insert_sorted, IH; simpl; intuition.
Qed.

Lemma insert_sorted_ordered (y : Z) (l : list Z) :
  StronglySorted Z.le l -> StronglySorted Z.le (insert_sorted y l).
Proof.
  induction l as [|x l IH]; intros Hs; cbn [insert_sorted].
  - constructor; constructor.
  - inversion Hs as [|? ? Hl Hx]; subst.
    destruct (Z.leb_spec y x).
    + constructor; [exact Hs|].
      constructor; [assumption|].
      eapply Forall_impl; [|exact Hx]; intros; simpl in *; lia.
    + constructor; [apply IH; exact Hl|].
      apply Forall_forall; intros w Hw.
      apply In_insert_sorted in Hw; destruct Hw as [->|Hw]; [lia|].
      rewrite Forall_forall in Hx; apply Hx; exact Hw.
Qed.

Lemma sorted_ordered (l : list Z) : StronglySorted Z.le (sorted l).
Proof.
  induction l as [|y l IH]; [constructor|].
  unfold sorted in *; cbn [fold_right].
  apply insert_sorted_ordered; exact IH.
Qed.

(** In an ordered list the first place of an element is the number of
    elements below it. *)
Lemma list_index_ordered (z : Z) (s : list Z) :
  StronglySorted Z.le s -> In z s ->
  list_index z s = Ok (Z.of_nat (count_below z s)).
Proof.
  induction s as [|y s IH]; intros Hs Hin; [contradiction|].
  inversion Hs as [|? ? Hs' Hy]; subst.
  unfold count_below in *; cbn [list_index filter].
  destruct (Z.eqb_spec y z) as [->|Hne].
  - destruct (Z.ltb_spec z z); [lia|].
    replace (filter (fun y => (y <? z)%Z) s) with (@nil Z); [reflexivity|].
    symmetry; clear IH Hs Hs' Hin.
    induction s as [|x s IHs]; [reflexivity|].
    inversion Hy; subst; cbn [filter].
    destruct (Z.ltb_spec x z); [lia | apply IHs; assumption].
  - destruct Hin as [Heq|Hin]; [contradiction|].
    rewrite Forall_forall in Hy; pose proof (Hy z Hin) as Hle.
    destruct (Z.ltb_spec y z); [|lia].
    rewrite (IH Hs' Hin); cbn [bind length].
    f_equal; lia.
Qed.

(** The place [inn] of a timestep among the boundaries. *)
Lemma step_place (nzi : list nzrow) (step : Z) :
  list_index step (sorted (map col0 nzi ++ [step])) =
  Ok (Z.of_nat (count_below step (map col0 nzi))).
Proof.
  rewrite list_index_ordered.
  - rewrite count_below_sorted.
    unfold count_below; rewrite filter_app; cbn [filter].
    destruct (Z.ltb_spec step step); [lia|].
    rewrite app_nil_r; reflexivity.
  - apply sorted_ordered.
  - apply In_sorted, in_or_app; right; left; reflexivity.
Qed.

Lemma count_below_none (z : Z) (l : list Z) :
  Forall (fun y => (z <= y)%Z) l -> count_below z l = 0%nat.
Proof.
  unfold count_below; induction 1 as [|y l Hy Hl IH]; [reflexivity|].
  cbn [filter]; destruct (Z.ltb_spec y z); [lia | exact IH].
Qed.

Lemma count_below_all (z : Z) (l : list Z) :
  Forall (fun y => (y < z)%Z) l -> count_below z l = length l.
Proof.
  unfold count_below; induction 1 as [|y l Hy Hl IH]; [reflexivity|].
  cbn [filter]; destruct (Z.ltb_spec y z); [|lia].
  cbn [length]; rewrite IH; reflexivity.
Qed.

Lemma count_below_increasing (step : Z) (cols : list Z) (k : nat) :
  StronglySorted Z.lt cols -> (k < length cols)%nat ->
  (k = 0%nat \/ (nth (k - 1) cols 0 < step)%Z) -> (step <= nth k cols 0)%Z ->
  count_below step cols = k.
Proof.
  revert k; induction cols as [|c cs IH]; intros k Hs Hk Hprev Hcur;
    [simpl in Hk; lia|].
  inversion Hs as [|? ? Hs' Hc]; subst.
  rewrite Forall_forall in Hc.
  destruct k as [|k].
  - apply count_below_none; cbn [nth] in Hcur.
    constructor; [exact Hcur|].
    apply Forall_forall; intros y Hy; specialize (Hc y Hy); lia.
  - destruct Hprev as [Hz|Hprev]; [discriminate|].
    replace (S k - 1)%nat with k in Hprev by lia.
    assert (Hck : (c <= nth k (c :: cs) 0)%Z).
    { destruct k as [|k]; [simpl; lia|]; cbn [nth].
      assert (In (nth k cs 0%Z) cs) by (apply nth_In; simpl in Hk; lia).
      specialize (Hc _ H); lia. }
    unfold count_below in *; cbn [filter].
    destruct (Z.ltb_spec c step); [|lia].
    cbn [length]; f_equal.
    apply IH; [exact Hs' | simpl in Hk; lia | | exact Hcur].
    destruct k as [|k]; [left; reflexivity | right].
    replace (S k - 1)%nat with k by lia; exact Hprev.
Qed.

(** The row range of a timestep of epoch [k], as [int64] values. *)
Lemma step_rows_at (nzi : list nzrow) (step : Z) (k : nat) :
  StronglySorted Z.lt (map col0 nzi) ->
  (1 <= k < length nzi)%nat ->
  (col0 (nth (k - 1) nzi (0, 0, 0)%Z) < step
   <= col0 (nth k nzi (0, 0, 0)%Z))%Z ->
  step_rows nzi step =
  Ok (wrap64 (sumZ (map epoch_rows (firstn k nzi))
              + (step - col0 (nth (k - 1) nzi (0, 0, 0)%Z) - 1)
                * col2 (nth k nzi (0, 0, 0)%Z)),
      wrap64 (sumZ (map epoch_rows (firstn k nzi))
              + (step - col0 (nth (k - 1) nzi (0, 0, 0)%Z) - 1)
                * col2 (nth k nzi (0, 0, 0)%Z)
              + col2 (nth k nzi (0, 0, 0)%Z) - 1))%Z.
Proof.
  intros Hs Hk [Hlo Hhi].
  assert (Hinn : list_index step (sorted (map col0 nzi ++ [step]))
                 = Ok (Z.of_nat k)).
  { rewrite step_place.
    rewrite (count_below_increasing step (map col0 nzi) k); try assumption.
    - reflexivity.
    - rewrite length_map; lia.
    - right. change 0%Z with (col0 (0, 0, 0)%Z).
      rewrite map_nth; exact Hlo.
    - change 0%Z with (col0 (0, 0, 0)%Z).
      rewrite map_nth; exact Hhi. }
  assert (Hsl : slice 0 (Z.of_nat k) nzi = firstn k nzi).
  { change 0%Z with (Z.of_nat 0).
    rewrite slice_nonneg by lia.
    rewrite Nat.sub_0_r, skipn_O; reflexivity. }
  rewrite (step_rows_value nzi step (Z.of_nat k)
             (nth (k - 1) nzi (0, 0, 0)%Z) (nth k nzi (0, 0, 0)%Z) Hinn).
  - rewrite Hsl; reflexivity.
  - replace (Z.of_nat k - 1)%Z with (Z.of_nat (k - 1)) by lia.
    rewrite (getitem_nonneg nzi (Z.of_nat (k - 1)) (0, 0, 0)%Z) by lia.
    rewrite Nat2Z.id; reflexivity.
  - rewrite (getitem_nonneg nzi (Z.of_nat k) (0, 0, 0)%Z) by lia.
    rewrite Nat2Z.id; reflexivity.
Qed.

(** X10. In a table of [int64] entries with increasing boundaries, a
    timestep after the boundary of row [k - 1] and not after the boundary
    of row [k] gets the rows that come after all the rows of the epochs
    [0 .. k - 1] and after those of the earlier timesteps of its own
    epoch, [col2] rows of them; the two row numbers are computed in
    [int64], so modulo [2^64], and are the numbers themselves when these
    lie in the [int64] range. *)
Theorem step_rows_epoch (nzi : list nzrow) (step : Z) (k : nat) :
  let prev := nth (k - 1) nzi (0, 0, 0)%Z in
  let cur := nth k nzi (0, 0, 0)%Z in
  let ir0 := (sumZ (map epoch_rows (firstn k nzi))
              + (step - col0 prev - 1) * col2 cur)%Z in
  int64_table nzi ->
  StronglySorted Z.lt (map col0 nzi) ->
  (1 <= k < length nzi)%nat ->
  (col0 prev < step <= col0 cur)%Z ->
  step_rows nzi step = Ok (wrap64 ir0, wrap64 (ir0 + col2 cur - 1))%Z /\
  (int64_range ir0 -> int64_range (ir0 + col2 cur - 1) ->
   step_rows nzi step = Ok (ir0, ir0 + col2 cur - 1)%Z).
Proof.
  intros prev cur ir0 _ Hs Hk Hstep.
  pose proof (step_rows_at nzi step k Hs Hk Hstep) as E.
  split; [exact E|].
  intros R0 R1; rewrite E.
  fold prev cur ir0; rewrite !wrap64_range by assumption; reflexivity.
Qed.

Lemma step_rows_epoch_witness :
  step_rows [(0, 0, 0); (10, 10, 4); (15, 5, 8)]%Z 12 = Ok (48, 55)%Z.
Proof.
  apply (step_rows_epoch [(0, 0, 0); (10, 10, 4); (15, 5, 8)]%Z 12 2).
  - repeat constructor; unfold col0, col1, col2; simpl; lia.
  - unfold col0; simpl; repeat constructor.
  - simpl; lia.
  - unfold col0; simpl; lia.
  - unfold int64_range; simpl; lia.
  - unfold int64_range; simpl; lia.
Defined.

(** Where the rows of the earlier epochs exceed the [int64] range the
    row numbers wrap around: [2^64] rows before the second epoch count
    as none. *)
Example step_rows_epoch_wraps :
  step_rows [(0, 0, 0); (10, 2 ^ 32, 2 ^ 32); (20, 1, 4)]%Z 11 = Ok (0, 3)%Z.
Proof. reflexivity. Qed.

Lemma ordered_nth_lt (l : list Z) (i j : nat) :
  StronglySorted Z.lt l -> (i < j < length l)%nat ->
  (nth i l 0 < nth j l 0)%Z.
Proof.
  revert i j; induction l as [|c l IH]; intros i j Hs Hij; [simpl in Hij; lia|].
  inversion Hs as [|? ? Hs' Hc]; subst.
  destruct j as [|j]; [lia|].
  destruct i as [|i]; cbn [nth].
  - rewrite Forall_forall in Hc; apply Hc, nth_In; simpl in Hij; lia.
  - apply IH; [exact Hs' | simpl in Hij; lia].
Qed.

Lemma firstn_succ {A : Type} (l : list A) (k : nat) (d : A) :
  (k < length l)%nat -> firstn (S k) l = firstn k l ++ [nth k l d].
Proof.
  revert k; induction l as [|x l IH]; intros k Hk; [simpl in Hk; lia|].
  destruct k as [|k]; [reflexivity|].
  rewrite !firstn_cons; cbn [nth app].
  rewrite (IH k) by (simpl in Hk; lia); reflexivity.
Qed.

Lemma sumZ_app (l m : list Z) : sumZ (l ++ m) = (sumZ l + sumZ m)%Z.
Proof.
  induction l as [|x l IH]; simpl; [reflexivity | rewrite IH; lia].
Qed.

(** X11. The row ranges of consecutive timesteps tile the table, as
    long as the row numbers lie in the [int64] range: a timestep gets
    [col2] rows; the next timestep of the same epoch starts on the row
    after; and so does the first timestep of the next epoch, when the
    row of the epoch counts its timesteps as the distance between its
    boundary and the one before. *)
Theorem step_rows_tile (nzi : list nzrow) (step : Z) (k : nat) :
  let prev := nth (k - 1) nzi (0, 0, 0)%Z in
  let cur := nth k nzi (0, 0, 0)%Z in
  let next := nth (S k) nzi (0, 0, 0)%Z in
  let first := (sumZ (map epoch_rows (firstn k nzi))
                + (step - col0 prev - 1) * col2 cur)%Z in
  int64_table nzi ->
  StronglySorted Z.lt (map col0 nzi) ->
  (1 <= k < length nzi)%nat ->
  (col0 prev < step <= col0 cur)%Z ->
  int64_range first -> int64_range (first + col2 cur - 1) ->
  exists ir0 ir1,
    step_rows nzi step = Ok (ir0, ir1) /\
    (ir1 - ir0 + 1 = col2 cur)%Z /\
    ((step + 1 <= col0 cur)%Z ->
     int64_range (ir1 + 1) -> int64_range (ir1 + col2 cur) ->
     step_rows nzi (step + 1) = Ok (ir1 + 1, ir1 + col2 cur)%Z) /\
    (step = col0 cur -> (S k < length nzi)%nat ->
     col1 cur = (col0 cur - col0 prev)%Z ->
     int64_range (ir1 + 1) -> int64_range (ir1 + col2 next) ->
     step_rows nzi (step + 1) = Ok (ir1 + 1, ir1 + col2 next)%Z).
Proof.
  intros prev cur next first _ Hs Hk Hstep R0 R1.
  pose proof (step_rows_at nzi step k Hs Hk Hstep) as E.
  fold prev cur first in E.
  rewrite !wrap64_range in E by assumption.
  do 2 eexists; split; [exact E|].
  split; [lia|]. split.
  - intros Hnext R2 R3.
    rewrite (step_rows_at nzi (step + 1) k Hs Hk) by (fold prev cur; lia).
    fold prev cur.
    replace (sumZ (map epoch_rows (firstn k nzi))
             + (step + 1 - col0 prev - 1) * col2 cur)%Z
      with (first + col2 cur - 1 + 1)%Z by (unfold first; ring).
    replace (first + col2 cur - 1 + 1 + col2 cur - 1)%Z
      with (first + col2 cur - 1 + col2 cur)%Z by ring.
    rewrite !wrap64_range by assumption; reflexivity.
  - intros Hend Hk' Hcount R2 R3.
    assert (Hlt : (col0 cur < col0 next)%Z).
    { unfold cur, next.
      change (col0 (nth k nzi (0, 0, 0)%Z))
        with ((fun r => col0 r) (nth k nzi (0, 0, 0)%Z)).
      rewrite <- !(map_nth col0).
      apply ordered_nth_lt; [exact Hs | rewrite length_map; lia]. }
    rewrite (step_rows_at nzi (step + 1) (S k) Hs)
      by (cbn [Nat.sub]; rewrite ?Nat.sub_0_r; fold cur next; lia).
    replace (S k - 1)%nat with k by lia; fold cur next.
    rewrite (firstn_succ nzi k (0, 0, 0)%Z) by lia.
    rewrite map_app, sumZ_app; fold cur.
    cbn [map sumZ fold_right].
    replace (sumZ (map epoch_rows (firstn k nzi)) + (epoch_rows cur + 0)
             + (step + 1 - col0 cur - 1) * col2 next)%Z
      with (first + col2 cur - 1 + 1)%Z
      by (unfold first, epoch_rows; rewrite Hcount; subst step; ring).
    replace (first + col2 cur - 1 + 1 + col2 next - 1)%Z
      with (first + col2 cur - 1 + col2 next)%Z by ring.
    rewrite !wrap64_range by assumption; reflexivity.
Qed.

Lemma step_rows_tile_witness :
  exists ir0 ir1,
    step_rows [(0, 0, 0); (10, 10, 4); (15, 5, 8)]%Z 10 = Ok (ir0, ir1) /\
    (ir1 - ir0 + 1 = 4)%Z /\
    step_rows [(0, 0, 0); (10, 10, 4); (15, 5, 8)]%Z (10 + 1)
    = Ok (ir1 + 1, ir1 + 8)%Z.
Proof.
  destruct (step_rows_tile [(0, 0, 0); (10, 10, 4); (15, 5, 8)]%Z 10 1)
    as (ir0 & ir1 & E & Hn & _ & Hnext).
  - repeat constructor; unfold col0, col1, col2; simpl; lia.
  - unfold col0; simpl; repeat constructor.
  - simpl; lia.
  - unfold col0; simpl; lia.
  - unfold int64_range; simpl; lia.
  - unfold int64_range; simpl; lia.
  - exists ir0, ir1; split; [exact E|]. split; [exact Hn|].
    assert (Hir1 : ir1 = 39%Z)
      by (change (step_rows [(0, 0, 0); (10, 10, 4); (15, 5, 8)]%Z 10)
            with (@Ok (Z * Z) (36, 39)%Z) in E; congruence).
    apply Hnext; try reflexivity; try (simpl; lia);
      rewrite Hir1; unfold int64_range; simpl; lia.
Defined.

(** X12. A timestep after every boundary of the table has no row to read
    its count from: [IndexError]. *)
Theorem step_rows_beyond_table (nzi : list nzrow) (step : Z) :
  (forall r, In r nzi -> (col0 r < step)%Z) ->
  step_rows nzi step = Raise IndexError.
Proof.
  intros Hall; unfold step_rows.
  rewrite step_place, count_below_all, length_map.
  - cbn [bind].
    destruct nzi as [|r nzi]; [reflexivity|].
    rewrite (getitem_nonneg (r :: nzi) (Z.of_nat (length (r :: nzi)) - 1)
                            (0, 0, 0)%Z) by (cbn [length]; lia).
    cbn [bind].
    rewrite getitem_beyond by lia; reflexivity.
  - apply Forall_forall; intros y Hy.
    apply in_map_iff in Hy; destruct Hy as (r & <- & Hr); auto.
Qed.

Lemma step_rows_beyond_table_witness :
  step_rows [(0, 0, 0); (10, 10, 4)]%Z 11 = Raise IndexError.
Proof.
  apply (step_rows_beyond_table [(0, 0, 0); (10, 10, 4)]%Z 11).
  intros r [<-|[<-|[]]]; unfold col0; simpl; lia.
Defined.

(** ** [chunks] and the time average *)

Lemma firstn_plus {A : Type} (a b : nat) (l : list A) :
  firstn (a + b) l = firstn a l ++ firstn b (skipn a l).
Proof.
  revert l; induction a as [|a IH]; intros l; [reflexivity|].
  destruct l as [|x l]; [rewrite !firstn_nil; reflexivity|].
  cbn [Nat.add]; rewrite !firstn_cons, skipn_cons, IH; reflexivity.
Qed.

(** The chunks, one by one. *)
Lemma chunks_value {A : Type} (l : list A) (nbz : nat) :
  nbz <> 0%nat ->
  chunks l nbz =
  Ok (map (fun i => firstn nbz (skipn (i * nbz) l))
          (seq 0 ((length l + nbz - 1) / nbz))).
Proof.
  intros Hk; unfold chunks, range_step.
  destruct (Nat.eqb_spec nbz 0); [contradiction|].
  rewrite map_map; f_equal; apply map_ext; intros i.
  rewrite slice_nonneg by lia.
  f_equal; lia.
Qed.

Lemma concat_chunks {A : Type} (l : list A) (nbz m : nat) :
  concat (map (fun i => firstn nbz (skipn (i * nbz) l)) (seq 0 m)) =
  firstn (m * nbz) l.
Proof.
  induction m as [|m IH]; [reflexivity|].
  rewrite seq_S, map_app, concat_app, IH; cbn [map concat Nat.add].
  rewrite app_nil_r.
  replace (S m * nbz)%nat with (m * nbz + nbz)%nat by lia.
  rewrite firstn_plus; reflexivity.
Qed.

Lemma chunk_count_covers (n k : nat) :
  k <> 0%nat ->
  (n <= (n + k - 1) / k * k)%nat /\ (((n + k - 1) / k - 1) * k < n \/ n = 0)%nat.
Proof.
  intros Hk.
  pose proof (Nat.div_mod_eq (n + k - 1) k) as Hd.
  pose proof (Nat.mod_upper_bound (n + k - 1) k Hk) as Hm.
  set (q := ((n + k - 1) / k)%nat) in *.
  set (r := ((n + k - 1) mod k)%nat) in *.
  split; [nia|].
  destruct n as [|n]; [right; reflexivity | left].
  destruct q as [|q]; [nia|].
  replace (S q - 1)%nat with q by lia; nia.
Qed.

(** X13. For a chunk size other than 0, [chunks] cuts the data into
    pieces that, put end to end, give the data back; no piece is empty
    and none has more than [nbz] elements. *)
Theorem chunks_cover {A : Type} (mydata : list A) (nbz : nat) :
  nbz <> 0%nat ->
  exists cs,
    chunks mydata nbz = Ok cs /\ concat cs = mydata /\
    Forall (fun c => (1 <= length c <= nbz)%nat) cs.
Proof.
  intros Hk; eexists; split; [apply chunks_value; exact Hk|].
  destruct (chunk_count_covers (length mydata) nbz Hk) as [Hcov Hlast].
  split.
  - rewrite concat_chunks; apply firstn_all2; exact Hcov.
  - apply Forall_forall; intros c Hc.
    apply in_map_iff in Hc; destruct Hc as (i & <- & Hi).
    apply in_seq in Hi.
    rewrite length_firstn, length_skipn.
    assert ((i * nbz < length mydata)%nat); [|lia].
    destruct Hlast as [Hlast|Hz];
      [|rewrite Hz in Hi; cbn [Nat.add] in Hi;
        rewrite Nat.div_small in Hi by lia; lia].
    assert (i * nbz <= ((length mydata + nbz - 1) / nbz - 1) * nbz)%nat
      by (apply Nat.mul_le_mono_r; lia).
    lia.
Qed.

Lemma chunks_cover_witness :
  exists cs,
    chunks [1; 2; 3; 4; 5]%Z 2 = Ok cs /\ concat cs = [1; 2; 3; 4; 5]%Z /\
    Forall (fun c => (1 <= length c <= 2)%nat) cs.
Proof.
  apply (chunks_cover [1; 2; 3; 4; 5]%Z 2); discriminate.
Defined.

(** Without a chunk size, [range] raises. *)
Example chunks_zero_size : chunks [1; 2; 3]%Z 0 = Raise ValueError.
Proof. reflexivity. Qed.

Lemma length_concat_blocks {A : Type} (r : nat) (bs : list (list A)) :
  Forall (fun b => length b = r) bs -> length (concat bs) = (length bs * r)%nat.
Proof.
  induction 1 as [|b bs Hb HS IH]; [reflexivity|].
  cbn [concat length]; rewrite length_app, IH, Hb; lia.
Qed.

Lemma block_at {A : Type} (r : nat) (bs : list (list A)) (i : nat) :
  Forall (fun b => length b = r) bs -> (i < length bs)%nat ->
  firstn r (skipn (i * r) (concat bs)) = nth i bs [].
Proof.
  intros HS; revert i; induction HS as [|b bs Hb HS IH]; intros i Hi;
    [simpl in Hi; lia|].
  cbn [concat]; destruct i as [|i]; cbn [nth].
  - cbn [Nat.mul skipn]; rewrite firstn_app, Hb, Nat.sub_diag, firstn_O, app_nil_r.
    apply firstn_all2; lia.
  - replace (S i * r)%nat with (length b + i * r)%nat by lia.
    rewrite skipn_app.
    rewrite skipn_all2 by lia.
    replace (length b + i * r - length b)%nat with (i * r)%nat by lia.
    apply IH; simpl in Hi; lia.
Qed.

Lemma map_nth_seq {A : Type} (l : list A) (d : A) :
  map (fun i => nth i l d) (seq 0 (length l)) = l.
Proof.
  induction l as [|x l IH]; [reflexivity|].
  cbn [length seq map nth]; f_equal.
  rewrite <- seq_shift, map_map; exact IH.
Qed.

(** Data made of blocks of [r] rows are cut back into these blocks. *)
Lemma chunks_blocks {A : Type} (r : nat) (bs : list (list A)) :
  r <> 0%nat -> Forall (fun b => length b = r) bs ->
  chunks (concat bs) r = Ok bs.
Proof.
  intros Hr HS.
  rewrite chunks_value by exact Hr.
  rewrite (length_concat_blocks r bs HS).
  replace ((length bs * r + r - 1) / r)%nat with (length bs)
    by (apply (Nat.div_unique _ _ _ (r - 1)); lia).
  f_equal.
  rewrite <- (map_nth_seq bs []) at 2.
  apply map_ext_in; intros i Hi; apply in_seq in Hi.
  apply block_at; [exact HS | lia].
Qed.

Lemma fold_left_plus (l : list R) (a : R) :
  fold_left Rplus l a = a + np_sum l.
Proof.
  revert a; induction l as [|x l IH]; intros a; simpl; [ring|].
  rewrite IH; ring.
Qed.

(** An array of [r] rows of [c] entries. *)
Lemma mat_add_shape (r c : nat) (a b : list (list R)) :
  shape a = repeat c r -> shape b = repeat c r ->
  shape (mat_add a b) = repeat c r.
Proof.
  unfold shape, mat_add; revert a b; induction r as [|r IH]; intros a b Ha Hb.
  - destruct a; [reflexivity | discriminate].
  - destruct a as [|x a], b as [|y b]; try discriminate.
    cbn [map zip_with repeat] in *.
    injection Ha as Hx Ha; injection Hb as Hy Hb.
    rewrite (IH a b Ha Hb), zip_with_length, Hx, Hy, Nat.min_id; reflexivity.
Qed.

Lemma mat_add_entry (r c : nat) (a b : list (list R)) (i j : nat) :
  shape a = repeat c r -> shape b = repeat c r ->
  (i < r)%nat -> (j < c)%nat ->
  entry (mat_add a b) i j = entry a i j + entry b i j.
Proof.
  intros Ha Hb Hi Hj; unfold entry, mat_add.
  assert (La : length a = r)
    by (rewrite <- (length_map (@length R) a); fold (shape a);
        rewrite Ha; apply repeat_length).
  assert (Lb : length b = r)
    by (rewrite <- (length_map (@length R) b); fold (shape b);
        rewrite Hb; apply repeat_length).
  rewrite (zip_with_nth (zip_with Rplus) a b i [] [] []) by lia.
  assert (Hrow : forall m, shape m = repeat c r -> length (nth i m []) = c).
  { intros m Hm.
    assert (Lm : length m = r)
      by (rewrite <- (length_map (@length R) m); fold (shape m);
          rewrite Hm; apply repeat_length).
    change (length (nth i m [])) with ((fun x => length x) (nth i m [])).
    rewrite <- (map_nth (@length R) m []); fold (shape m); rewrite Hm.
    rewrite (nth_indep _ _ c) by (rewrite repeat_length; lia).
    apply nth_repeat. }
  apply zip_with_nth; rewrite Hrow by assumption; exact Hj.
Qed.

Lemma fold_mat_add (r c : nat) (cs : list (list (list R))) (c0 : list (list R)) :
  shape c0 = repeat c r -> Forall (fun b => shape b = repeat c r) cs ->
  shape (fold_left mat_add cs c0) = repeat c r /\
  forall i j, (i < r)%nat -> (j < c)%nat ->
    entry (fold_left mat_add cs c0) i j =
    entry c0 i j + np_sum (map (fun b => entry b i j) cs).
Proof.
  intros H0 Hcs; revert c0 H0.
  induction Hcs as [|b cs Hb Hcs IH]; intros c0 H0; cbn [fold_left map].
  - split; [exact H0 | intros; simpl; ring].
  - destruct (IH (mat_add c0 b) (mat_add_shape r c c0 b H0 Hb)) as [Hs He].
    split; [exact Hs|].
    intros i j Hi Hj; rewrite (He i j Hi Hj).
    rewrite (mat_add_entry r c c0 b i j H0 Hb Hi Hj).
    simpl; ring.
Qed.

Lemma shape_select (js : list nat) (P : list (list R)) :
  shape (map (fun r => map (fun j => nth j r 0) js) P)
  = repeat (length js) (length P).
Proof.
  unfold shape; induction P as [|x P IH]; [reflexivity|].
  cbn [map length repeat]; rewrite IH, length_map; reflexivity.
Qed.

Lemma entry_select (js : list nat) (P : list (list R)) (i j : nat) :
  (i < length P)%nat -> (j < length js)%nat ->
  entry (map (fun r => map (fun j => nth j r 0) js) P) i j
  = entry P i (nth j js 0%nat).
Proof.
  intros Hi Hj; unfold entry.
  rewrite (nth_indep _ [] (map (fun j => nth j [] 0) js))
    by (rewrite length_map; exact Hi).
  rewrite (map_nth (fun r => map (fun j => nth j r 0) js)).
  rewrite (nth_indep _ 0 (nth 0%nat (nth i P []) 0))
    by (rewrite length_map; exact Hj).
  rewrite (map_nth (fun j => nth j (nth i P []) 0)); reflexivity.
Qed.

Lemma entry_scaled (f : R -> R) (m : list (list R)) (i j : nat) :
  (i < length m)%nat -> (j < length (nth i m []))%nat ->
  entry (map (map f) m) i j = f (entry m i j).
Proof.
  intros Hi Hj; unfold entry.
  rewrite (nth_indep _ [] (map f [])) by (rewrite length_map; exact Hi).
  rewrite (map_nth (map f)).
  rewrite (nth_indep _ 0 (f 0)) by (rewrite length_map; exact Hj).
  apply map_nth.
Qed.

Lemma shape_rows (r c : nat) (m : list (list R)) :
  shape m = repeat c r ->
  length m = r /\ forall i, (i < r)%nat -> length (nth i m []) = c.
Proof.
  intros Hm.
  assert (Lm : length m = r)
    by (rewrite <- (length_map (@length R) m); fold (shape m);
        rewrite Hm; apply repeat_length).
  split; [exact Lm|]; intros i Hi.
  change (length (nth i m [])) with ((fun x => length x) (nth i m [])).
  rewrite <- (map_nth (@length R) m []); fold (shape m); rewrite Hm.
  rewrite (nth_indep _ _ c) by (rewrite repeat_length; lia).
  apply nth_repeat.
Qed.

(** X14. When the table holds the rows of [n >= 1] timesteps of [r >= 1]
    depth levels each, one after the other, and the timestep table has
    [n] rows, the average has [r] rows, and its entry at depth [i] and
    selected column [j] is the sum of that entry over the timesteps
    divided by [n]. *)
Theorem average_is_mean (nc r : nat) (steps : list (list (list R)))
        (tsteps : ndarray2) (vartuple : list Z) (js : list nat) :
  steps <> [] -> (1 <= r)%nat ->
  Forall (fun P => length P = r) steps ->
  nrows tsteps = length steps ->
  column_positions nc vartuple = Ok js ->
  exists M,
    donnee_averaged (mk_ndarray2 nc (concat steps)) tsteps vartuple = Ok M /\
    length M = r /\
    forall i j, (i < r)%nat -> (j < length js)%nat ->
      entry M i j =
      np_sum (map (fun P => entry P i (nth j js 0%nat)) steps)
      / INR (length steps).
Proof.
  intros Hne Hr Hsteps Hts Hcols.
  set (sel := fun row : list R => map (fun j => nth j row 0) js).
  set (blocks := map (map sel) steps).
  assert (Hshape : Forall (fun b => shape b = repeat (length js) r) blocks).
  { unfold blocks; apply Forall_forall; intros b Hb.
    apply in_map_iff in Hb; destruct Hb as (P & <- & HP).
    rewrite Forall_forall in Hsteps.
    unfold sel; rewrite shape_select, (Hsteps P HP); reflexivity. }
  assert (Hn : length steps <> 0%nat) by (destruct steps; [contradiction | discriminate]).
  unfold donnee_averaged, getcols, nrows; cbn [rows ncols].
  unfold nrows in Hts; rewrite Hts.
  destruct (Nat.eqb_spec (length steps) 0); [contradiction|].
  cbn [bind]; rewrite Hcols; cbn [bind].
  rewrite (length_concat_blocks r steps Hsteps).
  rewrite (Nat.mul_comm (length steps) r), Nat.div_mul by exact Hn.
  fold sel; rewrite concat_map; fold blocks.
  rewrite (chunks_blocks r blocks)
    by (try lia; unfold blocks; apply Forall_forall; intros b Hb;
        apply in_map_iff in Hb; destruct Hb as (P & <- & HP);
        rewrite Forall_forall in Hsteps; rewrite length_map; auto).
  cbn [bind].
  destruct blocks as [|c0 cs] eqn:Eb;
    [unfold blocks in Eb; destruct steps; [contradiction | discriminate]|].
  inversion Hshape as [|? ? Hc0 Hcs]; subst.
  unfold mean_axis0.
  replace (forallb (same_shape c0) cs) with true.
  2:{ symmetry; apply forallb_forall; intros b Hb.
      rewrite Forall_forall in Hcs; unfold same_shape.
      rewrite Hc0, (Hcs b Hb).
      destruct (list_eq_dec Nat.eq_dec _ _); [reflexivity | contradiction]. }
  destruct (fold_mat_add r (length js) cs c0 Hc0 Hcs) as [Hs He].
  destruct (shape_rows _ _ _ Hs) as [Lf Lrow].
  eexists; split; [reflexivity|].
  split; [rewrite length_map; exact Lf|].
  intros i j Hi Hj.
  rewrite entry_scaled by (rewrite ?Lrow by exact Hi; lia).
  rewrite (He i j Hi Hj).
  assert (Hl : length (c0 :: cs) = length steps)
    by (rewrite <- Eb; unfold blocks; apply length_map).
  rewrite Hl; f_equal.
  change (entry c0 i j + np_sum (map (fun b => entry b i j) cs))
    with (np_sum (map (fun b => entry b i j) (c0 :: cs))).
  rewrite <- Eb; unfold blocks; rewrite map_map.
  f_equal; apply map_ext_in; intros P HP.
  rewrite Forall_forall in Hsteps.
  apply entry_select; [rewrite (Hsteps P HP); exact Hi | exact Hj].
Qed.

Lemma average_is_mean_witness :
  exists M,
    donnee_averaged
      (mk_ndarray2 2 (concat [[[0; 1]; [0; 2]]; [[0; 3]; [0; 6]]; [[0; 5]; [0; 1]]]))
      (mk_ndarray2 1 [[0]; [1]; [2]]) [1%Z] = Ok M /\
    length M = 2%nat /\
    forall i j, (i < 2)%nat -> (j < 1)%nat ->
      entry M i j =
      np_sum (map (fun P => entry P i (nth j [1%nat] 0%nat))
                  [[[0; 1]; [0; 2]]; [[0; 3]; [0; 6]]; [[0; 5]; [0; 1]]])
      / INR 3.
Proof.
  apply (average_is_mean 2 2
           [[[0; 1]; [0; 2]]; [[0; 3]; [0; 6]]; [[0; 5]; [0; 1]]]
           (mk_ndarray2 1 [[0]; [1]; [2]]) [1%Z] [1%nat]).
  - discriminate.
  - lia.
  - repeat constructor.
  - reflexivity.
  - reflexivity.
Defined.

Lemma column_positions_invalid (n : nat) (cols : list Z) (c : Z) :
  In c cols -> (Z.of_nat n <= c \/ c < - Z.of_nat n)%Z ->
  column_positions n cols = Raise IndexError.
Proof.
  intros Hin Hc; induction cols as [|x cols IH]; [contradiction|].
  cbn [column_positions].
  destruct (index_pos n x) as [j|e] eqn:Ex.
  - cbn [bind].
    destruct Hin as [->|Hin].
    + unfold index_pos in Ex.
      destruct (Z.ltb_spec c 0).
      * destruct (Z.leb_spec 0 (c + Z.of_nat n)); [lia | discriminate].
      * destruct (Z.ltb_spec c (Z.of_nat n)); [lia | discriminate].
    + rewrite (IH Hin); reflexivity.
  - unfold index_pos in Ex.
    destruct (Z.ltb_spec x 0).
    + destruct (Z.leb_spec 0 (x + Z.of_nat n)); [discriminate|].
      injection Ex as <-; reflexivity.
    + destruct (Z.ltb_spec x (Z.of_nat n)); [discriminate|].
      injection Ex as <-; reflexivity.
Qed.

(** X15. The time average raises [ZeroDivisionError] on a timestep table
    without rows, [IndexError] when a selected column is not in the
    table, and [ValueError] when the table has fewer rows than there are
    timesteps (the chunk size is then 0). *)
Theorem average_exceptions (data tsteps : ndarray2) (vartuple : list Z) :
  (nrows tsteps = 0%nat ->
   donnee_averaged data tsteps vartuple = Raise ZeroDivisionError) /\
  (nrows tsteps <> 0%nat ->
   (exists c, In c vartuple /\
      (Z.of_nat (ncols data) <= c \/ c < - Z.of_nat (ncols data))%Z) ->
   donnee_averaged data tsteps vartuple = Raise IndexError) /\
  (nrows tsteps <> 0%nat -> (nrows data < nrows tsteps)%nat ->
   returns (column_positions (ncols data) vartuple) ->
   donnee_averaged data tsteps vartuple = Raise ValueError).
Proof.
  unfold donnee_averaged; repeat split.
  - intros ->; reflexivity.
  - intros Hn (c & Hin & Hc).
    destruct (Nat.eqb_spec (nrows tsteps) 0); [contradiction|].
    cbn [bind]; unfold getcols.
    rewrite (column_positions_invalid _ _ c Hin Hc); reflexivity.
  - intros Hn Hlt [js Hjs].
    destruct (Nat.eqb_spec (nrows tsteps) 0); [contradiction|].
    cbn [bind]; unfold getcols; rewrite Hjs; cbn [bind].
    rewrite Nat.div_small by exact Hlt.
    reflexivity.
Qed.

Lemma average_exceptions_witness :
  donnee_averaged (mk_ndarray2 2 [[1; 2]]) (mk_ndarray2 1 []) [1%Z]
  = Raise ZeroDivisionError /\
  donnee_averaged (mk_ndarray2 2 [[1; 2]]) (mk_ndarray2 1 [[0]]) [2%Z]
  = Raise IndexError /\
  donnee_averaged (mk_ndarray2 2 [[1; 2]]) (mk_ndarray2 1 [[0]; [1]]) [1%Z]
  = Raise ValueError.
Proof.
  destruct (average_exceptions (mk_ndarray2 2 [[1; 2]]) (mk_ndarray2 1 []) [1%Z])
    as (H1 & _ & _).
  destruct (average_exceptions (mk_ndarray2 2 [[1; 2]]) (mk_ndarray2 1 [[0]]) [2%Z])
    as (_ & H2 & _).
  destruct (average_exceptions (mk_ndarray2 2 [[1; 2]])
              (mk_ndarray2 1 [[0]; [1]]) [1%Z]) as (_ & _ & H3).
  split; [apply H1; reflexivity|].
  split.
  - apply H2; [discriminate|].
    exists 2%Z; split; [left; reflexivity | left; simpl; lia].
  - apply H3; [discriminate | unfold nrows; simpl; lia|].
    eexists; reflexivity.
Defined.

(** ** The theoretical profile in its physical regime *)

(** X16. The divisions of [rsup] are not guarded: a zero eutectic
    concentration, or a partition coefficient of 1, raises
    [ZeroDivisionError], in [rsup] and in every call of [initprof]. *)
Theorem rsup_unguarded (p : theory) (rpos : R) :
  xieut p = 0 \/ k_fe p = 1 ->
  rsup p = Raise ZeroDivisionError /\
  initprof p rpos = Raise ZeroDivisionError.
Proof.
  intros Hz.
  assert (E : rsup p = Raise ZeroDivisionError).
  { unfold rsup.
    destruct (Req_dec_T (xieut p) 0) as [E0|N0].
    - rewrite E0, pydiv_zero; reflexivity.
    - rewrite pydiv_ok by exact N0; cbn [bind].
      destruct Hz as [Hz|Hz]; [contradiction|].
      rewrite Hz; replace (1 - 1) with 0 by ring.
      rewrite pydiv_zero; reflexivity. }
  split; [exact E|].
  unfold initprof; rewrite E; reflexivity.
Qed.

Lemma rsup_unguarded_witness :
  rsup (mk_theory 1 1 (1 / 2) 1 2) = Raise ZeroDivisionError /\
  initprof (mk_theory 1 1 (1 / 2) 1 2) (3 / 2) = Raise ZeroDivisionError.
Proof.
  apply (rsup_unguarded (mk_theory 1 1 (1 / 2) 1 2) (3 / 2)).
  right; reflexivity.
Defined.

Lemma Rpower_one (y : R) : Rpower 1 y = 1.
Proof. unfold Rpower; rewrite ln_1, Rmult_0_r; apply exp_0. Qed.

Lemma Rpower_below_one (x e : R) : 0 < x < 1 -> 0 < e -> Rpower x e < 1.
Proof.
  intros [Hx0 Hx1] He; unfold Rpower.
  rewrite <- exp_0; apply exp_increasing.
  assert (ln x < 0) by (rewrite <- ln_1; apply ln_increasing; lra).
  nra.
Qed.

Lemma cube_le (a b : R) : a <= b -> a ^ 3 <= b ^ 3.
Proof.
  intros H; destruct H as [H|H];
    [apply Rlt_le, cube_increasing; exact H | subst; lra].
Qed.

Lemma cube_lt_inv (a b : R) : a ^ 3 < b ^ 3 -> a < b.
Proof.
  intros H; destruct (Rlt_dec a b) as [|Hn]; [assumption|].
  pose proof (cube_le b a) as Hc; lra.
Qed.

Section Regime.

Variable p : theory.
Hypothesis radii : 0 <= rmin p < rmax p.
Hypothesis liquid : 0 < xi0l p < xieut p.
Hypothesis partition : 0 <= k_fe p < 1.

Lemma regime_radicand : rmin p ^ 3 < radicand p < rmax p ^ 3.
Proof.
  unfold radicand.
  assert (Hshell : rmin p ^ 3 < rmax p ^ 3) by (apply cube_increasing; lra).
  pose proof (Rpower_positive (xi0l p / xieut p) (1 / (1 - k_fe p))) as Hpos.
  assert (Hone : Rpower (xi0l p / xieut p) (1 / (1 - k_fe p)) < 1).
  { apply Rpower_below_one.
    - split; [apply Rdiv_lt_0_compat; lra|].
      apply (Rmult_lt_reg_r (xieut p)); [lra|].
      unfold Rdiv; rewrite Rmult_assoc, Rinv_l by lra; lra.
    - apply Rdiv_lt_0_compat; lra. }
  nra.
Qed.

Lemma regime_radicand_pos : 0 < radicand p.
Proof.
  pose proof regime_radicand as [H _].
  assert (0 <= rmin p ^ 3) by (apply pow_le; lra).
  lra.
Qed.

Lemma regime_rsup_between : rmin p < rsup_root p < rmax p.
Proof.
  pose proof regime_radicand as [Hlo Hhi].
  pose proof (cube_of_cube_root (radicand p) regime_radicand_pos) as Hc.
  fold (rsup_root p) in Hc.
  split; apply cube_lt_inv; rewrite Hc; assumption.
Qed.

(** X17. With [0 <= rmin < rmax], an initial liquid below the eutectic
    concentration and a partition coefficient in [[0, 1)], [rsup] lies
    strictly between [rmin] and [rmax], and the profile starts at
    [rmin] with the concentration [xi0s = k_fe * xi0l] of the first
    solid. *)
Theorem initprof_regime :
  exists rs, rsup p = Ok rs /\ rmin p < rs < rmax p /\
             initprof p (rmin p) = Ok (xi0s p).
Proof.
  pose proof regime_rsup_between as Hrs.
  assert (He : 0 < xieut p) by lra.
  assert (Hl : 0 < xi0l p) by lra.
  assert (Hk : k_fe p <> 1) by lra.
  assert (Hr : rmin p < rmax p) by lra.
  exists (rsup_root p).
  split; [apply rsup_value; auto using regime_radicand_pos|].
  split; [exact Hrs|].
  assert (Hbelow : initprof p (rmin p) = Ok (powerlaw_value p (rmin p)))
    by (apply initprof_branches; auto using regime_radicand_pos; lra).
  rewrite Hbelow.
  unfold powerlaw_value.
  assert (Hshell : rmin p ^ 3 < rmax p ^ 3) by (apply cube_increasing; lra).
  replace ((rmax p ^ 3 - rmin p ^ 3) / (rmax p ^ 3 - rmin p ^ 3)) with 1
    by (field; lra).
  rewrite Rpower_one; f_equal; ring.
Qed.

Lemma powerlaw_value_monotone (r r' : R) :
  r <= r' -> r' <= rsup_root p -> powerlaw_value p r <= powerlaw_value p r'.
Proof.
  intros Hrr Hr'.
  assert (He : 0 < xieut p) by lra.
  assert (Hl : 0 < xi0l p) by lra.
  assert (Hk : k_fe p <> 1) by lra.
  assert (Hr : rmin p < rmax p) by lra.
  assert (Hs : 0 < rmax p ^ 3 - rsup_root p ^ 3)
    by (apply shell_positive; auto using regime_radicand_pos).
  pose proof (cube_le _ _ Hrr) as Hc.
  pose proof (cube_le _ _ Hr') as Hc'.
  assert (Hshell : rmin p ^ 3 < rmax p ^ 3) by (apply cube_increasing; lra).
  unfold powerlaw_value, xi0s.
  apply Rmult_le_compat_l; [apply Rmult_le_pos; lra|].
  apply Rle_Rpower_l; [lra|].
  split; [apply Rdiv_lt_0_compat; lra|].
  unfold Rdiv; apply Rmult_le_compat_l; [lra|].
  apply Rinv_le_contravar; lra.
Qed.

(** X18. In the same regime the profile never decreases with the radius
    and never exceeds the eutectic concentration. *)
Theorem initprof_monotone (r r' : R) :
  r <= r' ->
  exists v v', initprof p r = Ok v /\ initprof p r' = Ok v' /\
               v <= v' /\ v' <= xieut p.
Proof.
  intros Hrr.
  assert (He : 0 < xieut p) by lra.
  assert (Hl : 0 < xi0l p) by lra.
  assert (Hk : k_fe p <> 1) by lra.
  assert (Hr : rmin p < rmax p) by lra.
  assert (Hb : forall x,
            (x < rsup_root p -> initprof p x = Ok (powerlaw_value p x)) /\
            (rsup_root p <= x -> initprof p x = Ok (xieut p)))
    by (intros x; apply initprof_branches; auto using regime_radicand_pos).
  assert (Hat : powerlaw_value p (rsup_root p) = k_fe p * xieut p)
    by (apply powerlaw_at_rsup; auto using regime_radicand_pos).
  assert (Hjump : k_fe p * xieut p <= xieut p) by nra.
  destruct (Rlt_dec r' (rsup_root p)) as [Hr'|Hr'].
  - exists (powerlaw_value p r), (powerlaw_value p r').
    split; [apply Hb; lra|]. split; [apply Hb; lra|].
    split; [apply powerlaw_value_monotone; lra|].
    pose proof (powerlaw_value_monotone r' (rsup_root p)); lra.
  - destruct (Rlt_dec r (rsup_root p)) as [Hr0|Hr0].
    + exists (powerlaw_value p r), (xieut p).
      split; [apply Hb; lra|]. split; [apply Hb; lra|].
      pose proof (powerlaw_value_monotone r (rsup_root p)); lra.
    + exists (xieut p), (xieut p).
      split; [apply Hb; lra|]. split; [apply Hb; lra|]. lra.
Qed.

End Regime.

Lemma initprof_regime_witness :
  exists rs, rsup half_partition = Ok rs /\
             rmin half_partition < rs < rmax half_partition /\
             initprof half_partition (rmin half_partition)
             = Ok (xi0s half_partition).
Proof.
  apply (initprof_regime half_partition); simpl; lra.
Defined.

Lemma initprof_monotone_witness :
  exists v v', initprof half_partition 1 = Ok v /\
               initprof half_partition (3 / 2) = Ok v' /\
               v <= v' /\ v' <= xieut half_partition.
Proof.
  apply (initprof_monotone half_partition); simpl; lra.
Defined.

(** ** The overturned radius *)

Lemma cube_root_of_cube (r : R) : 0 <= r -> np_power_third (r ^ 3) = Some r.
Proof.
  intros Hr; unfold np_power_third.
  destruct (Rlt_dec 0 (r ^ 3)) as [Hpos|Hnp].
  - f_equal.
    assert (H0 : 0 < r).
    { destruct Hr as [Hr|<-]; [exact Hr|].
      replace (0 ^ 3) with 0 in Hpos by ring; lra. }
    pose proof (cube_of_cube_root (r ^ 3) Hpos) as Hc.
    pose proof (Rpower_positive (r ^ 3) (1 / 3)) as Hp.
    destruct (Rtotal_order (Rpower (r ^ 3) (1 / 3)) r) as [Hlt|[Heq|Hgt]];
      [|exact Heq|].
    + pose proof (cube_increasing _ _ Hlt); lra.
    + pose proof (cube_increasing _ _ Hgt); lra.
  - assert (r = 0).
    { destruct Hr as [Hr|<-]; [|reflexivity].
      assert (0 < r ^ 3) by (apply pow_lt; exact Hr); contradiction. }
    subst r; replace (0 ^ 3) with 0 by ring.
    destruct (Req_dec_T 0 0); [reflexivity | contradiction].
Qed.

Lemma cube_root_exists (x : R) :
  0 <= x -> exists y, np_power_third x = Some y /\ 0 <= y /\ y ^ 3 = x.
Proof.
  intros Hx; unfold np_power_third.
  destruct (Rlt_dec 0 x) as [Hpos|Hnp].
  - exists (Rpower x (1 / 3)); split; [reflexivity|].
    split; [apply Rlt_le, Rpower_positive | apply cube_of_cube_root; exact Hpos].
  - assert (x = 0) by lra; subst x.
    destruct (Req_dec_T 0 0); [|contradiction].
    exists 0; split; [reflexivity|]; split; [lra | ring].
Qed.

(** X19. For [0 <= rmin <= radius <= rmax] the overturned radius is a
    number of the same range, with as much shell volume below it as
    there is above [radius]; overturning it gives [radius] back, and the
    two end radii are exchanged. *)
Theorem rfin_mirror (rmin rmax radius : R) :
  0 <= rmin -> rmin <= radius <= rmax ->
  exists r',
    rfin rmin rmax radius = Some r' /\
    rmin <= r' <= rmax /\
    r' ^ 3 - rmin ^ 3 = rmax ^ 3 - radius ^ 3 /\
    rfin rmin rmax r' = Some radius /\
    (radius = rmin -> r' = rmax) /\ (radius = rmax -> r' = rmin).
Proof.
  intros Hmin [Hlo Hhi].
  pose proof (cube_le _ _ Hlo) as Clo.
  pose proof (cube_le _ _ Hhi) as Chi.
  assert (C0 : 0 <= rmin ^ 3) by (apply pow_le; exact Hmin).
  destruct (cube_root_exists (rmax ^ 3 + rmin ^ 3 - radius ^ 3))
    as (r' & E & Hr' & Hcube); [lra|].
  assert (Hbounds : rmin <= r' <= rmax).
  { split.
    - destruct (Rle_dec rmin r') as [|Hn]; [assumption|].
      assert (r' ^ 3 < rmin ^ 3) by (apply cube_increasing; lra). lra.
    - destruct (Rle_dec r' rmax) as [|Hn]; [assumption|].
      assert (rmax ^ 3 < r' ^ 3) by (apply cube_increasing; lra). lra. }
  exists r'; unfold rfin; split; [exact E|].
  split; [exact Hbounds|]. split; [lra|]. split.
  - replace (rmax ^ 3 + rmin ^ 3 - r' ^ 3) with (radius ^ 3) by lra.
    apply cube_root_of_cube; lra.
  - split; intros ->.
    + destruct (Rtotal_order r' rmax) as [Hlt|[Heq|Hgt]]; [|exact Heq|].
      * pose proof (cube_increasing _ _ Hlt); lra.
      * lra.
    + destruct (Rtotal_order r' rmin) as [Hlt|[Heq|Hgt]]; [|exact Heq|].
      * lra.
      * pose proof (cube_increasing _ _ Hgt); lra.
Qed.

Lemma rfin_mirror_witness :
  exists r',
    rfin 1 2 (3 / 2) = Some r' /\ 1 <= r' <= 2 /\
    r' ^ 3 - 1 ^ 3 = 2 ^ 3 - (3 / 2) ^ 3 /\
    rfin 1 2 r' = Some (3 / 2) /\
    (3 / 2 = 1 -> r' = 2) /\ (3 / 2 = 2 -> r' = 1).
Proof.
  apply (rfin_mirror 1 2 (3 / 2)); lra.
Defined.

(** Outside the shell, above a radius whose cube is the sum of the end
    cubes, the overturned radius is NaN. *)
Example rfin_nan : rfin 1 2 3 = None.
Proof.
  unfold rfin, np_power_third.
  destruct (Rlt_dec 0 (2 ^ 3 + 1 ^ 3 - 3 ^ 3)); [lra|].
  destruct (Req_dec_T (2 ^ 3 + 1 ^ 3 - 3 ^ 3) 0); [lra | reflexivity].
Qed.

(** ** The difference series *)

Lemma fold_min_spec (l : list R) (x : R) :
  let m := fold_left (fun m y => if Rlt_dec y m then y else m) l x in
  In m (x :: l) /\ forall y, In y (x :: l) -> m <= y.
Proof.
  revert x; induction l as [|z l IH]; intros x; cbn [fold_left].
  - split; [left; reflexivity|]; intros y [<-|[]]; lra.
  - destruct (Rlt_dec z x) as [Hlt|Hge].
    + destruct (IH z) as [Hin Hle]; split.
      * destruct Hin as [<-|Hin]; [right; left; reflexivity | right; right; exact Hin].
      * intros y [<-|[<-|Hy]].
        -- pose proof (Hle z (or_introl eq_refl)); lra.
        -- apply Hle; left; reflexivity.
        -- apply Hle; right; exact Hy.
    + destruct (IH x) as [Hin Hle]; split.
      * destruct Hin as [<-|Hin]; [left; reflexivity | right; right; exact Hin].
      * intros y [<-|[<-|Hy]].
        -- apply Hle; left; reflexivity.
        -- pose proof (Hle x (or_introl eq_refl)); lra.
        -- apply Hle; right; exact Hy.
Qed.

Lemma fold_max_spec (l : list R) (x : R) :
  let m := fold_left (fun m y => if Rlt_dec m y then y else m) l x in
  In m (x :: l) /\ forall y, In y (x :: l) -> y <= m.
Proof.
  revert x; induction l as [|z l IH]; intros x; cbn [fold_left].
  - split; [left; reflexivity|]; intros y [<-|[]]; lra.
  - destruct (Rlt_dec x z) as [Hlt|Hge].
    + destruct (IH z) as [Hin Hle]; split.
      * destruct Hin as [<-|Hin]; [right; left; reflexivity | right; right; exact Hin].
      * intros y [<-|[<-|Hy]].
        -- pose proof (Hle z (or_introl eq_refl)); lra.
        -- apply Hle; left; reflexivity.
        -- apply Hle; right; exact Hy.
    + destruct (IH x) as [Hin Hle]; split.
      * destruct Hin as [<-|Hin]; [left; reflexivity | right; right; exact Hin].
      * intros y [<-|[<-|Hy]].
        -- apply Hle; left; reflexivity.
        -- pose proof (Hle x (or_introl eq_refl)); lra.
        -- apply Hle; right; exact Hy.
Qed.

(** The first place of an element of the list. *)
Lemma float_index_spec (x : R) (l : list R) :
  In x l ->
  exists i, float_index x l = Ok (Z.of_nat i) /\ (i < length l)%nat /\
            nth i l 0 = x /\ forall j, (j < i)%nat -> nth j l 0 <> x.
Proof.
  induction l as [|y l IH]; intros Hin; [contradiction|].
  cbn [float_index].
  destruct (Req_dec_T y x) as [->|Hne].
  - exists 0%nat; repeat split; [simpl; lia | intros j Hj; lia].
  - destruct Hin as [Heq|Hin]; [contradiction|].
    destruct (IH Hin) as (i & E & Hi & Hnth & Hfirst).
    exists (S i); rewrite E; cbn [bind].
    repeat split.
    + f_equal; lia.
    + simpl; lia.
    + exact Hnth.
    + intros [|j] Hj; cbn [nth]; [exact Hne | apply Hfirst; lia].
Qed.

(** X20. On a series of differences that is not empty, with a time for
    every place the series can name, [difference_minimum] returns the
    first place of the least difference: no difference is smaller, every
    earlier one is larger; and the relative value it returns is at most
    1 when the first difference is positive. *)
Theorem difference_minimum_first_least (dif times : list R) (istep : Z) :
  dif <> [] ->
  (forall i, (i < length dif)%nat ->
             returns (getitem times (Z.of_nat i * istep))) ->
  exists t ratio imin,
    difference_minimum dif times istep = Ok (t, ratio, Z.of_nat imin) /\
    (imin < length dif)%nat /\
    (forall j, (j < length dif)%nat -> sample dif imin <= sample dif j) /\
    (forall j, (j < imin)%nat -> sample dif imin < sample dif j) /\
    ratio = sample dif imin / sample dif 0 /\
    (0 < sample dif 0 -> ratio <= 1).
Proof.
  intros Hne Htimes.
  destruct dif as [|x l]; [contradiction|].
  set (dif := x :: l) in *.
  pose proof (fold_min_spec l x) as Hmin; cbv zeta in Hmin.
  set (m := fold_left _ l x) in Hmin; destruct Hmin as [Hin Hle].
  destruct (float_index_spec m dif Hin) as (i & Ei & Hi & Hnth & Hfirst).
  destruct (Htimes i Hi) as [t Et].
  assert (Hall : forall j, (j < length dif)%nat -> sample dif i <= sample dif j).
  { intros j Hj; unfold sample; rewrite Hnth; apply Hle, nth_In; exact Hj. }
  exists t, (sample dif i / sample dif 0), i.
  split.
  - unfold difference_minimum, py_min, dif at 1.
    cbn [bind]; fold m; fold dif; rewrite Ei; cbn [bind].
    rewrite Et; cbn [bind].
    rewrite (getitem_nonneg dif (Z.of_nat i) 0) by lia.
    rewrite (getitem_nonneg dif 0 0) by (simpl; lia).
    cbn [bind]; rewrite Nat2Z.id; reflexivity.
  - split; [exact Hi|]. split; [exact Hall|]. split.
    + intros j Hj.
      assert (sample dif i <= sample dif j) by (apply Hall; lia).
      assert (sample dif j <> sample dif i)
        by (unfold sample; rewrite Hnth; apply Hfirst; exact Hj).
      lra.
    + split; [reflexivity|].
      intros Hpos.
      assert (sample dif i <= sample dif 0) by (apply Hall; simpl; lia).
      apply (Rmult_le_reg_r (sample dif 0)); [exact Hpos|].
      unfold Rdiv; rewrite Rmult_assoc, Rinv_l by lra; lra.
Qed.

Lemma difference_minimum_first_least_witness :
  exists t ratio imin,
    difference_minimum [4; 1; 3; 1] [0; 10; 20; 30; 40; 50; 60] 2
    = Ok (t, ratio, Z.of_nat imin) /\
    (imin < 4)%nat /\
    (forall j, (j < 4)%nat ->
               sample [4; 1; 3; 1] imin <= sample [4; 1; 3; 1] j) /\
    (forall j, (j < imin)%nat ->
               sample [4; 1; 3; 1] imin < sample [4; 1; 3; 1] j) /\
    ratio = sample [4; 1; 3; 1] imin / sample [4; 1; 3; 1] 0 /\
    (0 < sample [4; 1; 3; 1] 0 -> ratio <= 1).
Proof.
  apply (difference_minimum_first_least
           [4; 1; 3; 1] [0; 10; 20; 30; 40; 50; 60] 2).
  - discriminate.
  - intros i Hi; simpl in Hi.
    destruct i as [|[|[|[|i]]]]; try lia; eexists; reflexivity.
Defined.

(** Without differences there is no least one. *)
Example difference_minimum_empty :
  difference_minimum [] [0; 1] 1 = Raise ValueError.
Proof. reflexivity. Qed.

(** An index from [-len] to [len - 1] designates an element. *)
Lemma getitem_valid {A : Type} (l : list A) (i : Z) :
  (- Z.of_nat (length l) <= i < Z.of_nat (length l))%Z ->
  exists x, getitem l i = Ok x /\ In x l.
Proof.
  intros Hi; destruct l as [|d l]; [simpl in Hi; lia|].
  set (m := d :: l) in *.
  destruct (Z_lt_le_dec i 0) as [Hneg|Hpos].
  - exists (nth (length m - Z.to_nat (- i)) m d); split.
    + replace i with (- Z.of_nat (Z.to_nat (- i)))%Z at 1 by lia.
      apply getitem_from_end; lia.
    + apply nth_In; lia.
  - exists (nth (Z.to_nat i) m d); split.
    + apply getitem_nonneg; lia.
    + apply nth_In; lia.
Qed.

(** X21. Whenever [growth_rate] returns, [wma] is the greatest velocity
    of the series and [iwm] its first place.  With [w0] the first
    velocity, [w] the velocity and [t] the time at the index [iwm - 3]
    (an index below 0 counts from the end): when [w0] and [t] are not 0
    the rate [sigma] is the finite number for which
    [w0 * exp (sigma * t) = w]; when [w0] is 0 the rate is an infinity
    for [w > 0] and NaN for [w = 0], and no exception is raised; when [t]
    is 0 the rate is not finite either.  And [growth_rate] does return on
    a series of at least three positive velocities with a time for each
    of them. *)
Theorem growth_rate_fits (wmax times : list R) :
  (forall wma iwm sigma,
     growth_rate wmax times = Ok (wma, iwm, sigma) ->
     (forall y, In y wmax -> y <= wma) /\
     getitem wmax iwm = Ok wma /\
     exists w w0 t,
       getitem wmax (iwm - 3) = Ok w /\ getitem wmax 0 = Ok w0 /\
       getitem times (iwm - 3) = Ok t /\
       (w0 <> 0 -> t <> 0 ->
        exists s, sigma = Finite s /\ w0 * exp (s * t) = w) /\
       (w0 = 0 -> 0 < w ->
        sigma = if Rlt_dec t 0 then MinusInf else PlusInf) /\
       (w0 = 0 -> w <= 0 -> w = 0 /\ sigma = NaN) /\
       (t = 0 -> forall s, sigma <> Finite s)) /\
  ((3 <= length wmax <= length times)%nat ->
   (forall y, In y wmax -> 0 < y) ->
   returns (growth_rate wmax times)).
Proof.
  split.
  - intros wma iwm sigma; unfold growth_rate; intros H.
    destruct wmax as [|x l]; [discriminate|].
    set (ws := x :: l) in *.
    pose proof (fold_max_spec l x) as Hmax; cbv zeta in Hmax.
    unfold py_max, ws at 1 in H; cbn [bind] in H.
    set (m := fold_left _ l x) in *; destruct Hmax as [Hin Hle].
    destruct (float_index_spec m ws Hin) as (i & Ei & Hi & Hnth & _).
    rewrite Ei in H; cbn [bind] in H.
    destruct (getitem ws (Z.of_nat i - 3)) as [w|] eqn:Ew; [|discriminate].
    destruct (getitem ws 0) as [w0|] eqn:Ew0; [|discriminate].
    cbn [bind] in H.
    destruct (math_log (np_divide w w0)) as [lg|] eqn:El; [|discriminate].
    cbn [bind] in H.
    destruct (getitem times (Z.of_nat i - 3)) as [t|] eqn:Et; [|discriminate].
    cbn [bind] in H.
    injection H as <- <- <-.
    split; [exact Hle|]. split.
    { rewrite (getitem_nonneg ws (Z.of_nat i) 0) by lia.
      rewrite Nat2Z.id, Hnth; reflexivity. }
    exists w, w0, t.
    split; [first [exact Ew | reflexivity]|].
    split; [first [exact Ew0 | reflexivity]|].
    split; [first [exact Et | reflexivity]|].
    unfold np_divide, math_log in El.
    destruct (Req_dec_T w0 0) as [Hz|Hnz].
    + (* the first velocity is 0 *)
      destruct (Rlt_dec 0 w) as [Hw|Hw].
      * injection El as <-; cbn [np_divide_by].
        split; [intros; contradiction|].
        split; [intros _ _; reflexivity|].
        split; [intros _ Hle0; lra|].
        intros _ s; destruct (Rlt_dec t 0); discriminate.
      * destruct (Rlt_dec w 0) as [Hw'|Hw']; [discriminate|].
        injection El as <-; cbn [np_divide_by].
        split; [intros; contradiction|].
        split; [intros _ Hpos; lra|].
        split; [intros _ _; split; [lra | reflexivity]|].
        intros _ s; discriminate.
    + destruct (Rlt_dec 0 (w / w0)) as [Hpos|]; [|discriminate].
      injection El as <-; cbn [np_divide_by]; unfold np_divide.
      split.
      * intros _ Ht; destruct (Req_dec_T t 0); [contradiction|].
        exists (ln (w / w0) / t); split; [reflexivity|].
        replace (ln (w / w0) / t * t) with (ln (w / w0)) by (field; exact Ht).
        rewrite exp_ln by exact Hpos.
        field; exact Hnz.
      * split; [intros; contradiction|].
        split; [intros; contradiction|].
        intros Ht s; destruct (Req_dec_T t 0); [|contradiction].
        destruct (Rlt_dec 0 (ln (w / w0))); [discriminate|].
        destruct (Rlt_dec (ln (w / w0)) 0); discriminate.
  - intros [Hthree Htimes] Hpos; unfold growth_rate.
    destruct wmax as [|x l]; [simpl in Hthree; lia|].
    set (ws := x :: l) in *.
    pose proof (fold_max_spec l x) as Hmax; cbv zeta in Hmax.
    unfold py_max, ws at 1; cbn [bind].
    set (m := fold_left _ l x) in *; destruct Hmax as [Hin _].
    destruct (float_index_spec m ws Hin) as (i & Ei & Hi & _).
    rewrite Ei; cbn [bind].
    destruct (getitem_valid ws (Z.of_nat i - 3)) as (w & Ew & Hw); [lia|].
    destruct (getitem_valid ws 0) as (w0 & Ew0 & Hw0); [lia|].
    destruct (getitem_valid times (Z.of_nat i - 3)) as (t & Et & _); [lia|].
    rewrite Ew; cbn [bind]; rewrite Ew0; cbn [bind].
    pose proof (Hpos w Hw) as Pw; pose proof (Hpos w0 Hw0) as Pw0.
    unfold np_divide, math_log.
    destruct (Req_dec_T w0 0); [lra|].
    destruct (Rlt_dec 0 (w / w0)) as [|Hn];
      [|exfalso; apply Hn, Rdiv_lt_0_compat; assumption].
    cbn [bind]; rewrite Et; cbn [bind].
    eexists; reflexivity.
Qed.

Lemma growth_rate_fits_witness :
  ((forall y, In y [1; 2; 4; 8; 16] -> y <= 16) /\
   getitem [1; 2; 4; 8; 16] 4 = Ok 16 /\
   exists w w0 t,
     getitem [1; 2; 4; 8; 16] (4 - 3) = Ok w /\
     getitem [1; 2; 4; 8; 16] 0 = Ok w0 /\
     getitem [0; 1; 2; 3; 4] (4 - 3) = Ok t /\
     (w0 <> 0 -> t <> 0 ->
      exists s, Finite (ln (2 / 1) / 1) = Finite s /\ w0 * exp (s * t) = w) /\
     (w0 = 0 -> 0 < w ->
      Finite (ln (2 / 1) / 1) = if Rlt_dec t 0 then MinusInf else PlusInf) /\
     (w0 = 0 -> w <= 0 -> w = 0 /\ Finite (ln (2 / 1) / 1) = NaN) /\
     (t = 0 -> forall s, Finite (ln (2 / 1) / 1) <> Finite s)) /\
  returns (growth_rate [1; 2; 4; 8; 16] [0; 1; 2; 3; 4]).
Proof.
  destruct (growth_rate_fits [1; 2; 4; 8; 16] [0; 1; 2; 3; 4]) as [Hfit Hret].
  split.
  - apply (Hfit 16 4%Z (Finite (ln (2 / 1) / 1))).
    assert (Hm : py_max [1; 2; 4; 8; 16] = Ok 16).
    { unfold py_max; cbn [fold_left].
      destruct (Rlt_dec 1 2); [|lra]. destruct (Rlt_dec 2 4); [|lra].
      destruct (Rlt_dec 4 8); [|lra]. destruct (Rlt_dec 8 16); [|lra].
      reflexivity. }
    assert (Hi : float_index 16 [1; 2; 4; 8; 16] = Ok 4%Z).
    { cbn [float_index].
      destruct (Req_dec_T 1 16); [lra|]. destruct (Req_dec_T 2 16); [lra|].
      destruct (Req_dec_T 4 16); [lra|]. destruct (Req_dec_T 8 16); [lra|].
      destruct (Req_dec_T 16 16); [|lra].
      reflexivity. }
    unfold growth_rate; rewrite Hm; cbn [bind]; rewrite Hi; cbn [bind].
    change (4 - 3)%Z with 1%Z.
    rewrite (getitem_nonneg [1; 2; 4; 8; 16] 1 0) by (simpl; lia).
    rewrite (getitem_nonneg [1; 2; 4; 8; 16] 0 0) by (simpl; lia).
    rewrite (getitem_nonneg [0; 1; 2; 3; 4] 1 0) by (simpl; lia).
    change (Z.to_nat 1) with 1%nat; change (Z.to_nat 0) with 0%nat.
    cbn [bind nth].
    unfold np_divide, math_log.
    destruct (Req_dec_T 1 0); [lra|].
    destruct (Rlt_dec 0 (2 / 1)); [|lra].
    cbn [bind np_divide_by]; unfold np_divide.
    destruct (Req_dec_T 1 0); [lra|].
    reflexivity.
  - apply Hret; [simpl; lia|].
    intros y Hy; simpl in Hy.
    destruct Hy as [<-|[<-|[<-|[<-|[<-|[]]]]]]; lra.
Defined.

(** When the greatest velocity is among the first three of the series,
    the index [iwm - 3] is negative and the sample is taken from the end
    of the series: here the last but one. *)
Example growth_rate_wraps :
  growth_rate [1; 27; 3; 9; 1] [0; 1; 2; 3; 4]
  = Ok (27, 1%Z, Finite (ln (9 / 1) / 3)).
Proof.
  assert (Hm : py_max [1; 27; 3; 9; 1] = Ok 27).
  { unfold py_max; cbn [fold_left].
    destruct (Rlt_dec 1 27); [|lra]. destruct (Rlt_dec 27 3); [lra|].
    destruct (Rlt_dec 27 9); [lra|]. destruct (Rlt_dec 27 1); [lra|].
    reflexivity. }
  assert (Hi : float_index 27 [1; 27; 3; 9; 1] = Ok 1%Z).
  { cbn [float_index].
    destruct (Req_dec_T 1 27); [lra|]. destruct (Req_dec_T 27 27); [|lra].
    reflexivity. }
  unfold growth_rate; rewrite Hm; cbn [bind]; rewrite Hi; cbn [bind].
  change (1 - 3)%Z with (- Z.of_nat 2)%Z.
  rewrite (getitem_from_end [1; 27; 3; 9; 1] 2 0) by (simpl; lia).
  rewrite (getitem_nonneg [1; 27; 3; 9; 1] 0 0) by (simpl; lia).
  rewrite (getitem_from_end [0; 1; 2; 3; 4] 2 0) by (simpl; lia).
  change (Z.to_nat 0) with 0%nat.
  cbn [bind length Nat.sub nth].
  unfold np_divide, math_log.
  destruct (Req_dec_T 1 0); [lra|].
  destruct (Rlt_dec 0 (9 / 1)); [|lra].
  cbn [bind np_divide_by]; unfold np_divide.
  destruct (Req_dec_T 3 0); [lra|].
  reflexivity.
Qed.

(** A first velocity of 0 raises nothing: the quotient is an infinity,
    and so are its logarithm and the rate. *)
Example growth_rate_zero_start :
  growth_rate [0; 1; 2; 4; 8] [0; 1; 2; 3; 4] = Ok (8, 4%Z, PlusInf).
Proof.
  assert (Hm : py_max [0; 1; 2; 4; 8] = Ok 8).
  { unfold py_max; cbn [fold_left].
    destruct (Rlt_dec 0 1); [|lra]. destruct (Rlt_dec 1 2); [|lra].
    destruct (Rlt_dec 2 4); [|lra]. destruct (Rlt_dec 4 8); [|lra].
    reflexivity. }
  assert (Hi : float_index 8 [0; 1; 2; 4; 8] = Ok 4%Z).
  { cbn [float_index].
    destruct (Req_dec_T 0 8); [lra|]. destruct (Req_dec_T 1 8); [lra|].
    destruct (Req_dec_T 2 8); [lra|]. destruct (Req_dec_T 4 8); [lra|].
    destruct (Req_dec_T 8 8); [|lra].
    reflexivity. }
  unfold growth_rate; rewrite Hm; cbn [bind]; rewrite Hi; cbn [bind].
  change (4 - 3)%Z with 1%Z.
  rewrite (getitem_nonneg [0; 1; 2; 4; 8] 1 0) by (simpl; lia).
  rewrite (getitem_nonneg [0; 1; 2; 4; 8] 0 0) by (simpl; lia).
  rewrite (getitem_nonneg [0; 1; 2; 3; 4] 1 0) by (simpl; lia).
  change (Z.to_nat 1) with 1%nat; change (Z.to_nat 0) with 0%nat.
  cbn [bind nth].
  unfold np_divide, math_log.
  destruct (Req_dec_T 0 0); [|lra].
  destruct (Rlt_dec 0 1); [|lra].
  cbn [bind np_divide_by].
  destruct (Rlt_dec 1 0); [lra|].
  reflexivity.
Qed.

(** ** Figure file names: one name for each selection of timesteps *)

(** [str] is one-to-one: the decimal numeral determines the integer. *)
Lemma str_injective (a b : Z) : str a = str b -> a = b.
Proof.
  assert (Hn : forall z, Z.to_int z <> Decimal.Pos Decimal.Nil /\
                         Z.to_int z <> Decimal.Neg Decimal.Nil).
  { intros z; split; intros H;
      assert (Hz : z = 0%Z)
        by (rewrite <- (DecimalZ.of_to z), H; reflexivity);
      subst z; discriminate H. }
  unfold str; intros H.
  apply (f_equal NilZero.int_of_string) in H.
  rewrite !NilZero.isi in H by apply Hn.
  injection H as H; apply DecimalZ.to_int_inj; exact H.
Qed.

(** A decimal numeral holds no underscore. *)
Lemma digits_no_underscore (d : Decimal.uint) (c : ascii) :
  In c (list_ascii_of_string (NilEmpty.string_of_uint d)) -> c <> "_"%char.
Proof.
  induction d; cbn [NilEmpty.string_of_uint list_ascii_of_string In];
    intros H; try (destruct H as [<-|H]; [discriminate | auto]).
  destruct H.
Qed.

Lemma str_no_underscore (z : Z) (c : ascii) :
  In c (list_ascii_of_string (str z)) -> c <> "_"%char.
Proof.
  unfold str, NilZero.string_of_int.
  assert (H0 : forall d c, In c (list_ascii_of_string (NilZero.string_of_uint d))
                           -> c <> "_"%char).
  { intros d c'; destruct d; try apply digits_no_underscore.
    cbn; intros [<-|[]]; discriminate. }
  destruct (Z.to_int z) as [d|d]; [apply H0|].
  cbn [list_ascii_of_string In]; intros [<-|H]; [discriminate | eauto].
Qed.

(** Two strings cut at their first underscore. *)
Lemma split_at_underscore (s1 s2 t1 t2 : string) :
  (forall c, In c (list_ascii_of_string s1) -> c <> "_"%char) ->
  (forall c, In c (list_ascii_of_string s2) -> c <> "_"%char) ->
  (s1 ++ String "_" t1 = s2 ++ String "_" t2)%string ->
  s1 = s2 /\ t1 = t2.
Proof.
  revert s2; induction s1 as [|c s1 IH]; intros [|c2 s2] H1 H2 E;
    cbn [String.append] in E.
  - injection E as E; auto.
  - injection E as Ec E; exfalso; apply (H2 c2); [left; reflexivity | auto].
  - injection E as Ec E; exfalso; apply (H1 c); [left; reflexivity | auto].
  - injection E as Ec E; subst c2.
    destruct (IH s2) as [-> ->]; auto.
    + intros c' Hc; apply H1; right; exact Hc.
    + intros c' Hc; apply H2; right; exact Hc.
Qed.

Lemma append_cancel_l (p x y : string) :
  (p ++ x = p ++ y)%string -> x = y.
Proof.
  induction p as [|c p IH]; cbn [String.append]; intros H; [exact H|].
  injection H as H; auto.
Qed.

Lemma string_length_append (s t : string) :
  String.length (s ++ t) = (String.length s + String.length t)%nat.
Proof.
  induction s as [|c s IH]; cbn; [reflexivity | rewrite IH; reflexivity].
Qed.

Lemma append_cancel_r (s x y : string) :
  (x ++ s = y ++ s)%string -> x = y.
Proof.
  revert y; induction x as [|c x IH]; intros [|c2 y] H;
    cbn [String.append] in H.
  - reflexivity.
  - apply (f_equal String.length) in H; cbn [String.length] in H.
    rewrite string_length_append in H; lia.
  - apply (f_equal String.length) in H; cbn [String.length] in H.
    rewrite string_length_append in H; lia.
  - injection H as -> H; f_equal; auto.
Qed.

Lemma timename_injective (a b c a' b' c' : Z) :
  timename a b c = timename a' b' c' -> a = a' /\ b = b' /\ c = c'.
Proof.
  unfold timename; intros H.
  apply split_at_underscore in H; try apply str_no_underscore.
  destruct H as [Ha H].
  apply split_at_underscore in H; try apply str_no_underscore.
  destruct H as [Hb Hc].
  apply str_injective in Ha, Hb, Hc.
  repeat split; auto; lia.
Qed.

(** X22. Two different selections of timesteps never share a name: for
    [(istart, ilast, istep)] other than [(istart', ilast', istep')] the
    strings [timename] differ, and so do the files that [plotprofiles]
    saves for one quantity. *)
Theorem figures_of_distinct_selections
        (quant0 : string) (a b c a' b' c' : Z) :
  (a, b, c) <> (a', b', c') ->
  profile_figure quant0 a b c <> profile_figure quant0 a' b' c' /\
  timename a b c <> timename a' b' c'.
Proof.
  intros Hne.
  assert (Ht : timename a b c <> timename a' b' c').
  { intros H; apply timename_injective in H.
    destruct H as (-> & -> & ->); apply Hne; reflexivity. }
  split; [|exact Ht].
  unfold profile_figure; intros H; apply Ht.
  destruct (String.eqb quant0 "Grid"%string);
    [|destruct (String.eqb quant0 "Grid km"%string)];
    apply append_cancel_l in H; apply append_cancel_r in H; exact H.
Qed.

Lemma figures_of_distinct_selections_witness :
  profile_figure "Temperature"%string 0 100 1
  <> profile_figure "Temperature"%string 0 100 2 /\
  timename 0 100 1 <> timename 0 100 2.
Proof.
  apply (figures_of_distinct_selections "Temperature"%string 0 100 1 0 100 2).
  discriminate.
Defined.

(** ** The command: the options it leaves alone, the run without options *)

Section CommandFrame.

Variable RPROF_VAR_LIST : ascii -> Varr.
Variable timestep : Z * Z * Z.
Variable nml : par_nml.
Variable tsteps : ndarray2.
Variable profiles_work : string -> namespace -> result unit.
Variable difference_work : string -> namespace -> result Z.
Variable averaged_work : string -> namespace -> result unit.

Hypothesis var_t :
  name (RPROF_VAR_LIST "t") = "Temperature"%string /\
  arg (RPROF_VAR_LIST "t") = "plot_temperature"%string.
Hypothesis var_c :
  name (RPROF_VAR_LIST "c") = "Concentration"%string /\
  arg (RPROF_VAR_LIST "c") = "plot_concentration"%string.

(** X23. The command changes no option but [plot_difference], and this
    one it only ever clears: whenever it returns, every other option
    comes back as it was passed, and [plot_difference] comes back set
    only if it was passed set.  And it does return when no step of it
    raises. *)
Theorem command_keeps_other_options (args0 : namespace) :
  (forall outs args,
     run (rprof_cmd RPROF_VAR_LIST timestep nml tsteps profiles_work
            difference_work averaged_work args0) = (outs, Ok args) ->
     (forall k, k <> "plot_difference"%string -> args k = args0 k) /\
     (args "plot_difference"%string = true ->
      args0 "plot_difference"%string = true)) /\
  (nothing_raises nml tsteps profiles_work difference_work averaged_work
                  (gate args0) ->
   exists outs args,
     run (rprof_cmd RPROF_VAR_LIST timestep nml tsteps profiles_work
            difference_work averaged_work args0) = (outs, Ok args)).
Proof.
  split.
  - intros outs args H.
    destruct (command_outcome _ _ _ _ _ _ _ _ _ _ H) as [_ Hon].
    destruct (Hon args eq_refl) as [-> _].
    split; [intros k Hk; apply gate_other; exact Hk|].
    rewrite gate_difference; intros Hpd.
    apply andb_prop in Hpd; tauto.
  - intros Hnr.
    destruct (command_returns RPROF_VAR_LIST timestep nml tsteps profiles_work
                difference_work averaged_work var_t var_c args0 Hnr)
      as [outs H].
    exists outs, (gate args0); exact H.
Qed.

(** A loop whose every round returns at once does nothing. *)
Lemma for_each_skip {St V : Type} (body : St -> V -> io St) (vs : list V) :
  (forall s v, In v vs -> body s v = io_ret s) ->
  forall s, for_each body s vs = io_ret s.
Proof.
  induction vs as [|v vs IH]; intros Hb s; cbn [for_each]; [reflexivity|].
  rewrite Hb by (left; reflexivity).
  change (io_bind (io_ret s) (fun s' => for_each body s' vs))
    with (for_each body s vs).
  apply IH; intros s' v' Hin; apply Hb; right; exact Hin.
Qed.

(** X24. Without any plot option the command writes nothing at all, even
    when [plot_difference] is set: no line is printed and no file is
    saved, and [plot_difference] comes back cleared. *)
Theorem command_without_options (args0 : namespace) :
  (forall var, In var ["t"; "v"; "u"; "n"; "c"]%char ->
               args0 (arg (RPROF_VAR_LIST var)) = false) ->
  args0 "plot_conctheo"%string = false ->
  args0 "plot_grid"%string = false ->
  args0 "plot_grid_units"%string = false ->
  args0 "plot_advection"%string = false ->
  args0 "plot_energy"%string = false ->
  run (rprof_cmd RPROF_VAR_LIST timestep nml tsteps profiles_work
         difference_work averaged_work args0) =
  ([], Ok (setattr args0 "plot_difference" false)).
Proof.
  clear var_t var_c; intros Hvar Hc Hg Hu Ha He.
  assert (Hgate : gate args0 = setattr args0 "plot_difference" false)
    by (unfold gate; rewrite Hc; reflexivity).
  set (args := setattr args0 "plot_difference" false).
  assert (Hoff : forall k, args0 k = false -> args k = false).
  { intros k Hk; unfold args, setattr; rewrite Hk.
    destruct (String.eqb _ _); reflexivity. }
  assert (Hpd : args "plot_difference"%string = false) by reflexivity.
  assert (Hp : forall loc var,
             In var ["t"; "v"; "u"; "n"; "c"]%char ->
             profile_pass RPROF_VAR_LIST timestep profiles_work
               difference_work args loc var = io_ret loc).
  { intros loc var Hin; unfold profile_pass.
    rewrite (Hoff _ (Hvar var Hin)); reflexivity. }
  assert (Hav : forall var,
             In var ["t"; "v"; "u"; "n"; "c"]%char ->
             average_pass RPROF_VAR_LIST averaged_work args var = io_ret tt).
  { intros var Hin; unfold average_pass.
    rewrite (Hoff _ (Hvar var Hin)); reflexivity. }
  unfold rprof_cmd; rewrite Hgate; fold args.
  rewrite (Hoff _ Hc).
  rewrite (for_each_skip (profile_pass RPROF_VAR_LIST timestep profiles_work
                            difference_work args))
    by (intros loc var Hin; apply Hp; exact Hin).
  rewrite (for_each_skip
             (fun _ v => average_pass RPROF_VAR_LIST averaged_work args v))
    by (intros [] var Hin; apply Hav; simpl in Hin |- *; tauto).
  unfold difference_block, trailing_plots; rewrite Hpd.
  rewrite (Hoff _ Hg), (Hoff _ Hu), (Hoff _ Ha), (Hoff _ He).
  reflexivity.
Qed.

End CommandFrame.

Lemma command_keeps_other_options_witness :
  (forall outs args,
     run (rprof_cmd stagpy_var_list (0, 100, 1)%Z half_partition_nml
            one_timestep work_done least_at_start work_done
            (flags ["plot_difference"; "plot_temperature";
                    "plot_energy"]%string)) = (outs, Ok args) ->
     (forall k, k <> "plot_difference"%string ->
                args k = flags ["plot_difference"; "plot_temperature";
                                "plot_energy"]%string k) /\
     (args "plot_difference"%string = true ->
      flags ["plot_difference"; "plot_temperature"; "plot_energy"]%string
            "plot_difference"%string = true)) /\
  exists outs args,
    run (rprof_cmd stagpy_var_list (0, 100, 1)%Z half_partition_nml
           one_timestep work_done least_at_start work_done
           (flags ["plot_difference"; "plot_temperature";
                   "plot_energy"]%string)) = (outs, Ok args).
Proof.
  destruct (command_keeps_other_options stagpy_var_list (0, 100, 1)%Z
              half_partition_nml one_timestep work_done least_at_start
              work_done (conj eq_refl eq_refl) (conj eq_refl eq_refl)
              (flags ["plot_difference"; "plot_temperature";
                      "plot_energy"]%string)) as [Hframe Hret].
  split; [exact Hframe|].
  apply Hret, nothing_raises_calm; discriminate.
Defined.

Lemma command_without_options_witness :
  run (rprof_cmd stagpy_var_list (0, 100, 1)%Z half_partition_nml
         one_timestep work_done least_at_start work_done
         (flags ["plot_difference"]%string)) =
  ([], Ok (setattr (flags ["plot_difference"]%string) "plot_difference" false)).
Proof.
  apply (command_without_options stagpy_var_list (0, 100, 1)%Z
           half_partition_nml one_timestep work_done least_at_start work_done
           (flags ["plot_difference"]%string)).
  - intros var [<-|[<-|[<-|[<-|[<-|[]]]]]]; reflexivity.
  - reflexivity.
  - reflexivity.
  - reflexivity.
  - reflexivity.
  - reflexivity.
Defined.
